(** * kicad_helper: a shallow embedding of [skills/kicad_helper.py]

    The helper drives an external schematic library.  Its own logic is a
    pin-reference resolver, an auto-layout heuristic, a keyword based signal
    classifier, the orchestrating builder [create_schematic] and the
    MCU-pair wrapper [draw_mcu_connection].

    Conventions of the embedding:
    - Python [str] is [string] (8-bit characters; [upper] acts on a-z, which
      is what [str.upper] does on ASCII text);
    - a Python [float] is a binary64 value, a [spec_float] of the Standard
      Library; division, multiplication and addition round the exact result
      to nearest, ties to even, overflow to an infinity and keep NaN, and
      [round] is round-half-to-even as in Python 3 and raises on NaN and on
      the infinities;
    - the auto-layout adds and multiplies small integers (50, 40, 10 and
      list indices), which binary64 does exactly for any dict of fewer than
      2^32 components; it is carried out over [Q] and its results enter
      binary64 through [of_Q];
    - an insertion-ordered [dict] that is iterated is an association list
      with [dict_set] for item assignment; a dict that is only looked up is
      a [gmap];
    - a Python exception is the [Raise] branch of [result]; the stateful
      collaborators (schematic object, file system, renderer process) are an
      oracle, and every call and every printed line is logged in a trace. *)

From Stdlib Require Import QArith Qround Qabs Qpower Lqa Ascii String SpecFloat.
From stdpp Require Import gmap strings list pretty.

Local Open Scope string_scope.
Local Open Scope list_scope.

(** ** Exceptions and results *)

Inductive exn : Type :=
  | ValueError (msg : string)
  | IndexError
  | ZeroDivisionError
  | OverflowError (msg : string)
  | ImportError (msg : string)
  | OSError
  | FileNotFoundError
  | TimeoutExpired
  | ExternalError (msg : string).

Inductive result (A : Type) : Type :=
  | Ok (a : A)
  | Raise (e : exn).
Arguments Ok {A} a.
Arguments Raise {A} e.

Definition rbind {A B} (r : result A) (k : A -> result B) : result B :=
  match r with
  | Ok a => k a
  | Raise e => Raise e
  end.

Declare Scope result_scope.
Delimit Scope result_scope with result.
Notation "x <-r m ; k" := (rbind m (fun x => k))
  (at level 100, m at next level, right associativity,
   format "x  <-r  m ;  '/' k") : result_scope.
Local Open Scope result_scope.

Definition is_ok {A} (r : result A) : bool :=
  match r with Ok _ => true | Raise _ => false end.

(** ** Python string primitives *)

Module PyStr.

(** [c.upper()] for one character. *)
Definition upper_ascii (c : ascii) : ascii :=
  let n := nat_of_ascii c in
  if (97 <=? n)%nat && (n <=? 122)%nat then ascii_of_nat (n - 32) else c.

(** [s.upper()]. *)
Fixpoint upper (s : string) : string :=
  match s with
  | EmptyString => EmptyString
  | String c s' => String (upper_ascii c) (upper s')
  end.

(** [s.startswith(p)]. *)
Definition startswith (s p : string) : bool := String.prefix p s.

(** [needle in hay]. *)
Fixpoint contains (needle hay : string) : bool :=
  String.prefix needle hay ||
  match hay with
  | EmptyString => false
  | String _ hay' => contains needle hay'
  end.

(** [s.split(sep)] for a one-character separator, as (first part, rest). *)
Fixpoint split_aux (sep : ascii) (s : string) : string * list string :=
  match s with
  | EmptyString => (EmptyString, [])
  | String c s' =>
      let '(h, t) := split_aux sep s' in
      if Ascii.eqb c sep then (EmptyString, h :: t) else (String c h, t)
  end.

Definition split (sep : ascii) (s : string) : list string :=
  let '(h, t) := split_aux sep s in h :: t.

(** [l[-1]]: raises [IndexError] on the empty list. *)
Definition index_last {A} (l : list A) : result A :=
  match List.last (List.map Some l) None with
  | Some a => Ok a
  | None => Raise IndexError
  end.

(** Truthiness of a string. *)
Definition truthy (s : string) : bool :=
  match s with EmptyString => false | _ => true end.

(** Number of occurrences of [sep]. *)
Fixpoint count (sep : ascii) (s : string) : nat :=
  match s with
  | EmptyString => 0
  | String c s' => (if Ascii.eqb c sep then 1 else 0) + count sep s'
  end.

(** [sep.join(l)]. *)
Fixpoint join (sep : string) (l : list string) : string :=
  match l with
  | [] => ""
  | [x] => x
  | x :: l' => x +:+ sep +:+ join sep l'
  end.

(** [s.replace(old, new)] for a non-empty [old]: [skip] counts the
    characters of a match that are still to be dropped. *)
Fixpoint replace_from (old new : string) (skip : nat) (s : string)
  : string :=
  match s with
  | EmptyString => EmptyString
  | String c s' =>
      match skip with
      | S k => replace_from old new k s'
      | O =>
          if String.prefix old s
          then new +:+ replace_from old new (String.length old - 1) s'
          else String c (replace_from old new 0 s')
      end
  end.

Definition replace (s old new : string) : string :=
  replace_from old new 0 s.

End PyStr.

(** ** Signal classifier *)

(** The table [SIGNAL_PATTERNS], in the order of the dict literal (which is
    the iteration order of [.items()]). *)
Definition SIGNAL_PATTERNS : list (string * string) :=
  [ ("SDA", "I2C Data"); ("SCL", "I2C Clock");
    ("MOSI", "SPI Data"); ("MISO", "SPI Data");
    ("SCK", "SPI Clock"); ("SCLK", "SPI Clock");
    ("CS", "SPI Select"); ("SS", "SPI Select"); ("NSS", "SPI Select");
    ("GND", "Ground");
    ("VCC", "Power"); ("VDD", "Power"); ("3V3", "Power"); ("3.3V", "Power");
    ("5V", "Power"); ("12V", "Power"); ("VBAT", "Power"); ("VIN", "Power");
    ("VOUT", "Power");
    ("PWM", "PWM"); ("ADC", "Analog"); ("DAC", "Analog");
    ("INT", "Interrupt"); ("IRQ", "Interrupt");
    ("RST", "Reset"); ("RESET", "Reset");
    ("EN", "Enable"); ("ENABLE", "Enable");
    ("RS485", "RS-485"); ("RS422", "RS-422");
    ("485_DE", "RS-485 Driver Enable"); ("485_RE", "RS-485 Receiver Enable");
    ("485_DI", "RS-485 Driver Input"); ("485_RO", "RS-485 Receiver Output");
    ("DATA+", "RS-485 Data+"); ("DATA-", "RS-485 Data-");
    ("CANH", "CAN High"); ("CANL", "CAN Low");
    ("CAN_H", "CAN High"); ("CAN_L", "CAN Low");
    ("CAN_TX", "CAN TX"); ("CAN_RX", "CAN RX") ].

Definition rs485_pins : list string := ["DI"; "RO"; "DE"; "RE"; "/RE"; "~RE"].

(** The final [for keyword, signal_type in SIGNAL_PATTERNS.items()] loop. *)
Fixpoint scan_patterns (table : list (string * string)) (combined : string)
  : string :=
  match table with
  | [] => ""
  | (keyword, signal_type) :: rest =>
      if PyStr.contains keyword combined then signal_type
      else scan_patterns rest combined
  end.

(** [x.split('.')[-1].upper() if '.' in x else x_upper]. *)
Definition trailing_pin (x x_upper : string) : result string :=
  if PyStr.contains "." x then
    p <-r PyStr.index_last (PyStr.split "." x);
    Ok (PyStr.upper p)
  else Ok x_upper.

Definition _infer_signal_type (src dst : string) : result string :=
  let src_upper := PyStr.upper src in
  let dst_upper := PyStr.upper dst in
  let combined := src_upper +:+ dst_upper in
  if PyStr.contains "CAN" combined then
    if PyStr.contains "CANH" combined || PyStr.contains "CAN_H" combined
    then Ok "CAN High"
    else if PyStr.contains "CANL" combined || PyStr.contains "CAN_L" combined
    then Ok "CAN Low"
    else if PyStr.contains "CAN_TX" combined || PyStr.contains "CANTX" combined
    then Ok "CAN TX"
    else if PyStr.contains "CAN_RX" combined || PyStr.contains "CANRX" combined
    then Ok "CAN RX"
    else Ok "CAN"
  else
    src_pin <-r trailing_pin src src_upper;
    dst_pin <-r trailing_pin dst dst_upper;
    if bool_decide (src_pin ∈ rs485_pins) || bool_decide (dst_pin ∈ rs485_pins)
    then Ok "RS-485"
    else if (PyStr.contains "TX" src_upper && PyStr.contains "RX" dst_upper)
         || (PyStr.contains "RX" src_upper && PyStr.contains "TX" dst_upper)
    then Ok "UART"
    else Ok (scan_patterns SIGNAL_PATTERNS combined).

(** ** Python floats *)

Abbreviation float := spec_float.

Section Binary64.

Local Open Scope Q_scope.

(** The nearest integer, ties to even. *)
Definition round_half_even (q : Q) : Z :=
  let f := Qfloor q in
  match Qcompare (q - inject_Z f) (1 # 2) with
  | Lt => f
  | Gt => (f + 1)%Z
  | Eq => if Z.even f then f else (f + 1)%Z
  end.

(** The exponent of the binade of [a > 0]: [2^(ilog2 a) <= a < 2^(ilog2 a + 1)]. *)
Definition ilog2 (a : Q) : Z :=
  let c := (Z.log2 (Qnum a) - Z.log2 (Zpos (Qden a)))%Z in
  if Qle_bool (2 ^ c) a then c else (c - 1)%Z.

(** The float with sign [neg] and value [m * 2^e], for [0 <= m <= 2^53]:
    a significand of 54 bits is renormalised, an exponent above the largest
    one gives an infinity. *)
Definition pack (neg : bool) (m e : Z) : float :=
  let '(m, e) := if (m =? 2 ^ 53)%Z then (2 ^ 52, e + 1)%Z else (m, e) in
  match m with
  | Zpos p => if (971 <? e)%Z then S754_infinity neg else S754_finite neg p e
  | _ => S754_zero neg
  end.

(** The binary64 value nearest to [q], ties to even: the significand has 53
    bits, or fewer at the smallest exponent -1074.  This is also how Python
    reads a decimal literal. *)
Definition of_Q (q : Q) : float :=
  match Qnum q with
  | Z0 => S754_zero false
  | _ =>
      let a := Qabs q in
      let e := Z.max (ilog2 a - 52) (-1074) in
      pack (Qnum q <? 0)%Z (round_half_even (a / 2 ^ e)) e
  end.

(** The rational a finite float stands for; 0 for the others. *)
Definition F2Q (x : float) : Q :=
  match x with
  | S754_finite s m e =>
      if s then - (inject_Z (Zpos m) * 2 ^ e) else inject_Z (Zpos m) * 2 ^ e
  | _ => 0
  end.

Definition is_finite (x : float) : bool :=
  match x with
  | S754_zero _ | S754_finite _ _ _ => true
  | _ => false
  end.

Definition sign_of (x : float) : bool :=
  match x with
  | S754_zero s | S754_infinity s | S754_finite s _ _ => s
  | S754_nan => false
  end.

(** IEEE 754 multiplication, division and addition, round to nearest. *)
Definition ieee_mul (x y : float) : float :=
  match x, y with
  | S754_nan, _ | _, S754_nan => S754_nan
  | S754_infinity _, S754_zero _ | S754_zero _, S754_infinity _ => S754_nan
  | S754_infinity sx, _ => S754_infinity (xorb sx (sign_of y))
  | _, S754_infinity sy => S754_infinity (xorb (sign_of x) sy)
  | S754_zero sx, _ => S754_zero (xorb sx (sign_of y))
  | _, S754_zero sy => S754_zero (xorb (sign_of x) sy)
  | S754_finite _ _ _, S754_finite _ _ _ => of_Q (F2Q x * F2Q y)
  end.

Definition ieee_div (x y : float) : float :=
  match x, y with
  | S754_nan, _ | _, S754_nan => S754_nan
  | S754_infinity _, S754_infinity _ | S754_zero _, S754_zero _ => S754_nan
  | S754_infinity sx, _ => S754_infinity (xorb sx (sign_of y))
  | _, S754_infinity sy => S754_zero (xorb (sign_of x) sy)
  | _, S754_zero sy => S754_infinity (xorb (sign_of x) sy)
  | S754_zero sx, _ => S754_zero (xorb sx (sign_of y))
  | S754_finite _ _ _, S754_finite _ _ _ => of_Q (F2Q x / F2Q y)
  end.

Definition ieee_add (x y : float) : float :=
  match x, y with
  | S754_nan, _ | _, S754_nan => S754_nan
  | S754_infinity sx, S754_infinity sy =>
      if Bool.eqb sx sy then x else S754_nan
  | S754_infinity _, _ => x
  | _, S754_infinity _ => y
  | S754_zero sx, S754_zero sy => S754_zero (sx && sy)
  | S754_zero _, _ => y
  | _, S754_zero _ => x
  | S754_finite _ _ _, S754_finite _ _ _ => of_Q (F2Q x + F2Q y)
  end.

(** [x / y] on floats: a zero divisor raises, whatever [x] is. *)
Definition py_div (x y : float) : result float :=
  match y with
  | S754_zero _ => Raise ZeroDivisionError
  | _ => Ok (ieee_div x y)
  end.

(** [float(k)] for an [int], as in [k * y]. *)
Definition int_to_float (k : Z) : result float :=
  match of_Q (inject_Z k) with
  | S754_infinity _ => Raise (OverflowError "int too large to convert to float")
  | f => Ok f
  end.

(** Python 3 [round(x)] on a float: the nearest integer, ties to even. *)
Definition py_round (x : float) : result Z :=
  match x with
  | S754_nan => Raise (ValueError "cannot convert float NaN to integer")
  | S754_infinity _ =>
      Raise (OverflowError "cannot convert float infinity to integer")
  | _ => Ok (round_half_even (F2Q x))
  end.

End Binary64.

(** ** Data model *)

(** A component spec is a Python dict with optional keys. *)
Record component_spec : Type := mk_spec {
  lib_id : option string;
  value : option string;
  pins : option (gmap string string);
  footprint : option string;
  position : option (float * float)
}.

(** [components]: an insertion-ordered dict from reference designators to
    specs.  Its keys are distinct; lemmas that need this assume
    [NoDup (keys components)]. *)
Definition components_t : Type := list (string * component_spec).

Definition keys {V} (d : list (string * V)) : list string := List.map fst d.

(** [d[k] = v] on an insertion-ordered dict: an existing key keeps its
    place, a new key goes last. *)
Fixpoint dict_set {V} (d : list (string * V)) (k : string) (v : V)
  : list (string * V) :=
  match d with
  | [] => [(k, v)]
  | (k', v') :: d' =>
      if String.eqb k' k then (k', v) :: d' else (k', v') :: dict_set d' k v
  end.

Fixpoint dict_get {V} (d : list (string * V)) (k : string) : option V :=
  match d with
  | [] => None
  | (k', v') :: d' => if String.eqb k' k then Some v' else dict_get d' k
  end.

(** [spec.get(key, default)]. *)
Definition get_or {A} (o : option A) (default : A) : A :=
  match o with Some a => a | None => default end.

Abbreviation pin_maps_t := (gmap string (gmap string string)) (only parsing).

(** ** Pin reference resolver *)

Definition _parse_pin_ref (pin_ref : string) (pin_maps : pin_maps_t)
  : result (string * string) :=
  let parts := PyStr.split "." pin_ref in
  if negb (Nat.eqb (length parts) 2) then
    Raise (ValueError ("Invalid pin reference: " +:+ pin_ref))
  else
    match parts with
    | [ref; pin_name] =>
        let pin_num :=
          match pin_maps !! ref with
          | Some m =>
              match m !! pin_name with
              | Some n => n
              | None => pin_name
              end
          | None => pin_name
          end in
        Ok (ref, pin_num)
    | _ => Raise (ValueError "unpack")
    end.

(** ** Grid snapping *)

Definition GRID_SPACING : float := of_Q 2.54%Q.
Definition COMPONENT_SPACING_X : Q := 40%Q.
Definition COMPONENT_SPACING_Y : Q := 10%Q.
Definition DEFAULT_OUTPUT_DIR : string := "KiCad".

(** [round(value / grid) * grid]: the division, the rounding and the
    conversion of the rounded integer back to a float can each raise. *)
Definition _snap_to_grid (value grid : float) : result float :=
  q <-r py_div value grid;
  k <-r py_round q;
  kf <-r int_to_float k;
  Ok (ieee_mul kf grid).

(** ** Auto-layout *)

Inductive category : Type := Controller | Passive | Other.

(** The [if]/[elif]/[else] of the categorisation loop. *)
Definition classify (lib : string) : category :=
  if existsb (fun x => PyStr.contains x lib) ["MCU"; "Module"; "IC"] then
    Controller
  else if existsb (fun x => PyStr.startswith lib ("Device:" +:+ x))
            ["R"; "C"; "L"] then
    Passive
  else Other.

Record buckets : Type := mk_buckets {
  mcus : list string;
  passives : list string;
  others : list string
}.

Definition categorize_step (b : buckets) (item : string * component_spec)
  : buckets :=
  let '(ref, spec) := item in
  match classify (get_or (lib_id spec) "") with
  | Controller => mk_buckets (mcus b ++ [ref]) (passives b) (others b)
  | Passive => mk_buckets (mcus b) (passives b ++ [ref]) (others b)
  | Other => mk_buckets (mcus b) (passives b) (others b ++ [ref])
  end.

Definition categorize (components : components_t) : buckets :=
  fold_left categorize_step components (mk_buckets [] [] []).

Abbreviation positions_t := (gmap string (Q * Q)) (only parsing).

Definition y_offset : Q := 50%Q.

Definition of_nat (i : nat) : Q := inject_Z (Z.of_nat i).

Definition mcu_position (i : nat) : Q * Q :=
  ((50 + (of_nat i * COMPONENT_SPACING_X * 2))%Q, y_offset).

Definition passive_x (n_mcus : nat) : Q :=
  (50 + (of_nat n_mcus * COMPONENT_SPACING_X * 2) + COMPONENT_SPACING_X)%Q.

Definition passive_position (n_mcus i : nat) : Q * Q :=
  let row := (i / 4)%nat in
  let col := (i mod 4)%nat in
  ((passive_x n_mcus + (of_nat col * COMPONENT_SPACING_X / 2))%Q,
   (y_offset + (of_nat row * COMPONENT_SPACING_Y))%Q).

Definition other_x (n_mcus : nat) : Q :=
  (passive_x n_mcus + COMPONENT_SPACING_X * 2)%Q.

Definition other_position (n_mcus i : nat) : Q * Q :=
  (other_x n_mcus, (y_offset + (of_nat i * COMPONENT_SPACING_Y))%Q).

(** [for i, ref in enumerate(refs): positions[ref] = pos(i)], started at
    index [i]. *)
Fixpoint place (pos : nat -> Q * Q) (i : nat) (refs : list string)
    (positions : positions_t) : positions_t :=
  match refs with
  | [] => positions
  | ref :: rest => place pos (S i) rest (<[ref := pos i]> positions)
  end.

Definition _auto_layout_components (components : components_t) : positions_t :=
  let b := categorize components in
  let n := length (mcus b) in
  let positions := place mcu_position 0 (mcus b) ∅ in
  let positions := place (passive_position n) 0 (passives b) positions in
  place (other_position n) 0 (others b) positions.

(** ** Collaborators and traces *)

(** Everything the helper does to the outside: lines it prints and calls it
    makes on the schematic object, the file system and the renderer. *)
Inductive event : Type :=
  | EvPrint (line : string)
  | EvCreateSchematic (title : string)
  | EvComponentsAdd (lib reference val : string) (pos : float * float)
      (fp : option string)
  | EvAutoRoutePins (src_ref src_pin dst_ref dst_pin : string)
  | EvAddWireBetweenPins (src_ref src_pin dst_ref dst_pin : string)
  | EvGetComponentPinPosition (ref pin : string)
  | EvAddLabel (net_name : string) (pos : float * float)
  | EvSave (filename : string)
  | EvPathExists (path : string)
  | EvMakedirs (path : string)
  | EvSubprocessRun (args : list string)
  | EvMove (src dst : string)
  | EvRmdir (path : string)
  | EvIsfile (path : string)
  | EvWriteFile (path content : string).

Definition trace : Type := list event.

Record completed_process : Type := mk_completed {
  returncode : Z;
  stderr : string
}.

(** The environment of one run.  Collaborator answers may depend on the
    history of the run, so each oracle reads the trace so far. *)
Record world : Type := mk_world {
  ksa_installed : bool;
  os_path_dirname : string -> string;
  os_path_basename : string -> string;
  os_path_join : string -> string -> string;
  reply_unit : trace -> event -> result unit;
  reply_position : trace -> string -> string -> result (float * float);
  reply_bool : trace -> event -> bool;
  reply_run : trace -> list string -> result completed_process
}.

(** The builder monad: exceptions over a growing trace.  What was printed or
    called before an exception stays in the trace. *)
Definition M (A : Type) : Type := trace -> result A * trace.

Definition ret {A} (a : A) : M A := fun tr => (Ok a, tr).

Definition bind {A B} (m : M A) (k : A -> M B) : M B :=
  fun tr =>
    match m tr with
    | (Ok a, tr') => k a tr'
    | (Raise e, tr') => (Raise e, tr')
    end.

Definition raise {A} (e : exn) : M A := fun tr => (Raise e, tr).

Definition lift {A} (r : result A) : M A := fun tr => (r, tr).

Definition try_except {A} (m : M A) (handler : exn -> M A) : M A :=
  fun tr =>
    match m tr with
    | (Ok a, tr') => (Ok a, tr')
    | (Raise e, tr') => handler e tr'
    end.

Declare Scope builder_scope.
Delimit Scope builder_scope with builder.
Notation "x <- m ;; k" := (bind m (fun x => k))
  (at level 100, m at next level, right associativity) : builder_scope.
Notation "m ;; k" := (bind m (fun _ => k))
  (at level 100, right associativity) : builder_scope.

(** [for x in l: body(x)]. *)
Fixpoint for_each {A} (l : list A) (body : A -> M unit) : M unit :=
  match l with
  | [] => ret tt
  | x :: l' => bind (body x) (fun _ => for_each l' body)
  end.

Definition print (line : string) : M unit :=
  fun tr => (Ok tt, tr ++ [EvPrint line]).

Definition exn_str (e : exn) : string :=
  match e with
  | ValueError msg => msg
  | IndexError => "list index out of range"
  | ZeroDivisionError => "float division by zero"
  | OverflowError msg => msg
  | ImportError msg => msg
  | OSError => "OSError"
  | FileNotFoundError => "FileNotFoundError"
  | TimeoutExpired => "TimeoutExpired"
  | ExternalError msg => msg
  end.

(** [e] is an instance of [OSError]. *)
Definition is_OSError (e : exn) : bool :=
  match e with
  | OSError | FileNotFoundError => true
  | _ => false
  end.

(** [l[i]] for a natural index. *)
Definition py_index {A} (l : list A) (i : nat) : result A :=
  match l !! i with
  | Some a => Ok a
  | None => Raise IndexError
  end.

(** [for x in l: ys.append(f(x))] where [f] may raise. *)
Fixpoint rmap {A B} (f : A -> result B) (l : list A) : result (list B) :=
  match l with
  | [] => Ok []
  | x :: l' => y <-r f x; ys <-r rmap f l'; Ok (y :: ys)
  end.

(** [x or default] on an optional string. *)
Definition str_or (x : option string) (default : string) : string :=
  match x with
  | Some s => if PyStr.truthy s then s else default
  | None => default
  end.

Definition nl : string := String (ascii_of_nat 10) EmptyString.

(** ** The schematic builder *)

Section Builder.

Variable W : world.

Local Open Scope builder_scope.

(** A collaborator call that returns nothing of interest. *)
Definition call (ev : event) : M unit :=
  fun tr => (reply_unit W tr ev, tr ++ [ev]).

(** A probe of the file system. *)
Definition probe (ev : event) : M bool :=
  fun tr => (Ok (reply_bool W tr ev), tr ++ [ev]).

Definition get_component_pin_position (ref pin : string)
  : M (float * float) :=
  fun tr =>
    (reply_position W tr ref pin, tr ++ [EvGetComponentPinPosition ref pin]).

Definition subprocess_run (args : list string) : M completed_process :=
  fun tr => (reply_run W tr args, tr ++ [EvSubprocessRun args]).

Definition _ensure_ksa : M unit :=
  if ksa_installed W then ret tt
  else raise (ImportError
    "kicad-sch-api is required. Install with: pip install kicad-sch-api").

Definition _get_output_path (filename : string) (output_dir : option string)
  : M string :=
  let output_path :=
    if PyStr.truthy (os_path_dirname W filename) then filename
    else os_path_join W (str_or output_dir DEFAULT_OUTPUT_DIR) filename in
  let dir_path := os_path_dirname W output_path in
  (if PyStr.truthy dir_path then
     present <- probe (EvPathExists dir_path) ;;
     if present then ret tt
     else
       call (EvMakedirs dir_path) ;;
       print ("Created directory: " +:+ dir_path)
   else ret tt) ;;
  ret output_path.

(** The [try]/[except] around the two endpoint parses of a pair. *)
Definition parse_pair (src dst : string) (pin_maps : pin_maps_t)
  : result ((string * string) * (string * string)) :=
  s <-r _parse_pin_ref src pin_maps;
  d <-r _parse_pin_ref dst pin_maps;
  Ok (s, d).

(** The [try] block around the label of a power group. *)
Definition label_attempt (net_name first_ref first_pin : string)
  : M unit :=
  try_except
    (pin_pos <- get_component_pin_position first_ref first_pin ;;
     let label_pos := (ieee_add (fst pin_pos) (of_Q 2.54%Q), snd pin_pos) in
     call (EvAddLabel net_name label_pos))
    (fun _ =>
       print ("Note: Could not add label '" +:+ net_name +:+
              "' at pin " +:+ first_ref +:+ "." +:+ first_pin)).

(** The [try] block around one join of a power group. *)
Definition join_attempt (pin_maps : pin_maps_t) (src dst : string)
  : M unit :=
  try_except
    (parsed <- lift (parse_pair src dst pin_maps) ;;
     let '((src_ref, src_pin), (dst_ref, dst_pin)) := parsed in
     call (EvAddWireBetweenPins src_ref src_pin dst_ref dst_pin))
    (fun e =>
       print ("Warning: Could not connect power " +:+ src +:+
              " -> " +:+ dst +:+ ": " +:+ exn_str e)).

Definition _add_power_net (pin_list : list string) (net_name : string)
    (pin_maps : pin_maps_t) : M unit :=
  match pin_list with
  | [] => ret tt
  | first :: _ =>
      first_parsed <- lift (_parse_pin_ref first pin_maps) ;;
      let '(first_ref, first_pin) := first_parsed in
      label_attempt net_name first_ref first_pin ;;
      for_each (seq 0 (length pin_list - 1)) (fun i =>
        src <- lift (py_index pin_list i) ;;
        dst <- lift (py_index pin_list (i + 1)) ;;
        join_attempt pin_maps src dst)
  end.

Definition _render_svg (kicad_sch_path : string) : M (option string) :=
  let output_dir := str_or (Some (os_path_dirname W kicad_sch_path)) "." in
  let base_name :=
    PyStr.replace (os_path_basename W kicad_sch_path) ".kicad_sch" "" in
  let svg_path := os_path_join W output_dir (base_name +:+ ".svg") in
  try_except
    (completed <- subprocess_run
       ["kicad-cli"; "sch"; "export"; "svg"; "-o"; output_dir;
        kicad_sch_path] ;;
     if Z.eqb (returncode completed) 0 then
       let subdir_svg :=
         os_path_join W (os_path_join W output_dir (base_name +:+ ".svg"))
           (base_name +:+ ".svg") in
       nested <- probe (EvPathExists subdir_svg) ;;
       (if nested then
          call (EvMove subdir_svg svg_path) ;;
          try_except (call (EvRmdir (os_path_dirname W subdir_svg)))
            (fun e => if is_OSError e then ret tt else raise e)
        else ret tt) ;;
       present <- probe (EvPathExists svg_path) ;;
       if present then ret (Some svg_path)
       else
         let direct_svg := os_path_join W output_dir (base_name +:+ ".svg") in
         is_file <- probe (EvIsfile direct_svg) ;;
         if is_file then ret (Some direct_svg) else ret (Some svg_path)
     else
       print ("kicad-cli error: " +:+ stderr completed) ;;
       ret None)
    (fun e =>
       match e with
       | FileNotFoundError =>
           print
             "Warning: kicad-cli not found. Install KiCad 9+ for SVG rendering." ;;
           ret None
       | TimeoutExpired =>
           print "Warning: kicad-cli timed out" ;;
           ret None
       | _ =>
           print ("Warning: SVG rendering failed: " +:+ exn_str e) ;;
           ret None
       end).

(** [lib_id.split(':')[-1] if ':' in lib_id else lib_id]. *)
Definition part_name (lib : string) : result string :=
  if PyStr.contains ":" lib then PyStr.index_last (PyStr.split ":" lib)
  else Ok lib.

Definition md_mcu_markers : list string :=
  ["MCU"; "Module"; "Teensy"; "Arduino"; "Pico"; "ESP"].

(** The [lines] list of [_generate_connection_md]. *)
Definition md_lines (kicad_sch_path : string) (title : option string)
    (components : components_t) (connections : list (string * string))
    (power_connections : option (list (list string * string)))
  : result (list string) :=
  let base_name :=
    PyStr.replace (os_path_basename W kicad_sch_path) ".kicad_sch" "" in
  component_rows <-r rmap (fun item : string * component_spec =>
      let '(ref, spec) := item in
      let lib := get_or (lib_id spec) "Unknown" in
      comp_type <-r part_name lib;
      Ok ("| " +:+ ref +:+ " | " +:+ comp_type +:+ " | " +:+
          get_or (value spec) "" +:+ " |")) components;
  connection_rows <-r rmap (fun conn : string * string =>
      let '(src, dst) := conn in
      signal_type <-r _infer_signal_type src dst;
      Ok ("| " +:+ src +:+ " | " +:+ dst +:+ " | " +:+ signal_type +:+ " |"))
    connections;
  let power_rows :=
    match power_connections with
    | Some ((_ :: _) as groups) =>
        ["## Power Nets" +:+ nl; "| Net | Connected Pins |";
         "|-----|----------------|"] ++
        List.map (fun group : list string * string =>
          let '(pin_list, net_name) := group in
          "| " +:+ net_name +:+ " | " +:+ PyStr.join ", " pin_list +:+ " |")
          groups ++ [""]
    | _ => []
    end in
  let mcu_refs :=
    List.filter (fun item : string * component_spec =>
      existsb (fun x => PyStr.contains x (get_or (lib_id (snd item)) ""))
        md_mcu_markers) components in
  let level_notes :=
    if (2 <=? length mcu_refs)%nat then
      ["- Check voltage levels between MCUs (3.3V vs 5V logic)";
       "- Add level shifters if needed for voltage compatibility"]
    else [] in
  Ok (["# " +:+ str_or title base_name +:+ nl;
       "## Components" +:+ nl;
       "| Reference | Type | Value |";
       "|-----------|------|-------|"] ++
      component_rows ++ [""] ++
      ["## Connections" +:+ nl;
       "| From | To | Net/Notes |";
       "|------|-----|-----------|"] ++
      connection_rows ++ [""] ++
      power_rows ++
      ["## Notes" +:+ nl;
       "- Schematic file: `" +:+ os_path_basename W kicad_sch_path +:+ "`";
       "- SVG render: `" +:+ base_name +:+ ".svg`"] ++
      level_notes ++ [""]).

Definition _generate_connection_md (kicad_sch_path : string)
    (title : option string) (components : components_t)
    (connections : list (string * string))
    (power_connections : option (list (list string * string)))
  : M (option string) :=
  let md_path := PyStr.replace kicad_sch_path ".kicad_sch" ".md" in
  try_except
    (lines <- lift (md_lines kicad_sch_path title components connections
                      power_connections) ;;
     call (EvWriteFile md_path (PyStr.join nl lines)) ;;
     ret (Some md_path))
    (fun e =>
       print ("Warning: Could not generate markdown: " +:+ exn_str e) ;;
       ret None).

(** The [if]/[elif]/[else] that picks the position of a component: its
    explicit position, else its laid-out position, else (100.0, 100.0). *)
Definition select_position (positions : positions_t) (ref : string)
    (spec : component_spec) : float * float :=
  match position spec with
  | Some p => p
  | None =>
      match positions !! ref with
      | Some p => (of_Q (fst p), of_Q (snd p))
      | None => (of_Q 100%Q, of_Q 100%Q)
      end
  end.

(** Body of the "Add components" loop.  The two snaps stand before the
    [try]: an exception of theirs leaves the loop and the builder. *)
Definition add_component (positions : positions_t)
    (item : string * component_spec) : M unit :=
  let '(ref, spec) := item in
  let lib := get_or (lib_id spec) "Device:R" in
  let val := get_or (value spec) "" in
  let fp := get_or (footprint spec) "" in
  let pos := select_position positions ref spec in
  x <- lift (_snap_to_grid (fst pos) GRID_SPACING) ;;
  y <- lift (_snap_to_grid (snd pos) GRID_SPACING) ;;
  try_except
    (call (EvComponentsAdd lib ref val (x, y)
             (if PyStr.truthy fp then Some fp else None)))
    (fun e =>
       print ("Warning: Could not add component " +:+ ref +:+ " (" +:+
              lib +:+ "): " +:+ exn_str e)).

(** The "pin name to number mapping" loop. *)
Definition build_pin_maps (components : components_t) : pin_maps_t :=
  fold_left (fun (pin_maps : pin_maps_t) (item : string * component_spec) =>
               <[fst item := get_or (pins (snd item)) ∅]> pin_maps)
    components ∅.

(** Body of the "Add wire connections" loop. *)
Definition add_connection (pin_maps : pin_maps_t) (conn : string * string)
  : M unit :=
  let '(src, dst) := conn in
  match parse_pair src dst pin_maps with
  | Raise e =>
      print ("Warning: Could not parse pin reference " +:+ src +:+ " or " +:+
             dst +:+ ": " +:+ exn_str e)
  | Ok ((src_ref, src_pin), (dst_ref, dst_pin)) =>
      try_except
        (call (EvAutoRoutePins src_ref src_pin dst_ref dst_pin))
        (fun _ =>
           try_except
             (call (EvAddWireBetweenPins src_ref src_pin dst_ref dst_pin))
             (fun e2 =>
                print ("Warning: Could not connect " +:+ src +:+ " -> " +:+
                       dst +:+ ": " +:+ exn_str e2)))
  end.

Definition create_schematic (components : components_t)
    (connections : list (string * string)) (filename : string)
    (title : option string)
    (power_connections : option (list (list string * string)))
    (render_svg auto_layout : bool) (output_dir : option string)
  : M string :=
  _ensure_ksa ;;
  filename <- _get_output_path filename output_dir ;;
  call (EvCreateSchematic (str_or title "Schematic")) ;;
  let positions : positions_t :=
    if auto_layout then _auto_layout_components components else ∅ in
  for_each components (add_component positions) ;;
  let pin_maps := build_pin_maps components in
  for_each connections (add_connection pin_maps) ;;
  match power_connections with
  | Some ((_ :: _) as groups) =>
      for_each groups (fun group : list string * string =>
        _add_power_net (fst group) (snd group) pin_maps)
  | _ => ret tt
  end ;;
  call (EvSave filename) ;;
  print ("Saved: " +:+ filename) ;;
  (if render_svg then
     svg_path <- _render_svg filename ;;
     match svg_path with
     | Some path =>
         if PyStr.truthy path then print ("Rendered: " +:+ path) else ret tt
     | None => ret tt
     end
   else ret tt) ;;
  md_path <- _generate_connection_md filename title components connections
               power_connections ;;
  match md_path with
  | Some path =>
      if PyStr.truthy path then print ("Documentation: " +:+ path)
      else ret tt
  | None => ret tt
  end ;;
  ret filename.

(** *** The MCU-pair builder *)

Record pullup_state : Type := mk_pullup_state {
  ps_components : components_t;
  full_connections : list (string * string);
  ps_power_connections : list (list string * string);
  pullup_count : nat;
  processed_i2c_pins : gset string
}.

(** The choice of [i2c_signal] for one pair; [None] is Python's [None]. *)
Definition i2c_signal_of (i2c_pins : list string) (pair : string * string)
  : option string :=
  let '(mcu1_pin, mcu2_pin) := pair in
  if bool_decide (mcu1_pin ∈ i2c_pins) then Some mcu1_pin
  else if bool_decide (mcu2_pin ∈ i2c_pins) then Some mcu2_pin
  else None.

(** Body of the loop over [connections] of [draw_mcu_connection]. *)
Definition pullup_step (mcu1_name mcu2_name pullup_value : string)
    (i2c_pins : list string) (st : pullup_state) (pair : string * string)
  : pullup_state :=
  let '(mcu1_pin, mcu2_pin) := pair in
  let direct :=
    (mcu1_name +:+ "." +:+ mcu1_pin, mcu2_name +:+ "." +:+ mcu2_pin) in
  let plain :=
    mk_pullup_state (ps_components st) (full_connections st ++ [direct])
      (ps_power_connections st) (pullup_count st) (processed_i2c_pins st) in
  match i2c_signal_of i2c_pins pair with
  | Some i2c_signal =>
      if PyStr.truthy i2c_signal
         && bool_decide (i2c_signal ∉ processed_i2c_pins st) then
        let count := S (pullup_count st) in
        let r_ref := "R" +:+ pretty count in
        mk_pullup_state
          (dict_set (ps_components st) r_ref
             (mk_spec (Some "Device:R") (Some pullup_value) None None None))
          (full_connections st ++
             [direct; (mcu1_name +:+ "." +:+ mcu1_pin, r_ref +:+ ".1")])
          (ps_power_connections st ++ [([r_ref +:+ ".2"], "VCC")])
          count
          ({[i2c_signal]} ∪ processed_i2c_pins st)
      else plain
  | None => plain
  end.

Definition pullup_loop (mcu1_name mcu2_name pullup_value : string)
    (i2c_pins : list string) (st : pullup_state)
    (connections : list (string * string)) : pullup_state :=
  fold_left (pullup_step mcu1_name mcu2_name pullup_value i2c_pins)
    connections st.

Definition draw_mcu_connection (mcu1_name mcu1_lib_id : string)
    (mcu1_pins : gmap string string) (mcu2_name mcu2_lib_id : string)
    (mcu2_pins : gmap string string) (connections : list (string * string))
    (filename : string) (title : option string)
    (i2c_pins : option (list string)) (pullup_value : string)
    (render_svg : bool) (output_dir : option string) : M string :=
  let i2c_pins := get_or i2c_pins [] in
  value1 <- lift (PyStr.index_last (PyStr.split ":" mcu1_lib_id)) ;;
  value2 <- lift (PyStr.index_last (PyStr.split ":" mcu2_lib_id)) ;;
  let components :=
    dict_set
      (dict_set [] mcu1_name
         (mk_spec (Some mcu1_lib_id) (Some value1) (Some mcu1_pins) None None))
      mcu2_name
      (mk_spec (Some mcu2_lib_id) (Some value2) (Some mcu2_pins) None None) in
  let st :=
    pullup_loop mcu1_name mcu2_name pullup_value i2c_pins
      (mk_pullup_state components [] [] 0 ∅) connections in
  create_schematic (ps_components st) (full_connections st) filename title
    (match ps_power_connections st with
     | [] => None
     | groups => Some groups
     end)
    render_svg true output_dir.

End Builder.

(** ** A concrete environment for the examples *)

Module Posix.

(** [os.path.dirname] on POSIX, for paths without doubled slashes. *)
Definition dirname (p : string) : string :=
  match List.removelast (PyStr.split "/" p) with
  | [] => ""
  | [""] => "/"
  | parts => PyStr.join "/" parts
  end.

Definition basename (p : string) : string :=
  List.last (PyStr.split "/" p) "".

(** [os.path.join] of two parts. *)
Definition join (a b : string) : string :=
  if PyStr.startswith b "/" then b
  else if negb (PyStr.truthy a) || PyStr.startswith (String.rev a) "/"
  then a +:+ b
  else a +:+ "/" +:+ b.

(** Every collaborator call succeeds; nothing exists on disk yet and the
    renderer exits with status 0. *)
Definition quiet : world :=
  mk_world true dirname basename join
    (fun _ _ => Ok tt)
    (fun _ _ _ => Ok (of_Q 0%Q, of_Q 0%Q))
    (fun _ _ => false)
    (fun _ _ => Ok (mk_completed 0 "")).

(** As [quiet], but the schematic library refuses every component, route
    and wire, cannot locate pins, and the renderer binary is missing. *)
Definition hostile : world :=
  mk_world true dirname basename join
    (fun _ ev =>
       match ev with
       | EvComponentsAdd _ _ _ _ _ | EvAutoRoutePins _ _ _ _
       | EvAddWireBetweenPins _ _ _ _ | EvAddLabel _ _
       | EvWriteFile _ _ => Raise (ExternalError "refused")
       | _ => Ok tt
       end)
    (fun _ _ _ => Raise (ExternalError "no such pin"))
    (fun _ _ => false)
    (fun _ _ => Raise FileNotFoundError).

End Posix.

Definition resistor (val : string) : component_spec :=
  mk_spec (Some "Device:R") (Some val) None None None.

Definition part (lib : string) : component_spec :=
  mk_spec (Some lib) None None None None.

(** * Vocabulary of the properties *)

(** ** Pin references *)

(** What a well-formed reference ["a.b"] resolves to: the mapped number
    when component [a] has an entry for [b], else [b] itself. *)
Definition resolved_pin (pin_maps : pin_maps_t) (a b : string) : string :=
  match pin_maps !! a with
  | Some m => default b (m !! b)
  | None => b
  end.

(** ** Categories and slots of the layout *)

Definition lib_of (item : string * component_spec) : string :=
  get_or (lib_id (snd item)) "".

Definition has_marker (lib : string) : bool :=
  existsb (fun x => PyStr.contains x lib) ["MCU"; "Module"; "IC"].

Definition has_passive_prefix (lib : string) : bool :=
  existsb (fun x => PyStr.startswith lib ("Device:" +:+ x)) ["R"; "C"; "L"].

#[local] Instance category_eq_dec : EqDecision category.
Proof. solve_decision. Defined.

(** The references of one category, in input order. *)
Definition refs_of (c : category) (components : components_t) : list string :=
  keys (List.filter (fun item => bool_decide (classify (lib_of item) = c))
          components).

Definition bucket (c : category) (b : buckets) : list string :=
  match c with
  | Controller => mcus b
  | Passive => passives b
  | Other => others b
  end.

(** Position of slot [i] of a category when there are [n] controllers. *)
Definition slot_position (n : nat) (c : category) (i : nat) : Q * Q :=
  match c with
  | Controller => mcu_position i
  | Passive => passive_position n i
  | Other => other_position n i
  end.

(** [ref] is the [i]-th member of category [c] and the layout gives it the
    [i]-th position of that category. *)
Definition placed_at (components : components_t) (ref : string)
    (c : category) (i : nat) : Prop :=
  bucket c (categorize components) !! i = Some ref /\
  _auto_layout_components components !! ref =
  Some (slot_position (length (mcus (categorize components))) c i).

Definition in_controller_row (components : components_t) (ref : string)
  : Prop := exists i, placed_at components ref Controller i.

Definition in_passive_grid (components : components_t) (ref : string)
  : Prop := exists i, placed_at components ref Passive i.

Definition in_other_column (components : components_t) (ref : string)
  : Prop := exists i, placed_at components ref Other i.

(** ** Runs of the builder *)

(** [keeps P m]: when every event so far satisfies [P], so does every event
    after running [m], whether [m] returns or raises. *)
Definition keeps (P : event -> Prop) {A} (m : M A) : Prop :=
  forall tr, Forall P tr -> Forall P (snd (m tr)).

(** [always_raises m]: [m] ends in an exception from every trace. *)
Definition always_raises {A} (m : M A) : Prop :=
  forall tr, is_ok (fst (m tr)) = false.

(** [succeeds m]: [m] returns normally from every trace. *)
Definition succeeds {A} (m : M A) : Prop :=
  forall tr, is_ok (fst (m tr)) = true.

(** [extends m]: [m] only ever appends to the trace. *)
Definition extends {A} (m : M A) : Prop :=
  forall tr, exists evs, snd (m tr) = tr ++ evs.

(** ** Sample floats *)

(** A resistor with an explicit position. *)
Definition resistor_at (val : string) (pos : float * float)
  : component_spec :=
  mk_spec (Some "Device:R") (Some val) None None (Some pos).

(** Zeros, infinities, NaN, ordinary values, the least subnormals, the
    largest finite value and the two rationals around the overflow
    threshold. *)
Definition float_samples : list float :=
  [S754_zero false; S754_zero true; S754_infinity false; S754_infinity true;
   S754_nan; of_Q 2.54%Q; of_Q 16.51%Q; of_Q 250%Q; of_Q (-100)%Q;
   of_Q (1 # 3)%Q; of_Q (- (2 # 7))%Q; of_Q (2 ^ (-1074))%Q;
   of_Q (3 * 2 ^ (-1074))%Q; of_Q (2 ^ 53 + 1)%Q; of_Q 1e300%Q;
   of_Q 1e-320%Q; of_Q (2 ^ 1024 - 2 ^ 970)%Q;
   of_Q (2 ^ 1024 - 2 ^ 970 - 1)%Q].

Definition float_eqb (x y : float) : bool :=
  match x, y with
  | S754_zero a, S754_zero b | S754_infinity a, S754_infinity b =>
      Bool.eqb a b
  | S754_nan, S754_nan => true
  | S754_finite a m e, S754_finite b n f =>
      Bool.eqb a b && Pos.eqb m n && Z.eqb e f
  | _, _ => false
  end.

(** Two binary operations agree on all pairs of samples. *)
Definition agree (f g : float -> float -> float) : bool :=
  forallb (fun x => forallb (fun y => float_eqb (f x y) (g x y))
                      float_samples) float_samples.

(** ** Grid points *)

(** [k] grid units as Python computes them: [k * 2.54] in binary64. *)
Definition grid_multiple (k : Z) : result float :=
  kf <-r int_to_float k; Ok (ieee_mul kf GRID_SPACING).

(** [x] is the binary64 product of an integer and the grid unit. *)
Definition on_grid (x : float) : Prop :=
  exists k : Z, grid_multiple k = Ok x.


(** The rational that the float 2.54 stands for. *)
Definition grid_q : Q := 2859785763380265 # 1125899906842624.

(** A finite binary64 value. *)
Definition finite64 (x : float) : Prop :=
  is_finite x = true /\ (Qabs (F2Q x) < 2 ^ 1024)%Q.

(** A finite coordinate of magnitude at most 2^40 mm. *)
Definition in_range (x : float) : Prop :=
  is_finite x = true /\ (Qabs (F2Q x) <= 2 ^ 40)%Q.

(** The positions [create_schematic] looks up. *)
Definition positions_of (auto_layout : bool) (components : components_t)
  : positions_t :=
  if auto_layout then _auto_layout_components components else ∅.

(** [pos] is the snap, coordinate by coordinate, of the position selected
    for the component [ref] with [spec]. *)
Definition snapped_to (positions : positions_t) (ref : string)
    (spec : component_spec) (pos : float * float) : Prop :=
  _snap_to_grid (fst (select_position positions ref spec)) GRID_SPACING
  = Ok (fst pos) /\
  _snap_to_grid (snd (select_position positions ref spec)) GRID_SPACING
  = Ok (snd pos).


(** Both coordinates of the position selected for [item] snap without an
    exception. *)
Definition snappable (positions : positions_t)
    (item : string * component_spec) : Prop :=
  let pos := select_position positions (fst item) (snd item) in
  is_ok (_snap_to_grid (fst pos) GRID_SPACING) = true /\
  is_ok (_snap_to_grid (snd pos) GRID_SPACING) = true.

(** Every explicit position of the dict is a pair of finite floats. *)
Definition finite_positions (components : components_t) : Prop :=
  forall ref spec p, (ref, spec) ∈ components -> position spec = Some p ->
    finite64 (fst p) /\ finite64 (snd p).

(** The dict has fewer than 2^32 entries. *)
Definition modest_size {A} (l : list A) : Prop :=
  (Z.of_nat (length l) < 2 ^ 32)%Z.

Definition not_saved (ev : event) : Prop :=
  match ev with
  | EvSave _ => False
  | _ => True
  end.

(** The calls no per-item handler stands behind: creating the output
    directory, creating the schematic object and saving it. *)
Definition essential (ev : event) : Prop :=
  match ev with
  | EvMakedirs _ | EvCreateSchematic _ | EvSave _ => True
  | _ => False
  end.

(** An environment in which the library is installed and the essential
    calls work; everything else may fail at will. *)
Definition dependable (W : world) : Prop :=
  ksa_installed W = true /\
  forall tr ev, essential ev -> reply_unit W tr ev = Ok tt.

(** Every power group is empty or starts with a reference that parses. *)
Definition first_pins_parse (pin_maps : pin_maps_t)
    (groups : list (list string * string)) : Prop :=
  forall group, group ∈ groups ->
    match fst group with
    | [] => True
    | first :: _ => is_ok (_parse_pin_ref first pin_maps) = true
    end.

(** ** Attempts made for a power group *)

(** The adjacent pairs of a list, in order: [[a; b; c]] gives
    [(a, b); (b, c)]. *)
Fixpoint adjacent {A} (l : list A) : list (A * A) :=
  match l with
  | x :: ((y :: _) as rest) => (x, y) :: adjacent rest
  | _ => []
  end.

(** What one label placement attempt leaves in the trace. *)
Inductive label_events (ref pin net_name : string) : list event -> Prop :=
  | label_placed (pos : float * float) :
      label_events ref pin net_name
        [EvGetComponentPinPosition ref pin; EvAddLabel net_name pos]
  | label_refused (pos : float * float) (line : string) :
      label_events ref pin net_name
        [EvGetComponentPinPosition ref pin; EvAddLabel net_name pos;
         EvPrint line]
  | label_no_position (line : string) :
      label_events ref pin net_name
        [EvGetComponentPinPosition ref pin; EvPrint line].

(** What one join attempt on the pair [(src, dst)] leaves in the trace. *)
Inductive join_events (pin_maps : pin_maps_t) (src dst : string)
  : list event -> Prop :=
  | join_unparsed (e : exn) (line : string) :
      parse_pair src dst pin_maps = Raise e ->
      join_events pin_maps src dst [EvPrint line]
  | join_wired (sr sp dr dp : string) :
      parse_pair src dst pin_maps = Ok ((sr, sp), (dr, dp)) ->
      join_events pin_maps src dst [EvAddWireBetweenPins sr sp dr dp]
  | join_refused (sr sp dr dp line : string) :
      parse_pair src dst pin_maps = Ok ((sr, sp), (dr, dp)) ->
      join_events pin_maps src dst
        [EvAddWireBetweenPins sr sp dr dp; EvPrint line].

(** ** Pull-up resistors *)

Definition pullup_resistor (pullup_value : string) : component_spec :=
  mk_spec (Some "Device:R") (Some pullup_value) None None None.

Definition r_ref_of (k : nat) : string := "R" +:+ pretty k.

(** The dict [components] after a pull-up resistor was stored under each of
    [refs], in that order. *)
Definition with_pullups (pullup_value : string) (components : components_t)
    (refs : list string) : components_t :=
  fold_left (fun d r => dict_set d r (pullup_resistor pullup_value))
    refs components.

(** The flagged signal of a pair, when it is a usable name. *)
Definition flagged_signal (i2c_pins : list string) (pair : string * string)
  : option string :=
  match i2c_signal_of i2c_pins pair with
  | Some s => if PyStr.truthy s then Some s else None
  | None => None
  end.

(** The flagged signals of the pairs, in order, with repetitions. *)
Fixpoint flagged_signals (i2c_pins : list string)
    (connections : list (string * string)) : list string :=
  match connections with
  | [] => []
  | conn :: rest =>
      match flagged_signal i2c_pins conn with
      | Some s => s :: flagged_signals i2c_pins rest
      | None => flagged_signals i2c_pins rest
      end
  end.

(** Keep the first occurrence of every name that is not in [seen]. *)
Fixpoint first_occurrences (seen : gset string) (l : list string)
  : list string :=
  match l with
  | [] => []
  | x :: l' =>
      if bool_decide (x ∈ seen) then first_occurrences seen l'
      else x :: first_occurrences ({[x]} ∪ seen) l'
  end.

(** The resistors created while the loop runs from [st], oldest first:
    an iteration created one when it raised [pullup_count]; the entry is
    the signal it was created for and its reference designator. *)
Fixpoint pullup_log (mcu1_name mcu2_name pullup_value : string)
    (i2c_pins : list string) (st : pullup_state)
    (connections : list (string * string)) : list (string * string) :=
  match connections with
  | [] => []
  | conn :: rest =>
      let st' := pullup_step mcu1_name mcu2_name pullup_value i2c_pins st conn in
      (if Nat.eqb (pullup_count st') (pullup_count st) then []
       else [(default "" (i2c_signal_of i2c_pins conn),
              r_ref_of (pullup_count st'))])
      ++ pullup_log mcu1_name mcu2_name pullup_value i2c_pins st' rest
  end.

(** The signal that gets a resistor in this iteration, if any. *)
Definition new_signal (i2c_pins : list string) (st : pullup_state)
    (pair : string * string) : option string :=
  match flagged_signal i2c_pins pair with
  | Some s =>
      if bool_decide (s ∈ processed_i2c_pins st) then None else Some s
  | None => None
  end.

(** ** Sample inputs *)

Definition layout_example : components_t :=
  [("U1", part "MCU_Module:Teensy4.1"); ("R1", resistor "4.7k");
   ("D1", part "Device:LED"); ("D2", part "Device:D")].

Definition divider : components_t :=
  [("R1", resistor "10k"); ("R2", resistor "10k")].

(** ** Runs that return *)

(** [runs m]: [m] returns normally from every trace, having appended to it. *)
Definition runs {A} (m : M A) : Prop :=
  forall tr, exists a evs, m tr = (Ok a, tr ++ evs).

(** ** Distances on the sheet *)

(** Two positions are at least [d] apart in one of the coordinates. *)
Definition apart (d : Q) (p q : Q * Q) : Prop :=
  (fst p + d <= fst q)%Q \/ (fst q + d <= fst p)%Q \/
  (snd p + d <= snd q)%Q \/ (snd q + d <= snd p)%Q.

(** The point of the sheet that a pair of finite floats names. *)
Definition point_of (p : float * float) : Q * Q := (F2Q (fst p), F2Q (snd p)).

(** What [create_schematic] makes of a laid-out position: both coordinates
    snapped, the first one first. *)
Definition snap_laid_out (p : Q * Q) : result (float * float) :=
  x <-r _snap_to_grid (of_Q (fst p)) GRID_SPACING;
  y <-r _snap_to_grid (of_Q (snd p)) GRID_SPACING;
  Ok (x, y).

(** Two controllers that number their SDA pin differently. *)
Definition two_mcus : components_t :=
  [("U1", mk_spec (Some "MCU_Module:Teensy4.1") None
            (Some {[ "SDA" := "18" ]}) None None);
   ("U2", mk_spec (Some "MCU_Module:RP2040-Zero") None
            (Some {[ "SDA" := "4" ]}) None None)].

(** ** Labels of the classifier *)

(** The concatenation the classifier searches. *)
Definition combined_of (src dst : string) : string :=
  PyStr.upper src +:+ PyStr.upper dst.

(** The RS-485 rule applies: one of the trailing pin names is a transceiver
    pin. *)
Definition rs485_rule (src dst : string) : bool :=
  match trailing_pin src (PyStr.upper src),
        trailing_pin dst (PyStr.upper dst) with
  | Ok src_pin, Ok dst_pin =>
      bool_decide (src_pin ∈ rs485_pins) || bool_decide (dst_pin ∈ rs485_pins)
  | _, _ => false
  end.

(** The UART rule applies: TX on one side, RX on the other. *)
Definition uart_rule (src dst : string) : bool :=
  (PyStr.contains "TX" (PyStr.upper src)
   && PyStr.contains "RX" (PyStr.upper dst))
  || (PyStr.contains "RX" (PyStr.upper src)
      && PyStr.contains "TX" (PyStr.upper dst)).

(** The labels of the CAN branch. *)
Definition can_labels : list string :=
  ["CAN High"; "CAN Low"; "CAN TX"; "CAN RX"; "CAN"].

(** The default position (100.0, 100.0), snapped: (99.06, 99.06). *)
Definition default_spot : float * float := (of_Q 99.06%Q, of_Q 99.06%Q).

(** A component of [components] that has no explicit position was added at
    the default spot. *)
Definition stacked (components : components_t) (ev : event) : Prop :=
  match ev with
  | EvComponentsAdd _ ref _ pos _ =>
      forall spec : component_spec,
        (ref, spec) ∈ components -> position spec = None ->
        pos = default_spot
  | _ => True
  end.

(** ** File system and environments *)

Definition is_makedirs (p : string) (ev : event) : bool :=
  match ev with
  | EvMakedirs q => String.eqb p q
  | _ => false
  end.

Definition no_makedirs (ev : event) : Prop :=
  match ev with
  | EvMakedirs _ => False
  | _ => True
  end.

(** A file system that behaves: [os.makedirs] works, a directory that was
    created exists, and a directory that exists stays. *)
Definition faithful_fs (W : world) : Prop :=
  (forall tr p, reply_unit W tr (EvMakedirs p) = Ok tt) /\
  (forall tr p, existsb (is_makedirs p) tr = true ->
                reply_bool W tr (EvPathExists p) = true) /\
  (forall tr evs p, reply_bool W tr (EvPathExists p) = true ->
                    reply_bool W (tr ++ evs) (EvPathExists p) = true).

(** As [Posix.quiet], on a disk where exactly the directories created during
    the run exist. *)
Definition fresh_disk : world :=
  mk_world true Posix.dirname Posix.basename Posix.join
    (fun _ _ => Ok tt)
    (fun _ _ _ => Ok (of_Q 0%Q, of_Q 0%Q))
    (fun tr ev =>
       match ev with
       | EvPathExists p => existsb (is_makedirs p) tr
       | _ => false
       end)
    (fun _ _ => Ok (mk_completed 0 "")).

(** As [Posix.quiet], without the schematic library. *)
Definition no_library : world :=
  mk_world false Posix.dirname Posix.basename Posix.join
    (fun _ _ => Ok tt)
    (fun _ _ _ => Ok (of_Q 0%Q, of_Q 0%Q))
    (fun _ _ => false)
    (fun _ _ => Ok (mk_completed 0 "")).

(** As [Posix.quiet], but the schematic cannot be saved. *)
Definition read_only : world :=
  mk_world true Posix.dirname Posix.basename Posix.join
    (fun _ ev =>
       match ev with
       | EvSave _ => Raise OSError
       | _ => Ok tt
       end)
    (fun _ _ _ => Ok (of_Q 0%Q, of_Q 0%Q))
    (fun _ _ => false)
    (fun _ _ => Ok (mk_completed 0 "")).

(** A line that [create_schematic] prints only after a successful save. *)
Definition after_save_line (line : string) : bool :=
  PyStr.startswith line "Saved: " || PyStr.startswith line "Rendered: "
  || PyStr.startswith line "Documentation: ".

(** Nothing of what follows a successful save has happened: the renderer
    was not run, its output was neither probed nor moved, no file was
    written, and none of the lines "Saved: ...", "Rendered: ..." and
    "Documentation: ..." was printed. *)
Definition nothing_after_save (ev : event) : Prop :=
  match ev with
  | EvSubprocessRun _ | EvWriteFile _ _ | EvMove _ _ | EvRmdir _
  | EvIsfile _ => False
  | EvPrint line => after_save_line line = false
  | _ => True
  end.

(** The line [_render_svg] prints for an exception of the renderer run. *)
Definition render_warning (e : exn) : string :=
  match e with
  | FileNotFoundError =>
      "Warning: kicad-cli not found. Install KiCad 9+ for SVG rendering."
  | TimeoutExpired => "Warning: kicad-cli timed out"
  | _ => "Warning: SVG rendering failed: " +:+ exn_str e
  end.

(** ** Connections of the MCU-pair builder *)

(** The direct connection the builder makes for a pair of pin names. *)
Definition direct_connection (mcu1_name mcu2_name : string)
    (pair : string * string) : string * string :=
  (mcu1_name +:+ "." +:+ fst pair, mcu2_name +:+ "." +:+ snd pair).

(** The connection starts at some pin of component [name]. *)
Definition starts_at (name : string) (conn : string * string) : Prop :=
  exists pin : string, fst conn = name +:+ "." +:+ pin.

(** * Properties *)

(** ** Strings *)

#[local] Arguments String.append !s1 s2 : simpl nomatch.

Section StringFacts.

Import PyStr.

Lemma prefix_app_iff (p s : string) :
  String.prefix p s = true <-> exists rest, s = p +:+ rest.
Proof.
  revert s. induction p as [|c p IH]; intros s; simpl.
  - split; [intros _; exists s; reflexivity | now destruct s].
  - destruct s as [|d s]; simpl.
    + split; [discriminate | intros [rest H]; discriminate].
    + destruct (Ascii.ascii_dec c d) as [->|Hne].
      * rewrite IH. split; intros [rest H]; exists rest.
        -- now rewrite H.
        -- now injection H.
      * split; [discriminate | intros [rest H]; injection H; congruence].
Qed.

Lemma contains_iff (needle hay : string) :
  contains needle hay = true <->
  exists before after, hay = before +:+ needle +:+ after.
Proof.
  induction hay as [|c hay IH]; cbn [contains].
  - rewrite orb_false_r, prefix_app_iff. split.
    + intros [rest H]. exists "", rest. exact H.
    + intros [[|b before] [after H]]; [exists after; exact H | discriminate].
  - rewrite orb_true_iff, prefix_app_iff, IH. split.
    + intros [[rest H] | (before & after & H)].
      * exists "", rest. exact H.
      * exists (String c before), after. simpl. now rewrite H.
    + intros ([|b before] & after & H).
      * left. exists after. exact H.
      * right. exists before, after. simpl in H. now injection H.
Qed.

Lemma string_app_assoc (a b c : string) : (a +:+ b) +:+ c = a +:+ (b +:+ c).
Proof. induction a as [|x a IH]; simpl; [reflexivity | now rewrite IH]. Qed.

Lemma contains_trans (a b c : string) :
  contains a b = true -> contains b c = true -> contains a c = true.
Proof.
  rewrite !contains_iff. intros (p & s & ->) (p' & s' & ->).
  exists (p' +:+ p), (s +:+ s'). now rewrite !string_app_assoc.
Qed.

Lemma upper_app (a b : string) : upper (a +:+ b) = upper a +:+ upper b.
Proof. induction a as [|x a IH]; simpl; [reflexivity | now rewrite IH]. Qed.

Lemma contains_upper (needle hay : string) :
  contains needle hay = true -> contains (upper needle) (upper hay) = true.
Proof.
  rewrite !contains_iff. intros (p & s & ->).
  exists (upper p), (upper s). now rewrite !upper_app.
Qed.

Lemma index_last_split (sep : ascii) (s : string) :
  exists part, index_last (split sep s) = Ok part.
Proof.
  unfold split, index_last. destruct (split_aux sep s) as [h t].
  assert (H : forall (l : list string) (a : string),
             exists part, List.last (List.map Some (a :: l)) None = Some part).
  { induction l as [|b l IH]; intros a; [exists a; reflexivity|].
    destruct (IH b) as [part Hp]. exists part. exact Hp. }
  destruct (H t h) as [part Hp]. exists part. now rewrite Hp.
Qed.

Lemma trailing_pin_total (x x_upper : string) :
  exists pin, trailing_pin x x_upper = Ok pin.
Proof.
  unfold trailing_pin. destruct (contains "." x).
  - destruct (index_last_split "." x) as [part ->]. simpl. eauto.
  - eauto.
Qed.

End StringFacts.

(** ** Signal classifier *)

Example infer_uart : _infer_signal_type "U1.TX1" "U2.RX" = Ok "UART".
Proof. reflexivity. Qed.

Example infer_i2c_data : _infer_signal_type "U1.SDA" "U2.SDA" = Ok "I2C Data".
Proof. reflexivity. Qed.

Example infer_ground : _infer_signal_type "R1.2" "U2.GND" = Ok "Ground".
Proof. reflexivity. Qed.

Example infer_nothing : _infer_signal_type "X.FOO" "Y.BAR" = Ok "".
Proof. reflexivity. Qed.

Lemma infer_canh_combined (src dst : string) :
  PyStr.contains "CANH" (PyStr.upper src +:+ PyStr.upper dst) = true ->
  _infer_signal_type src dst = Ok "CAN High".
Proof.
  intros H. unfold _infer_signal_type.
  assert (Hcan : PyStr.contains "CAN"
                   (PyStr.upper src +:+ PyStr.upper dst) = true).
  { apply contains_trans with (b := "CANH"); [reflexivity | exact H]. }
  rewrite Hcan, H. reflexivity.
Qed.

(** C3: the classifier gives "UART", "I2C Data", "Ground" and the empty
    label on the four listed pairs, and every pair whose concatenation
    contains "CANH" is labelled "CAN High" (never the generic "CAN"). *)
Theorem infer_signal_type_labels :
  _infer_signal_type "U1.TX1" "U2.RX" = Ok "UART" /\
  _infer_signal_type "U1.SDA" "U2.SDA" = Ok "I2C Data" /\
  _infer_signal_type "R1.2" "U2.GND" = Ok "Ground" /\
  _infer_signal_type "X.FOO" "Y.BAR" = Ok "" /\
  forall src dst : string,
    PyStr.contains "CANH" (src +:+ dst) = true ->
    _infer_signal_type src dst = Ok "CAN High".
Proof.
  repeat split; try reflexivity.
  intros src dst H. apply infer_canh_combined.
  rewrite <- upper_app. exact (contains_upper "CANH" _ H).
Qed.

Lemma infer_signal_type_labels_witness :
  _infer_signal_type "U1.CANH" "U2.CANH" = Ok "CAN High".
Proof.
  apply (proj2 (proj2 (proj2 (proj2 infer_signal_type_labels)))).
  vm_compute. reflexivity.
Defined.

(** C9: the classifier is total: on every pair of strings it returns a
    label and raises nothing. *)
Theorem infer_signal_type_total (src dst : string) :
  exists label : string, _infer_signal_type src dst = Ok label.
Proof.
  unfold _infer_signal_type.
  destruct (PyStr.contains "CAN" _).
  - repeat (match goal with
            | |- context [if ?b then _ else _] => destruct b
            end; eauto).
  - destruct (trailing_pin_total src (PyStr.upper src)) as [sp ->].
    destruct (trailing_pin_total dst (PyStr.upper dst)) as [dp ->].
    simpl.
    repeat (match goal with
            | |- context [if ?b then _ else _] => destruct b
            end; eauto).
Qed.

(** ** Pin reference resolver *)

Section SplitFacts.

Import PyStr.

Variable sep : ascii.

Lemma split_aux_length (s : string) :
  length (snd (split_aux sep s)) = count sep s.
Proof.
  induction s as [|c s IH]; simpl; [reflexivity|].
  destruct (split_aux sep s) as [h t]. simpl in IH.
  destruct (Ascii.eqb c sep); simpl; lia.
Qed.

Lemma split_length (s : string) : length (split sep s) = S (count sep s).
Proof.
  unfold split. pose proof (split_aux_length s) as H.
  destruct (split_aux sep s) as [h t]. simpl in *. lia.
Qed.

Lemma split_aux_no_sep (s : string) :
  count sep s = 0 -> split_aux sep s = (s, []).
Proof.
  induction s as [|c s IH]; simpl; [reflexivity|].
  destruct (Ascii.eqb c sep); [discriminate|].
  intros H. now rewrite IH.
Qed.

Lemma split_one_sep (a b : string) :
  count sep a = 0 -> count sep b = 0 ->
  split sep (a +:+ String sep b) = [a; b].
Proof.
  intros Ha Hb. unfold split.
  assert (H : split_aux sep (a +:+ String sep b) = (a, [b])).
  { induction a as [|c a IH]; simpl in *.
    - rewrite Ascii.eqb_refl, (split_aux_no_sep b Hb). reflexivity.
    - destruct (Ascii.eqb c sep); [discriminate|].
      now rewrite (IH Ha). }
  now rewrite H.
Qed.

Lemma count_app (a b : string) :
  count sep (a +:+ b) = count sep a + count sep b.
Proof. induction a as [|c a IH]; simpl; [reflexivity | rewrite IH; lia]. Qed.

End SplitFacts.

Lemma parse_pin_ref_well_formed (a b : string) (pin_maps : pin_maps_t) :
  PyStr.count "." a = 0 -> PyStr.count "." b = 0 ->
  _parse_pin_ref (a +:+ "." +:+ b) pin_maps = Ok (a, resolved_pin pin_maps a b).
Proof.
  intros Ha Hb. unfold _parse_pin_ref, resolved_pin.
  change (a +:+ "." +:+ b) with (a +:+ String "." b).
  rewrite (split_one_sep "." a b Ha Hb). simpl.
  destruct (pin_maps !! a) as [m|]; [|reflexivity].
  destruct (m !! b); reflexivity.
Qed.

Lemma parse_pin_ref_malformed (pin_ref : string) (pin_maps : pin_maps_t) :
  PyStr.count "." pin_ref <> 1 ->
  _parse_pin_ref pin_ref pin_maps =
  Raise (ValueError ("Invalid pin reference: " +:+ pin_ref)).
Proof.
  intros H. unfold _parse_pin_ref.
  rewrite split_length.
  destruct (Nat.eqb_spec (S (PyStr.count "." pin_ref)) 2) as [E|E];
    [lia | reflexivity].
Qed.

(** C4: a pin reference that does not split on '.' into exactly two parts
    raises the format error; a well-formed ["a.b"] resolves to a pair that
    is a function of the string and of the pin-name maps only. *)
Theorem parse_pin_ref_format (pin_ref : string) (pin_maps : pin_maps_t) :
  (PyStr.count "." pin_ref <> 1 ->
   _parse_pin_ref pin_ref pin_maps =
   Raise (ValueError ("Invalid pin reference: " +:+ pin_ref))) /\
  (forall a b : string,
     pin_ref = a +:+ "." +:+ b ->
     PyStr.count "." a = 0 -> PyStr.count "." b = 0 ->
     _parse_pin_ref pin_ref pin_maps = Ok (a, resolved_pin pin_maps a b)).
Proof.
  split.
  - apply parse_pin_ref_malformed.
  - intros a b -> Ha Hb. now apply parse_pin_ref_well_formed.
Qed.

Lemma parse_pin_ref_format_witness :
  _parse_pin_ref "U1" ∅ = Raise (ValueError "Invalid pin reference: U1") /\
  _parse_pin_ref "U1.A.B" ∅ =
    Raise (ValueError "Invalid pin reference: U1.A.B") /\
  _parse_pin_ref "U1.TX1" {[ "U1" := {[ "TX1" := "1" ]} ]} =
    Ok ("U1", resolved_pin {[ "U1" := {[ "TX1" := "1" ]} ]} "U1" "TX1").
Proof.
  split; [|split].
  - apply (proj1 (parse_pin_ref_format "U1" ∅)). simpl. lia.
  - apply (proj1 (parse_pin_ref_format "U1.A.B" ∅)). simpl. lia.
  - apply (proj2 (parse_pin_ref_format "U1.TX1" _) "U1" "TX1");
      reflexivity.
Defined.

(** C5: for a well-formed ["a.b"] where component [a] has no pin-name map,
    or its map has no entry for [b], the resolved pin number is the token
    [b] unchanged. *)
Theorem parse_pin_ref_passthrough (a b : string) (pin_maps : pin_maps_t) :
  PyStr.count "." a = 0 -> PyStr.count "." b = 0 ->
  (pin_maps !! a = None \/
   exists m : gmap string string, pin_maps !! a = Some m /\ m !! b = None) ->
  _parse_pin_ref (a +:+ "." +:+ b) pin_maps = Ok (a, b).
Proof.
  intros Ha Hb Hmap. rewrite (parse_pin_ref_well_formed a b pin_maps Ha Hb).
  unfold resolved_pin. destruct Hmap as [-> | (m & -> & ->)]; reflexivity.
Qed.

Lemma parse_pin_ref_passthrough_witness :
  _parse_pin_ref "R1.2" ∅ = Ok ("R1", "2") /\
  _parse_pin_ref "U1.7" {[ "U1" := {[ "TX1" := "1" ]} ]} = Ok ("U1", "7").
Proof.
  split.
  - apply (parse_pin_ref_passthrough "R1" "2" ∅); [reflexivity..|].
    left. reflexivity.
  - apply (parse_pin_ref_passthrough "U1" "7"); [reflexivity..|].
    right. exists {[ "TX1" := "1" ]}. split; reflexivity.
Defined.

(** ** Auto-layout: categorisation *)

Section Categorize.

Lemma refs_of_cons (c : category) (ref : string) (spec : component_spec)
    (l : components_t) :
  refs_of c ((ref, spec) :: l) =
  if bool_decide (classify (get_or (lib_id spec) "") = c)
  then ref :: refs_of c l else refs_of c l.
Proof.
  unfold refs_of. cbn [List.filter]. unfold lib_of at 1. cbn [snd].
  now destruct (bool_decide _).
Qed.

Lemma categorize_fold (components : components_t) (b : buckets) :
  fold_left categorize_step components b =
  mk_buckets (mcus b ++ refs_of Controller components)
             (passives b ++ refs_of Passive components)
             (others b ++ refs_of Other components).
Proof.
  revert b. induction components as [|[ref spec] l IH]; intros b.
  - simpl. rewrite !app_nil_r. now destruct b.
  - cbn [fold_left]. rewrite IH, !refs_of_cons. unfold categorize_step.
    destruct (classify (get_or (lib_id spec) "")); simpl;
      now rewrite <- ?app_assoc.
Qed.

Lemma categorize_refs (components : components_t) :
  categorize components =
  mk_buckets (refs_of Controller components) (refs_of Passive components)
             (refs_of Other components).
Proof. unfold categorize. now rewrite categorize_fold. Qed.

Lemma elem_of_refs_of (c : category) (components : components_t)
    (ref : string) :
  ref ∈ refs_of c components <->
  exists spec, (ref, spec) ∈ components /\
               classify (get_or (lib_id spec) "") = c.
Proof.
  unfold refs_of, keys. rewrite list_elem_of_In, in_map_iff. split.
  - intros ([r spec] & <- & Hin). apply filter_In in Hin as [Hin Hc].
    apply bool_decide_eq_true in Hc. exists spec.
    split; [now apply list_elem_of_In | exact Hc].
  - intros (spec & Hin & Hc). exists (ref, spec). split; [reflexivity|].
    apply filter_In. split; [now apply list_elem_of_In|].
    now apply bool_decide_eq_true.
Qed.

Lemma buckets_permutation (components : components_t) :
  refs_of Controller components ++ refs_of Passive components
    ++ refs_of Other components ≡ₚ keys components.
Proof.
  induction components as [|[ref spec] l IH]; [reflexivity|].
  rewrite !refs_of_cons. cbn [keys List.map fst]. fold (keys l).
  destruct (classify (get_or (lib_id spec) "")); simpl.
  - now rewrite IH.
  - rewrite <- Permutation_middle. now rewrite IH.
  - rewrite app_assoc, <- Permutation_middle, <- app_assoc. now rewrite IH.
Qed.

Lemma keys_spec_unique (components : components_t) (ref : string)
    (s1 s2 : component_spec) :
  NoDup (keys components) ->
  (ref, s1) ∈ components -> (ref, s2) ∈ components -> s1 = s2.
Proof.
  induction components as [|[r s] l IH]; intros Hnd H1 H2.
  - inversion H1.
  - cbn in Hnd. apply NoDup_cons in Hnd as [Hnotin Hnd].
    assert (Hk : forall s', (ref, s') ∈ l -> ref ∈ keys l).
    { intros s' Hin. unfold keys. apply list_elem_of_In, in_map_iff.
      exists (ref, s'). split; [reflexivity | now apply list_elem_of_In]. }
    apply elem_of_cons in H1 as [E1|H1], H2 as [E2|H2].
    + congruence.
    + injection E1 as -> ->. exfalso. eauto.
    + injection E2 as -> ->. exfalso. eauto.
    + eauto.
Qed.

Lemma refs_of_disjoint (components : components_t) (ref : string)
    (c1 c2 : category) :
  NoDup (keys components) ->
  ref ∈ refs_of c1 components -> ref ∈ refs_of c2 components -> c1 = c2.
Proof.
  intros Hnd (s1 & H1 & <-)%elem_of_refs_of (s2 & H2 & <-)%elem_of_refs_of.
  now rewrite (keys_spec_unique components ref s1 s2 Hnd H1 H2).
Qed.

Lemma buckets_NoDup (components : components_t) :
  NoDup (keys components) ->
  NoDup (refs_of Controller components ++ refs_of Passive components
           ++ refs_of Other components).
Proof. intros H. now rewrite buckets_permutation. Qed.

End Categorize.

(** ** Auto-layout: placement *)

Section Placement.

Variable pos : nat -> Q * Q.

Lemma place_lookup_notin (refs : list string) (i : nat)
    (positions : positions_t) (ref : string) :
  ref ∉ refs -> place pos i refs positions !! ref = positions !! ref.
Proof.
  revert i positions. induction refs as [|r refs IH]; intros i positions H.
  - reflexivity.
  - apply not_elem_of_cons in H as [Hne Hnotin]. simpl.
    rewrite IH by assumption. now rewrite lookup_insert_ne.
Qed.

Lemma place_lookup (refs : list string) (i j : nat)
    (positions : positions_t) (ref : string) :
  NoDup refs -> refs !! j = Some ref ->
  place pos i refs positions !! ref = Some (pos (i + j)).
Proof.
  revert i j positions.
  induction refs as [|r refs IH]; intros i j positions Hnd Hj.
  - discriminate.
  - apply NoDup_cons in Hnd as [Hnotin Hnd]. destruct j as [|j]; simpl in *.
    + injection Hj as ->. rewrite place_lookup_notin by assumption.
      rewrite lookup_insert_eq. now rewrite Nat.add_0_r.
    + rewrite (IH (S i) j) by assumption. f_equal. f_equal. lia.
Qed.

Lemma place_dom (refs : list string) (i : nat) (positions : positions_t) :
  dom (place pos i refs positions) = list_to_set refs ∪ dom positions.
Proof.
  revert i positions. induction refs as [|r refs IH]; intros i positions.
  - simpl. now rewrite (left_id_L ∅ (∪)).
  - simpl. rewrite IH, dom_insert_L.
    rewrite (assoc_L (∪)), (comm_L (∪) (list_to_set refs) {[r]}).
    reflexivity.
Qed.

End Placement.

Lemma bucket_refs (c : category) (components : components_t) :
  bucket c (categorize components) = refs_of c components.
Proof. rewrite categorize_refs. now destruct c. Qed.

Lemma layout_lookup (components : components_t) (c : category) (i : nat)
    (ref : string) :
  NoDup (keys components) ->
  bucket c (categorize components) !! i = Some ref ->
  _auto_layout_components components !! ref =
  Some (slot_position (length (mcus (categorize components))) c i).
Proof.
  intros Hnd Hi. pose proof (buckets_NoDup components Hnd) as Hall.
  apply NoDup_app in Hall as (Hm & _ & Hpo).
  apply NoDup_app in Hpo as (Hp & _ & Ho).
  rewrite bucket_refs in Hi.
  assert (Hin : ref ∈ refs_of c components)
    by (apply list_elem_of_lookup; eauto).
  assert (Hnot : forall c', c' <> c -> ref ∉ refs_of c' components).
  { intros c' Hne Hin'. apply Hne.
    exact (refs_of_disjoint components ref c' c Hnd Hin' Hin). }
  unfold _auto_layout_components. rewrite categorize_refs. cbn [mcus passives others].
  destruct c; cbn [slot_position].
  - rewrite place_lookup_notin by (apply Hnot; discriminate).
    rewrite place_lookup_notin by (apply Hnot; discriminate).
    now rewrite (place_lookup _ _ 0 i) by assumption.
  - rewrite place_lookup_notin by (apply Hnot; discriminate).
    now rewrite (place_lookup _ _ 0 i) by assumption.
  - now rewrite (place_lookup _ _ 0 i) by assumption.
Qed.

Lemma layout_dom (components : components_t) :
  dom (_auto_layout_components components) = list_to_set (keys components).
Proof.
  unfold _auto_layout_components. rewrite !place_dom, dom_empty_L.
  rewrite categorize_refs. cbn [mcus passives others].
  rewrite <- (buckets_permutation components).
  rewrite !list_to_set_app_L, (right_id_L ∅ (∪)).
  rewrite (comm_L (∪) (list_to_set (refs_of Other components))).
  rewrite (comm_L (∪) (list_to_set (refs_of Passive components))).
  now rewrite (assoc_L (∪)).
Qed.

Lemma placed_in_category (components : components_t) (ref : string)
    (spec : component_spec) (c : category) :
  NoDup (keys components) -> (ref, spec) ∈ components ->
  classify (get_or (lib_id spec) "") = c ->
  (exists i, placed_at components ref c i) /\
  (forall c' i', placed_at components ref c' i' -> c' = c).
Proof.
  intros Hnd Hin Hc.
  assert (Href : ref ∈ refs_of c components)
    by (apply elem_of_refs_of; eauto).
  split.
  - apply list_elem_of_lookup in Href as [i Hi]. exists i.
    rewrite <- bucket_refs in Hi. split; [exact Hi|].
    now apply layout_lookup.
  - intros c' i' [Hi' _]. rewrite bucket_refs in Hi'.
    apply (refs_of_disjoint components ref c' c Hnd); [|exact Href].
    apply list_elem_of_lookup. eauto.
Qed.

Lemma contains_marker (lib : string) :
  PyStr.contains "MCU" lib = true -> classify lib = Controller.
Proof. intros H. unfold classify. simpl. now rewrite H. Qed.

Lemma classify_unmarked (lib : string) :
  has_marker lib = false ->
  classify lib = if has_passive_prefix lib then Passive else Other.
Proof.
  unfold has_marker, has_passive_prefix, classify. now intros ->.
Qed.

(** C8, as the code has it: a component whose library identifier contains
    "MCU" is in the controller row and not in the passive grid; a component
    whose identifier starts with "Device:R" and holds none of the controller
    markers "MCU", "Module", "IC" is in the passive grid and not in the
    controller row. *)
Theorem layout_controller_vs_resistor (components : components_t)
    (ref : string) (spec : component_spec) :
  NoDup (keys components) -> (ref, spec) ∈ components ->
  (PyStr.contains "MCU" (get_or (lib_id spec) "") = true ->
   in_controller_row components ref /\ ~ in_passive_grid components ref) /\
  (PyStr.startswith (get_or (lib_id spec) "") "Device:R" = true ->
   has_marker (get_or (lib_id spec) "") = false ->
   in_passive_grid components ref /\ ~ in_controller_row components ref) /\
  (lib_id spec = Some "Device:R" ->
   in_passive_grid components ref /\ ~ in_controller_row components ref).
Proof.
  intros Hnd Hin.
  assert (Hpassive : classify (get_or (lib_id spec) "") = Passive ->
            in_passive_grid components ref /\
            ~ in_controller_row components ref).
  { intros Hc.
    destruct (placed_in_category components ref spec Passive Hnd Hin Hc)
      as [Hex Huniq].
    split; [exact Hex|]. intros [i Hi]. now apply Huniq in Hi. }
  split; [|split].
  - intros Hm.
    destruct (placed_in_category components ref spec Controller Hnd Hin
                (contains_marker _ Hm)) as [Hex Huniq].
    split; [exact Hex|]. intros [i Hi]. now apply Huniq in Hi.
  - intros Hp Hnm. apply Hpassive.
    rewrite (classify_unmarked _ Hnm). unfold has_passive_prefix.
    simpl. now rewrite Hp.
  - intros E. apply Hpassive. now rewrite E.
Qed.

Lemma layout_example_NoDup : NoDup (keys layout_example).
Proof. apply (bool_decide_unpack _). vm_compute. exact I. Defined.

Lemma layout_controller_vs_resistor_witness :
  (in_controller_row layout_example "U1" /\
   ~ in_passive_grid layout_example "U1") /\
  (in_passive_grid layout_example "R1" /\
   ~ in_controller_row layout_example "R1").
Proof.
  split.
  - apply (proj1 (layout_controller_vs_resistor layout_example "U1"
                    (part "MCU_Module:Teensy4.1") layout_example_NoDup
                    ltac:(repeat constructor))).
    reflexivity.
  - apply (proj1 (proj2 (layout_controller_vs_resistor layout_example "R1"
                           (resistor "4.7k") layout_example_NoDup
                           ltac:(repeat constructor))));
      reflexivity.
Defined.

(** C8 as first stated fails: an identifier of the "Device:R" family that
    also holds the marker "IC" goes to the controller row, not to the
    passive grid. *)
Lemma device_r_prefix_in_controller_row :
  PyStr.startswith "Device:R_Network_IC" "Device:R" = true /\
  in_controller_row [("RN1", part "Device:R_Network_IC")] "RN1" /\
  ~ in_passive_grid [("RN1", part "Device:R_Network_IC")] "RN1".
Proof.
  split; [reflexivity|].
  assert (Hnd : NoDup (keys [("RN1", part "Device:R_Network_IC")]))
    by (apply (bool_decide_unpack _); vm_compute; exact I).
  destruct (placed_in_category [("RN1", part "Device:R_Network_IC")] "RN1"
              (part "Device:R_Network_IC") Controller Hnd
              ltac:(repeat constructor) eq_refl) as [Hex Huniq].
  split; [exact Hex|]. intros [i Hi]. now apply Huniq in Hi.
Qed.

(** C10: without a controller marker the passive class is decided by the
    prefixes "Device:R", "Device:C", "Device:L" alone, so "Device:LED",
    "Device:CP" and "Device:R_Potentiometer" are passive and "Device:D" is
    other; the three categories partition the input, and every supplied
    component gets exactly one slot, in the category of its identifier, and
    the position of that slot. *)
Theorem layout_partition (components : components_t) :
  (forall lib : string,
     has_marker lib = false ->
     classify lib = if has_passive_prefix lib then Passive else Other) /\
  classify "Device:LED" = Passive /\
  classify "Device:CP" = Passive /\
  classify "Device:R_Potentiometer" = Passive /\
  classify "Device:D" = Other /\
  mcus (categorize components) ++ passives (categorize components)
    ++ others (categorize components) ≡ₚ keys components /\
  dom (_auto_layout_components components) = list_to_set (keys components) /\
  (NoDup (keys components) ->
   forall (ref : string) (spec : component_spec),
     (ref, spec) ∈ components ->
     exists i : nat,
       placed_at components ref (classify (get_or (lib_id spec) "")) i /\
       forall c' i', placed_at components ref c' i' ->
                     c' = classify (get_or (lib_id spec) "") /\ i' = i).
Proof.
  split; [exact classify_unmarked|].
  do 4 (split; [reflexivity|]).
  split; [rewrite categorize_refs; apply buckets_permutation|].
  split; [apply layout_dom|].
  intros Hnd ref spec Hspec.
  destruct (placed_in_category components ref spec _ Hnd Hspec eq_refl)
    as [[i Hi] Huniq].
  exists i. split; [exact Hi|].
  intros c' i' Hi'. pose proof (Huniq c' i' Hi') as ->. split; [reflexivity|].
  destruct Hi as [Hi _], Hi' as [Hi' _]. rewrite bucket_refs in Hi, Hi'.
  pose proof (buckets_NoDup components Hnd) as Hall.
  assert (Hc : NoDup (refs_of (classify (get_or (lib_id spec) "")) components)).
  { apply NoDup_app in Hall as (Hm & _ & Hpo).
    apply NoDup_app in Hpo as (Hp & _ & Ho).
    now destruct (classify _). }
  exact (NoDup_lookup _ _ _ _ Hc Hi' Hi).
Qed.

Lemma layout_partition_witness :
  classify "Device:Q_NPN_BCE" = Other /\
  exists i : nat,
    placed_at layout_example "D1" Passive i /\
    forall c' i', placed_at layout_example "D1" c' i' ->
                  c' = Passive /\ i' = i.
Proof.
  split.
  - apply (proj1 (layout_partition layout_example) "Device:Q_NPN_BCE").
    reflexivity.
  - apply (proj2 (proj2 (proj2 (proj2 (proj2 (proj2 (proj2
             (layout_partition layout_example))))))) layout_example_NoDup
             "D1" (part "Device:LED")).
    repeat constructor.
Defined.

(** ** Binary64 arithmetic *)

Section FloatFacts.

Local Open Scope Q_scope.

(** *** Powers of two *)

Lemma two_neq_0 : ~ (2 == 0)%Q.
Proof. discriminate. Qed.

Lemma pow2_pos (z : Z) : (0 < 2 ^ z)%Q.
Proof. apply Qpower_0_lt. reflexivity. Qed.

Lemma pow2_plus (a b : Z) : (2 ^ (a + b) == 2 ^ a * 2 ^ b)%Q.
Proof. apply Qpower_plus, two_neq_0. Qed.

Lemma pow2_succ (a : Z) : (2 ^ (a + 1) == 2 * 2 ^ a)%Q.
Proof. rewrite pow2_plus. change (2 ^ 1)%Q with 2%Q. ring. Qed.

Lemma pow2_pred (a : Z) : (2 ^ (a - 1) == 2 ^ a * (1 # 2))%Q.
Proof.
  assert (H := pow2_succ (a - 1)). replace (a - 1 + 1)%Z with a in H by lia.
  rewrite H. ring.
Qed.

Lemma pow2_le (a b : Z) : (a <= b)%Z -> (2 ^ a <= 2 ^ b)%Q.
Proof. intros H. apply Qpower_le_compat_l; [exact H | discriminate]. Qed.

Lemma pow2_lt (a b : Z) : (a < b)%Z -> (2 ^ a < 2 ^ b)%Q.
Proof. intros H. apply Qpower_lt_compat_l; [exact H | reflexivity]. Qed.

Lemma pow2_lt_inv (a b : Z) : (2 ^ a < 2 ^ b)%Q -> (a < b)%Z.
Proof.
  intros H. destruct (Z_lt_le_dec a b) as [L|L]; [exact L|].
  apply pow2_le in L. lra.
Qed.

Lemma log2_bounds (n : Z) :
  (0 < n)%Z ->
  (2 ^ Z.log2 n <= inject_Z n)%Q /\ (inject_Z n < 2 * 2 ^ Z.log2 n)%Q.
Proof.
  intros Hn. destruct (Z.log2_spec n Hn) as [Hlo Hhi].
  pose proof (Z.log2_nonneg n) as H0.
  rewrite <- pow2_succ.
  change 2%Q with (inject_Z 2).
  rewrite <- !Zpower_Qpower by lia.
  rewrite <- Zle_Qle, <- Zlt_Qlt. unfold Z.succ in Hhi. split; assumption.
Qed.

Lemma ilog2_spec (a : Q) :
  (0 < a)%Q -> (2 ^ ilog2 a <= a)%Q /\ (a < 2 ^ (ilog2 a + 1))%Q.
Proof.
  intros Ha. destruct a as [n d].
  assert (Hn : (0 < n)%Z).
  { unfold Qlt in Ha. simpl in Ha. lia. }
  destruct (log2_bounds n Hn) as [N1 N2].
  destruct (log2_bounds (Zpos d) eq_refl) as [D1 D2].
  assert (Ea : (n # d == inject_Z n / inject_Z (Zpos d))%Q)
    by apply Qmake_Qdiv.
  assert (Ec : (2 ^ (Z.log2 n - Z.log2 (Zpos d)) ==
                2 ^ Z.log2 n / 2 ^ Z.log2 (Zpos d))%Q)
    by (apply Qpower_minus, two_neq_0).
  pose proof (pow2_pos (Z.log2 n)) as P1.
  pose proof (pow2_pos (Z.log2 (Zpos d))) as P2.
  assert (HD : (0 < inject_Z (Zpos d))%Q) by reflexivity.
  unfold ilog2. cbn [Qnum Qden].
  set (c := (Z.log2 n - Z.log2 (Zpos d))%Z) in *.
  set (N := inject_Z n) in *. set (D := inject_Z (Zpos d)) in *.
  set (PN := (2 ^ Z.log2 n)%Q) in *. set (PD := (2 ^ Z.log2 (Zpos d))%Q) in *.
  assert (Ea' : ((n # d) * D == N)%Q) by (rewrite Ea; field; lra).
  assert (Ec' : (2 ^ c * PD == PN)%Q) by (rewrite Ec; field; lra).
  pose proof (pow2_pos c) as Pc.
  destruct (Qle_bool (2 ^ c) (n # d)) eqn:E.
  - apply Qle_bool_iff in E. split; [exact E|].
    rewrite pow2_succ.
    set (a := n # d) in *. set (C := (2 ^ c)%Q) in *.
    clearbody a C N D PN PD.
    apply Qnot_le_lt. intros Hc.
    assert (H1 : (2 * C * D <= a * D)%Q)
      by (apply Qmult_le_compat_r; lra).
    assert (H2 : (2 * C * PD <= 2 * C * D)%Q)
      by (rewrite !(Qmult_comm (2 * C)); apply Qmult_le_compat_r; lra).
    lra.
  - assert (E' : (n # d < 2 ^ c)%Q).
    { apply Qnot_le_lt. intros H. apply Qle_bool_iff in H. congruence. }
    replace (c - 1 + 1)%Z with c by lia. split; [|exact E'].
    rewrite pow2_pred.
    set (a := n # d) in *. set (C := (2 ^ c)%Q) in *.
    clearbody a C N D PN PD. clear Ea Ec.
    apply Qnot_lt_le. intros Hc.
    assert (H1 : (a * D <= C * (1 # 2) * D)%Q)
      by (apply Qmult_le_compat_r; lra).
    assert (H2 : (C * D < C * (2 * PD))%Q)
      by (rewrite !(Qmult_comm C); apply Qmult_lt_compat_r; lra).
    lra.
Qed.

(** *** Rounding to an integer *)

Lemma round_half_even_near (q : Q) :
  (inject_Z (round_half_even q) - q <= 1 # 2)%Q /\
  (q - inject_Z (round_half_even q) <= 1 # 2)%Q.
Proof.
  unfold round_half_even.
  pose proof (Qfloor_le q) as Hle. pose proof (Qlt_floor q) as Hlt.
  rewrite inject_Z_plus in Hlt. change (inject_Z 1) with 1%Q in Hlt.
  destruct (Qcompare_spec (q - inject_Z (Qfloor q)) (1 # 2)) as [E|E|E].
  - destruct (Z.even (Qfloor q)).
    + split; lra.
    + rewrite inject_Z_plus. change (inject_Z 1) with 1%Q. split; lra.
  - split; lra.
  - rewrite inject_Z_plus. change (inject_Z 1) with 1%Q. split; lra.
Qed.

Lemma inject_Z_lt_1 (m k : Z) :
  (inject_Z m < inject_Z k + 1)%Q -> (m <= k)%Z.
Proof.
  intros H. change 1%Q with (inject_Z 1) in H.
  rewrite <- inject_Z_plus, <- Zlt_Qlt in H. lia.
Qed.

Lemma round_half_even_unique (q : Q) (k : Z) :
  (q - inject_Z k < 1 # 2)%Q -> (inject_Z k - q < 1 # 2)%Q ->
  round_half_even q = k.
Proof.
  intros H1 H2. destruct (round_half_even_near q) as [N1 N2].
  apply Z.le_antisymm; apply inject_Z_lt_1; lra.
Qed.

(** *** Rounding to binary64 *)

Lemma of_Q_zero (q : Q) : (q == 0)%Q -> of_Q q = S754_zero false.
Proof.
  intros H. unfold of_Q. unfold Qeq in H. simpl in H.
  replace (Qnum q) with 0%Z by lia. reflexivity.
Qed.

Lemma pack_spec (neg : bool) (m e : Z) :
  (0 <= m <= 2 ^ 53)%Z -> (e <= 970)%Z ->
  is_finite (pack neg m e) = true /\
  (F2Q (pack neg m e) ==
   if neg then - (inject_Z m * 2 ^ e) else inject_Z m * 2 ^ e)%Q.
Proof.
  intros Hm He. unfold pack.
  destruct (Z.eqb_spec m (2 ^ 53)) as [E|E].
  - subst m. change (2 ^ 52)%Z with (Zpos (2 ^ 52)). cbv iota beta.
    destruct (Z.ltb_spec 971 (e + 1)) as [Hov|Hov]; [lia|].
    split; [reflexivity|]. cbn [F2Q].
    change (inject_Z (Zpos (2 ^ 52))) with (2 ^ 52)%Q.
    change (inject_Z (2 ^ 53)) with (2 * 2 ^ 52)%Q.
    destruct neg; rewrite pow2_succ; ring.
  - destruct m as [|p|p]; [| |lia].
    + split; [reflexivity|]. cbn [F2Q]. change (inject_Z 0) with 0%Q.
      destruct neg; ring.
    + destruct (Z.ltb_spec 971 e) as [Hov|Hov]; [lia|].
      split; [reflexivity|]. cbn [F2Q]. destruct neg; reflexivity.
Qed.

Lemma of_Q_spec (q : Q) (L : Z) :
  ~ (q == 0)%Q -> (Qabs q < 2 ^ (L + 1))%Q -> (-1022 <= L <= 1022)%Z ->
  is_finite (of_Q q) = true /\
  (Qabs (F2Q (of_Q q) - q) <= 2 ^ (L - 53))%Q.
Proof.
  intros Hq Ha HL.
  assert (Hpos : (0 < Qabs q)%Q).
  { destruct (Qlt_le_dec 0 (Qabs q)) as [H|H]; [exact H|].
    exfalso. apply Hq. pose proof (Qabs_nonneg q).
    assert (E : (Qabs q == 0)%Q) by lra.
    destruct (Qabs_Qle_condition q 0) as [H1 _].
    assert (H2 : (Qabs q <= 0)%Q) by lra. specialize (H1 H2). lra. }
  destruct (ilog2_spec (Qabs q) Hpos) as [I1 I2].
  set (a := Qabs q) in *. set (l := ilog2 a) in *.
  assert (Hl : (l <= L)%Z).
  { assert (H : (2 ^ l < 2 ^ (L + 1))%Q) by lra. apply pow2_lt_inv in H. lia. }
  set (e := Z.max (l - 52) (-1074)).
  assert (He : (l - 52 <= e /\ e <= L - 52)%Z) by lia.
  pose proof (pow2_pos e) as Pe.
  set (t := (a / 2 ^ e)%Q).
  assert (Et : (t * 2 ^ e == a)%Q) by (unfold t; field; lra).
  assert (Ht : (t < 2 ^ 53)%Q).
  { assert (H : (2 ^ (l + 1) <= 2 ^ (e + 53))%Q) by (apply pow2_le; lia).
    rewrite (pow2_plus e 53) in H.
    apply Qnot_le_lt. intros Hc.
    assert (H' : (2 ^ 53 * 2 ^ e <= t * 2 ^ e)%Q)
      by (apply Qmult_le_compat_r; lra).
    clearbody t e l a. lra. }
  assert (Ht0 : (0 < t)%Q).
  { apply Qnot_le_lt. intros Hc.
    assert (H' : (t * 2 ^ e <= 0 * 2 ^ e)%Q)
      by (apply Qmult_le_compat_r; lra).
    clearbody t e l a. lra. }
  destruct (round_half_even_near t) as [N1 N2].
  set (m := round_half_even t) in *.
  assert (Hm : (0 <= m <= 2 ^ 53)%Z).
  { split.
    - apply Z.opp_le_mono. apply inject_Z_lt_1.
      change (- 0)%Z with 0%Z. rewrite inject_Z_opp.
      change (inject_Z 0) with 0%Q. lra.
    - apply inject_Z_lt_1.
      change (inject_Z (2 ^ 53)) with (2 ^ 53)%Q. lra. }
  assert (Herr : (Qabs (inject_Z m * 2 ^ e - a) <= 2 ^ (L - 53))%Q).
  { assert (E : (inject_Z m * 2 ^ e - a == (inject_Z m - t) * 2 ^ e)%Q)
      by (rewrite <- Et; ring).
    rewrite E, Qabs_Qmult, (Qabs_pos (2 ^ e)) by lra.
    assert (Hm' : (Qabs (inject_Z m - t) <= 1 # 2)%Q)
      by (apply Qabs_Qle_condition; split; lra).
    assert (H1 : (Qabs (inject_Z m - t) * 2 ^ e <= (1 # 2) * 2 ^ e)%Q)
      by (apply Qmult_le_compat_r; lra).
    assert (H2 : (2 ^ (e - 1) <= 2 ^ (L - 53))%Q) by (apply pow2_le; lia).
    rewrite pow2_pred in H2. lra. }
  assert (Hn : Qnum q <> 0%Z).
  { intros Hn. apply Hq. unfold Qeq. simpl. lia. }
  assert (Eof : of_Q q = pack (Qnum q <? 0)%Z m e).
  { unfold of_Q. destruct (Qnum q); [congruence|reflexivity..]. }
  destruct (pack_spec (Qnum q <? 0)%Z m e Hm ltac:(lia)) as [Hfin Hr].
  rewrite Eof. split; [exact Hfin|].
  rewrite Hr.
  destruct (Z.ltb_spec (Qnum q) 0) as [Hs|Hs].
  - assert (Eq : (a == - q)%Q).
    { unfold a. apply Qabs_neg. unfold Qle. simpl. lia. }
    assert (E : (- (inject_Z m * 2 ^ e) - q == - (inject_Z m * 2 ^ e - a))%Q)
      by (rewrite Eq; ring).
    rewrite E, Qabs_opp. exact Herr.
  - assert (Eq : (a == q)%Q).
    { unfold a. apply Qabs_pos. unfold Qle. simpl. lia. }
    rewrite <- Eq. exact Herr.
Qed.

Lemma of_Q_near (q : Q) (B : Z) :
  (-1022 <= B <= 1022)%Z -> (Qabs q < 2 ^ (B + 1))%Q ->
  is_finite (of_Q q) = true /\
  (Qabs (F2Q (of_Q q) - q) <= 2 ^ (B - 53))%Q.
Proof.
  intros HB Hq. destruct (Qeq_dec q 0) as [E|E].
  - rewrite (of_Q_zero q E). split; [reflexivity|]. cbn [F2Q].
    pose proof (pow2_pos (B - 53)).
    assert (E' : (0 - q == 0)%Q) by (rewrite E; ring).
    rewrite E'. change (Qabs 0) with 0%Q. lra.
  - apply of_Q_spec; assumption.
Qed.

Lemma grid_spacing_value :
  GRID_SPACING = S754_finite false 5719571526760530 (-51).
Proof. vm_compute. reflexivity. Qed.

Lemma F2Q_grid : (F2Q GRID_SPACING == grid_q)%Q.
Proof. rewrite grid_spacing_value. reflexivity. Qed.

Lemma is_finite_zero (x : float) :
  is_finite x = true -> (F2Q x == 0)%Q \/ exists s m e, x = S754_finite s m e.
Proof.
  destruct x as [s|s| |s m e]; try discriminate; intros _.
  - left. reflexivity.
  - right. now exists s, m, e.
Qed.

Lemma F2Q_finite_nonzero (s : bool) (m : positive) (e : Z) :
  ~ (F2Q (S754_finite s m e) == 0)%Q.
Proof.
  cbn [F2Q]. pose proof (pow2_pos e) as P.
  assert (H : (0 < inject_Z (Zpos m) * 2 ^ e)%Q).
  { apply Qmult_lt_0_compat; [reflexivity | exact P]. }
  destruct s; lra.
Qed.

Lemma ieee_div_near (x y : float) (B : Z) :
  is_finite x = true -> is_finite y = true -> ~ (F2Q y == 0)%Q ->
  (-1022 <= B <= 1022)%Z -> (Qabs (F2Q x / F2Q y) < 2 ^ (B + 1))%Q ->
  py_div x y = Ok (ieee_div x y) /\
  is_finite (ieee_div x y) = true /\
  (Qabs (F2Q (ieee_div x y) - F2Q x / F2Q y) <= 2 ^ (B - 53))%Q.
Proof.
  intros Hx Hy Hy0 HB Hq.
  destruct y as [sy|sy| |sy my ey]; try discriminate.
  { exfalso. apply Hy0. reflexivity. }
  split; [reflexivity|].
  destruct x as [sx|sx| |sx mx ex]; try discriminate.
  - split; [reflexivity|]. cbn [ieee_div F2Q].
    pose proof (pow2_pos (B - 53)).
    set (d := (if sy then _ else _)%Q).
    assert (E : (0 - 0 / d == 0)%Q) by (unfold Qdiv; ring).
    rewrite E. change (Qabs 0) with 0%Q. lra.
  - cbn [ieee_div]. apply of_Q_near; assumption.
Qed.

Lemma ieee_mul_near (x y : float) (B : Z) :
  is_finite x = true -> is_finite y = true ->
  (-1022 <= B <= 1022)%Z -> (Qabs (F2Q x * F2Q y) < 2 ^ (B + 1))%Q ->
  is_finite (ieee_mul x y) = true /\
  (Qabs (F2Q (ieee_mul x y) - F2Q x * F2Q y) <= 2 ^ (B - 53))%Q.
Proof.
  intros Hx Hy HB Hq. pose proof (pow2_pos (B - 53)).
  destruct x as [sx|sx| |sx mx ex]; try discriminate;
    destruct y as [sy|sy| |sy my ey]; try discriminate.
  - split; [reflexivity|]. cbn [ieee_mul F2Q].
    assert (E : (0 - 0 * 0 == 0)%Q) by ring.
    rewrite E. change (Qabs 0) with 0%Q. lra.
  - split; [reflexivity|]. cbn [ieee_mul F2Q].
    set (d := (if sy then _ else _)%Q).
    assert (E : (0 - 0 * d == 0)%Q) by ring.
    rewrite E. change (Qabs 0) with 0%Q. lra.
  - split; [reflexivity|]. cbn [ieee_mul F2Q].
    set (d := (if sx then _ else _)%Q).
    assert (E : (0 - d * 0 == 0)%Q) by ring.
    rewrite E. change (Qabs 0) with 0%Q. lra.
  - cbn [ieee_mul]. apply of_Q_near; assumption.
Qed.

Lemma int_to_float_near (k : Z) (B : Z) :
  (-1022 <= B <= 1022)%Z -> (Qabs (inject_Z k) < 2 ^ (B + 1))%Q ->
  exists f, int_to_float k = Ok f /\ is_finite f = true /\
            (Qabs (F2Q f - inject_Z k) <= 2 ^ (B - 53))%Q.
Proof.
  intros HB Hk. destruct (of_Q_near (inject_Z k) B HB Hk) as [Hf He].
  exists (of_Q (inject_Z k)). split; [|split; assumption].
  unfold int_to_float. destruct (of_Q (inject_Z k)); try reflexivity.
  discriminate.
Qed.

Lemma py_round_finite (x : float) :
  is_finite x = true -> py_round x = Ok (round_half_even (F2Q x)).
Proof. destruct x; try discriminate; reflexivity. Qed.

Lemma Qabs_le (x y : Q) : (- y <= x)%Q -> (x <= y)%Q -> (Qabs x <= y)%Q.
Proof. intros H1 H2. apply Qabs_Qle_condition. split; assumption. Qed.

Lemma Qabs_le_inv (x y : Q) : (Qabs x <= y)%Q -> (- y <= x)%Q /\ (x <= y)%Q.
Proof. intros H. now apply Qabs_Qle_condition. Qed.

Lemma Qabs_lt (x y : Q) : (- y < x)%Q -> (x < y)%Q -> (Qabs x < y)%Q.
Proof. intros H1 H2. apply Qabs_Qlt_condition. split; assumption. Qed.

Lemma Qabs_lt_inv (x y : Q) : (Qabs x < y)%Q -> (- y < x)%Q /\ (x < y)%Q.
Proof. intros H. now apply Qabs_Qlt_condition. Qed.

Lemma grid_not_zero : ~ (F2Q GRID_SPACING == 0)%Q.
Proof. rewrite F2Q_grid. discriminate. Qed.

Lemma grid_finite : is_finite GRID_SPACING = true.
Proof. reflexivity. Qed.

Lemma snap_spec (v : float) :
  is_finite v = true -> (Qabs (F2Q v) <= 2 ^ 40)%Q ->
  exists (k : Z) (s : float),
    _snap_to_grid v GRID_SPACING = Ok s /\
    grid_multiple k = Ok s /\
    is_finite s = true /\
    (Qabs (inject_Z k) <= 2 ^ 40)%Q /\
    (Qabs (inject_Z k * grid_q - F2Q v) <= 12702 # 10000)%Q /\
    (Qabs (F2Q s - inject_Z k * grid_q) <= 1 # 1000)%Q.
Proof.
  intros Hv Hr.
  set (t := (F2Q v / F2Q GRID_SPACING)%Q).
  assert (Et : (t * grid_q == F2Q v)%Q).
  { unfold t. rewrite F2Q_grid. field. discriminate. }
  apply Qabs_le_inv in Hr. change (2 ^ 40)%Q with 1099511627776%Q in Hr.
  assert (Ht : (Qabs t < 2 ^ (39 + 1))%Q).
  { change (2 ^ (39 + 1))%Q with 1099511627776%Q. clearbody t.
    unfold grid_q in Et. apply Qabs_lt; lra. }
  destruct (ieee_div_near v GRID_SPACING 39 Hv grid_finite grid_not_zero
              ltac:(lia) Ht) as (Ed & Hd & Hde).
  fold t in Hde. set (d := ieee_div v GRID_SPACING) in *.
  pose proof (py_round_finite d Hd) as Ek.
  destruct (round_half_even_near (F2Q d)) as [K1 K2].
  set (k := round_half_even (F2Q d)) in *.
  apply Qabs_lt_inv in Ht. apply Qabs_le_inv in Hde.
  change (2 ^ (39 + 1))%Q with 1099511627776%Q in Ht.
  change (2 ^ (39 - 53))%Q with (1 # 16384)%Q in Hde.
  assert (Hk : (Qabs (inject_Z k) < 2 ^ (40 + 1))%Q).
  { change (2 ^ (40 + 1))%Q with 2199023255552%Q. clearbody t k.
    apply Qabs_lt; lra. }
  destruct (int_to_float_near k 40 ltac:(lia) Hk) as (f & Ef & Hf & Hfe).
  clear Hk. apply Qabs_le_inv in Hfe.
  change (2 ^ (40 - 53))%Q with (1 # 8192)%Q in Hfe.
  assert (Hp : (Qabs (F2Q f * F2Q GRID_SPACING) < 2 ^ (42 + 1))%Q).
  { rewrite F2Q_grid. change (2 ^ (42 + 1))%Q with 8796093022208%Q.
    unfold grid_q. clearbody t k. apply Qabs_lt; lra. }
  destruct (ieee_mul_near f GRID_SPACING 42 Hf grid_finite ltac:(lia) Hp)
    as (Hs & Hse).
  rewrite F2Q_grid in Hse. apply Qabs_le_inv in Hse.
  change (2 ^ (42 - 53))%Q with (1 # 2048)%Q in Hse.
  exists k, (ieee_mul f GRID_SPACING).
  split; [|split; [|split; [exact Hs|split; [|split]]]].
  - unfold _snap_to_grid. rewrite Ed. cbn [rbind]. rewrite Ek. cbn [rbind].
    rewrite Ef. reflexivity.
  - unfold grid_multiple. rewrite Ef. reflexivity.
  - change (2 ^ 40)%Q with 1099511627776%Q. clearbody t k.
    unfold grid_q in *. apply Qabs_le; lra.
  - clearbody t k. unfold grid_q in *. apply Qabs_le; lra.
  - clearbody t k. unfold grid_q in *. apply Qabs_le; lra.
Qed.

Lemma snap_fixes (k : Z) (s : float) :
  grid_multiple k = Ok s -> is_finite s = true ->
  (Qabs (inject_Z k) <= 2 ^ 40)%Q ->
  (Qabs (F2Q s - inject_Z k * grid_q) <= 1 # 1000)%Q ->
  _snap_to_grid s GRID_SPACING = Ok s.
Proof.
  intros Eg Hs Hk Hse.
  set (t := (F2Q s / F2Q GRID_SPACING)%Q).
  assert (Et : (t * grid_q == F2Q s)%Q).
  { unfold t. rewrite F2Q_grid. field. discriminate. }
  apply Qabs_le_inv in Hk, Hse. change (2 ^ 40)%Q with 1099511627776%Q in Hk.
  assert (Ht : (Qabs t < 2 ^ (41 + 1))%Q).
  { change (2 ^ (41 + 1))%Q with 4398046511104%Q. clearbody t.
    unfold grid_q in *. apply Qabs_lt; lra. }
  destruct (ieee_div_near s GRID_SPACING 41 Hs grid_finite grid_not_zero
              ltac:(lia) Ht) as (Ed & Hd & Hde).
  fold t in Hde. set (d := ieee_div s GRID_SPACING) in *.
  apply Qabs_le_inv in Hde.
  change (2 ^ (41 - 53))%Q with (1 # 4096)%Q in Hde.
  assert (Ek : round_half_even (F2Q d) = k).
  { clearbody t. unfold grid_q in *.
    apply round_half_even_unique; lra. }
  unfold _snap_to_grid. rewrite Ed. cbn [rbind].
  rewrite (py_round_finite d Hd), Ek. cbn [rbind]. exact Eg.
Qed.

Lemma snap_never_raises (v : float) :
  finite64 v -> is_ok (_snap_to_grid v GRID_SPACING) = true.
Proof.
  intros [Hv Hr].
  set (t := (F2Q v / F2Q GRID_SPACING)%Q).
  assert (Et : (t * grid_q == F2Q v)%Q).
  { unfold t. rewrite F2Q_grid. field. discriminate. }
  pose proof (pow2_succ 1023) as P. change (1023 + 1)%Z with 1024%Z in P.
  pose proof (pow2_pos 969) as P2.
  pose proof (pow2_le 970 1023 ltac:(lia)) as P3.
  pose proof (pow2_succ 969) as P4. change (969 + 1)%Z with 970%Z in P4.
  pose proof (pow2_le 0 969 ltac:(lia)) as P5. change (2 ^ 0)%Q with 1%Q in P5.
  apply Qabs_lt_inv in Hr.
  assert (Ht : (Qabs t < 2 ^ (1022 + 1))%Q).
  { change (1022 + 1)%Z with 1023%Z. clearbody t. unfold grid_q in Et.
    apply Qabs_lt; lra. }
  destruct (ieee_div_near v GRID_SPACING 1022 Hv grid_finite grid_not_zero
              ltac:(lia) Ht) as (Ed & Hd & Hde).
  fold t in Hde. set (d := ieee_div v GRID_SPACING) in *.
  change (1022 - 53)%Z with 969%Z in Hde.
  destruct (round_half_even_near (F2Q d)) as [K1 K2].
  apply Qabs_le_inv in Hde.
  assert (Hk : (Qabs (inject_Z (round_half_even (F2Q d))) < 2 ^ (1022 + 1))%Q).
  { change (1022 + 1)%Z with 1023%Z. clearbody t. unfold grid_q in Et.
    set (k := inject_Z _) in *. clearbody k.
    apply Qabs_lt; lra. }
  destruct (int_to_float_near _ 1022 ltac:(lia) Hk) as (f & Ef & _).
  unfold _snap_to_grid. rewrite Ed. cbn [rbind].
  rewrite (py_round_finite d Hd). cbn [rbind]. rewrite Ef. reflexivity.
Qed.

End FloatFacts.

(** On the samples the three operations are those of the Standard Library's
    reference implementation of binary64, and [of_Q] returns canonical
    binary64 values. *)
Example ieee_operations_agree :
  agree ieee_mul (SFmul 53 1024) = true /\
  agree ieee_div (SFdiv 53 1024) = true /\
  agree ieee_add (SFadd 53 1024) = true /\
  forallb (valid_binary 53 1024) float_samples = true.
Proof. vm_compute. repeat split. Qed.

(** ** Trace invariants of the builder monad *)

Section MonadFacts.

Context {A B : Type}.
Variable P : event -> Prop.

Lemma keeps_ret (a : A) : keeps P (ret a).
Proof. intros tr H. exact H. Qed.

Lemma keeps_raise (e : exn) : keeps P (@raise A e).
Proof. intros tr H. exact H. Qed.

Lemma keeps_lift (r : result A) : keeps P (lift r).
Proof. intros tr H. exact H. Qed.

Lemma keeps_bind (m : M A) (k : A -> M B) :
  keeps P m -> (forall a, keeps P (k a)) -> keeps P (bind m k).
Proof.
  intros Hm Hk tr H. unfold bind. specialize (Hm tr H).
  destruct (m tr) as [[a|e] tr']; simpl in *; [now apply Hk | exact Hm].
Qed.

Lemma keeps_bind_lift (r : result A) (k : A -> M B) :
  (forall a, r = Ok a -> keeps P (k a)) -> keeps P (bind (lift r) k).
Proof.
  intros Hk tr H. unfold bind, lift.
  destruct r as [a|e]; simpl; [now apply (Hk a) | exact H].
Qed.

Lemma keeps_bind_raises (m : M A) (k : A -> M B) :
  keeps P m -> always_raises m -> keeps P (bind m k).
Proof.
  intros Hm Hr tr H. unfold bind. specialize (Hm tr H). specialize (Hr tr).
  destruct (m tr) as [[a|e] tr']; simpl in *; [discriminate | exact Hm].
Qed.

Lemma keeps_try_except (m : M A) (h : exn -> M A) :
  keeps P m -> (forall e, keeps P (h e)) -> keeps P (try_except m h).
Proof.
  intros Hm Hh tr H. unfold try_except. specialize (Hm tr H).
  destruct (m tr) as [[a|e] tr']; simpl in *; [exact Hm | now apply Hh].
Qed.

Lemma always_raises_bind (m : M A) (k : A -> M B) :
  (forall a, always_raises (k a)) -> always_raises (bind m k).
Proof.
  intros Hk tr. unfold bind. destruct (m tr) as [[a|e] tr']; [apply Hk|].
  reflexivity.
Qed.

Lemma always_raises_bind_l (m : M A) (k : A -> M B) :
  always_raises m -> always_raises (bind m k).
Proof.
  intros Hm tr. unfold bind. specialize (Hm tr).
  destruct (m tr) as [[a|e] tr']; [discriminate | reflexivity].
Qed.

Lemma succeeds_ret (a : A) : succeeds (ret a).
Proof. intros tr. reflexivity. Qed.

Lemma succeeds_bind (m : M A) (k : A -> M B) :
  succeeds m -> (forall a, succeeds (k a)) -> succeeds (bind m k).
Proof.
  intros Hm Hk tr. unfold bind. specialize (Hm tr).
  destruct (m tr) as [[a|e] tr']; [apply Hk | discriminate].
Qed.

Lemma succeeds_bind_lift (r : result A) (k : A -> M B) :
  is_ok r = true -> (forall a, r = Ok a -> succeeds (k a)) ->
  succeeds (bind (lift r) k).
Proof.
  intros Hr Hk tr. unfold bind, lift.
  destruct r as [a|e]; [now apply (Hk a) | discriminate].
Qed.

Lemma succeeds_try_except (m : M A) (h : exn -> M A) :
  (forall e, succeeds (h e)) -> succeeds (try_except m h).
Proof.
  intros Hh tr. unfold try_except.
  destruct (m tr) as [[a|e] tr']; [reflexivity | apply Hh].
Qed.

End MonadFacts.

Lemma keeps_for_each {A} (P : event -> Prop) (l : list A)
    (body : A -> M unit) :
  (forall x, x ∈ l -> keeps P (body x)) -> keeps P (for_each l body).
Proof.
  induction l as [|x l IH]; intros Hb; [exact (keeps_ret P tt)|].
  simpl. apply keeps_bind.
  - apply Hb. now left.
  - intros _. apply IH. intros y Hy. apply Hb. now right.
Qed.

Lemma succeeds_for_each {A} (l : list A) (body : A -> M unit) :
  (forall x, x ∈ l -> succeeds (body x)) -> succeeds (for_each l body).
Proof.
  induction l as [|x l IH]; intros Hb; [exact (succeeds_ret tt)|].
  simpl. apply succeeds_bind.
  - apply Hb. now left.
  - intros _. apply IH. intros y Hy. apply Hb. now right.
Qed.

Lemma keeps_print (P : event -> Prop) (line : string) :
  P (EvPrint line) -> keeps P (print line).
Proof.
  intros Hp tr H. unfold print. simpl. apply Forall_app. split; [exact H|].
  now constructor.
Qed.

Lemma succeeds_print (line : string) : succeeds (print line).
Proof. intros tr. reflexivity. Qed.

Section CallFacts.

Variable W : world.
Variable P : event -> Prop.

Lemma keeps_call (ev : event) : P ev -> keeps P (call W ev).
Proof.
  intros Hp tr H. unfold call. simpl. apply Forall_app. split; [exact H|].
  now constructor.
Qed.

Lemma keeps_probe (ev : event) : P ev -> keeps P (probe W ev).
Proof.
  intros Hp tr H. unfold probe. simpl. apply Forall_app. split; [exact H|].
  now constructor.
Qed.

Lemma keeps_get_component_pin_position (ref pin : string) :
  P (EvGetComponentPinPosition ref pin) ->
  keeps P (get_component_pin_position W ref pin).
Proof.
  intros Hp tr H. unfold get_component_pin_position. simpl.
  apply Forall_app. split; [exact H|]. now constructor.
Qed.

Lemma keeps_subprocess_run (args : list string) :
  P (EvSubprocessRun args) -> keeps P (subprocess_run W args).
Proof.
  intros Hp tr H. unfold subprocess_run. simpl.
  apply Forall_app. split; [exact H|]. now constructor.
Qed.

Lemma succeeds_probe (ev : event) : succeeds (probe W ev).
Proof. intros tr. reflexivity. Qed.

End CallFacts.

(** One step of a [keeps] proof: peel the outermost monadic construct. *)
Ltac keeps_step :=
  lazymatch goal with
  | |- keeps _ (bind (lift _) _) => apply keeps_bind_lift; intros ? ?
  | |- keeps _ (bind _ _) => apply keeps_bind; [|intros ?]
  | |- keeps _ (ret _) => apply keeps_ret
  | |- keeps _ (raise _) => apply keeps_raise
  | |- keeps _ (lift _) => apply keeps_lift
  | |- keeps _ (try_except _ _) => apply keeps_try_except; [|intros ?]
  | |- keeps _ (for_each _ _) => apply keeps_for_each; intros ? ?
  | |- keeps _ (print _) => apply keeps_print
  | |- keeps _ (call _ _) => apply keeps_call
  | |- keeps _ (probe _ _) => apply keeps_probe
  | |- keeps _ (get_component_pin_position _ _ _) =>
      apply keeps_get_component_pin_position
  | |- keeps _ (subprocess_run _ _) => apply keeps_subprocess_run
  | |- keeps _ (if ?b then _ else _) => destruct b
  | |- keeps _ (match ?x with _ => _ end) => destruct x
  end.

Ltac keeps_open :=
  lazymatch goal with
  | |- keeps _ (_ensure_ksa _) => unfold _ensure_ksa
  | |- keeps _ (_get_output_path _ _ _) => unfold _get_output_path
  | |- keeps _ (_add_power_net _ _ _ _) => unfold _add_power_net
  | |- keeps _ (label_attempt _ _ _ _) => unfold label_attempt
  | |- keeps _ (join_attempt _ _ _ _) => unfold join_attempt
  | |- keeps _ (_render_svg _ _) => unfold _render_svg
  | |- keeps _ (_generate_connection_md _ _ _ _ _ _) =>
      unfold _generate_connection_md
  | |- keeps _ (add_component _ _ _) => unfold add_component
  | |- keeps _ (add_connection _ _ _) => unfold add_connection
  | |- _ => keeps_step
  end.

(** ** Placement on the grid *)

Lemma snap_on_grid (v s : float) :
  _snap_to_grid v GRID_SPACING = Ok s -> on_grid s.
Proof.
  unfold _snap_to_grid.
  destruct (py_div v GRID_SPACING) as [q|e]; [|discriminate].
  cbn [rbind]. destruct (py_round q) as [k|e]; [|discriminate].
  cbn [rbind]. intros H. exists k. exact H.
Qed.

Lemma snap_idempotent (v : float) :
  in_range v ->
  exists s : float,
    _snap_to_grid v GRID_SPACING = Ok s /\
    _snap_to_grid s GRID_SPACING = Ok s /\
    is_finite s = true /\
    (Qabs (F2Q s - F2Q v) <= 1272 # 1000)%Q.
Proof.
  intros [Hv Hr].
  destruct (snap_spec v Hv Hr) as (k & s & E1 & E2 & Hs & Hk & Hkv & Hsk).
  exists s. split; [exact E1|]. split; [exact (snap_fixes k s E2 Hs Hk Hsk)|].
  split; [exact Hs|].
  apply Qabs_le_inv in Hkv, Hsk.
  set (x := (inject_Z k * grid_q)%Q) in *. clearbody x.
  apply Qabs_le; lra.
Qed.





(** ** Power nets and the fate of the schematic file *)

Lemma add_power_net_first_pin (W : world) (first : string)
    (rest : list string) (net_name : string) (pin_maps : pin_maps_t)
    (tr : trace) :
  PyStr.count "." first <> 1 ->
  _add_power_net W (first :: rest) net_name pin_maps tr =
  (Raise (ValueError ("Invalid pin reference: " +:+ first)), tr).
Proof.
  intros H. unfold _add_power_net, bind, lift.
  now rewrite (parse_pin_ref_malformed first pin_maps H).
Qed.

(** C6, where the code departs from it: a group whose first pin reference is
    malformed makes [_add_power_net] raise the format error before anything
    is attempted: no label placement, no join, trace unchanged. *)
Theorem add_power_net_malformed_first (W : world) (first : string)
    (rest : list string) (net_name : string) (pin_maps : pin_maps_t)
    (tr : trace) :
  PyStr.count "." first <> 1 ->
  _add_power_net W (first :: rest) net_name pin_maps tr =
  (Raise (ValueError ("Invalid pin reference: " +:+ first)), tr).
Proof.
  intros H. unfold _add_power_net.
  assert (E : _parse_pin_ref first pin_maps =
              Raise (ValueError ("Invalid pin reference: " +:+ first))).
  { unfold _parse_pin_ref. rewrite split_length.
    destruct (Nat.eqb_spec (S (PyStr.count "." first)) 2) as [E|E];
      [lia | reflexivity]. }
  unfold bind, lift. now rewrite E.
Qed.

Lemma add_power_net_malformed_first_witness :
  _add_power_net Posix.quiet ["U1"; "U2.GND"] "GND" ∅ [] =
  (Raise (ValueError "Invalid pin reference: U1"), []).
Proof.
  apply (add_power_net_malformed_first Posix.quiet "U1" ["U2.GND"] "GND" ∅ []).
  simpl. lia.
Defined.

Lemma add_power_net_raises (W : world) (first : string) (rest : list string)
    (net_name : string) (pin_maps : pin_maps_t) :
  PyStr.count "." first <> 1 ->
  always_raises (_add_power_net W (first :: rest) net_name pin_maps).
Proof.
  intros H tr. now rewrite (add_power_net_first_pin W first rest _ _ tr H).
Qed.

Lemma add_power_net_keeps_not_saved (W : world) (pin_list : list string)
    (net_name : string) (pin_maps : pin_maps_t) :
  keeps not_saved (_add_power_net W pin_list net_name pin_maps).
Proof. repeat keeps_open; exact I. Qed.

(** C1, where the code departs from it: when the first pin reference of the
    first power group is malformed, [create_schematic] ends in an exception
    in every environment, and the schematic is never saved. *)
Theorem create_schematic_aborts_on_power_pin (W : world)
    (components : components_t) (connections : list (string * string))
    (filename : string) (title : option string) (first : string)
    (rest : list string) (net_name : string)
    (groups : list (list string * string))
    (render_svg auto_layout : bool) (output_dir : option string) :
  PyStr.count "." first <> 1 ->
  is_ok (fst (create_schematic W components connections filename title
                (Some ((first :: rest, net_name) :: groups))
                render_svg auto_layout output_dir [])) = false /\
  Forall not_saved
    (snd (create_schematic W components connections filename title
            (Some ((first :: rest, net_name) :: groups))
            render_svg auto_layout output_dir [])).
Proof.
  intros H. unfold create_schematic. cbv zeta.
  assert (Hloop : forall pin_maps,
    always_raises
      (for_each ((first :: rest, net_name) :: groups)
         (fun group : list string * string =>
            _add_power_net W (fst group) (snd group) pin_maps))).
  { intros pin_maps. cbn [for_each fst snd]. apply always_raises_bind_l.
    now apply add_power_net_raises. }
  split.
  - do 5 (apply always_raises_bind; intros ?).
    apply always_raises_bind_l, Hloop.
  - match goal with
    | |- Forall _ (snd (?m [])) =>
        enough (Hk : keeps not_saved m) by (apply Hk; constructor)
    end.
    do 5 (apply keeps_bind; [repeat keeps_open; exact I | intros ?]).
    apply keeps_bind_raises; [|apply Hloop].
    apply keeps_for_each. intros group _.
    apply add_power_net_keeps_not_saved.
Qed.

Lemma create_schematic_aborts_on_power_pin_witness :
  is_ok (fst (create_schematic Posix.quiet divider [("R1.2", "R2.1")]
                "divider.kicad_sch" None (Some [(["U1"], "VCC")])
                false true None [])) = false /\
  Forall not_saved
    (snd (create_schematic Posix.quiet divider [("R1.2", "R2.1")]
            "divider.kicad_sch" None (Some [(["U1"], "VCC")])
            false true None [])).
Proof.
  apply (create_schematic_aborts_on_power_pin Posix.quiet divider
           [("R1.2", "R2.1")] "divider.kicad_sch" None "U1" [] "VCC" []
           false true None).
  simpl. lia.
Defined.

(** The same run, evaluated: the format error of the power group escapes,
    after both resistors were placed and the connection routed. *)
Example divider_with_bad_power_pin :
  create_schematic Posix.quiet divider [("R1.2", "R2.1")]
    "divider.kicad_sch" None (Some [(["U1"], "VCC")]) false true None [] =
  (Raise (ValueError "Invalid pin reference: U1"),
   [EvPathExists "KiCad"; EvMakedirs "KiCad";
    EvPrint "Created directory: KiCad"; EvCreateSchematic "Schematic";
    EvComponentsAdd "Device:R" "R1" "10k" (of_Q 88.90%Q, of_Q 50.80%Q) None;
    EvComponentsAdd "Device:R" "R2" "10k" (of_Q 109.22%Q, of_Q 50.80%Q) None;
    EvAutoRoutePins "R1" "2" "R2" "1"]).
Proof. vm_compute. reflexivity. Qed.

(** A malformed reference in a plain connection, by contrast, is caught. *)
Example divider_with_bad_connection :
  let run := create_schematic Posix.quiet divider [("R1", "R2.1")]
               "divider.kicad_sch" None None false true None [] in
  fst run = Ok "KiCad/divider.kicad_sch" /\
  EvSave "KiCad/divider.kicad_sch" ∈ snd run /\
  EvPrint ("Warning: Could not parse pin reference R1 or R2.1: " +:+
           "Invalid pin reference: R1") ∈ snd run.
Proof.
  vm_compute. repeat split; repeat constructor.
Qed.

(** ** Pull-up resistors of the MCU-pair builder *)

Section Pullups.

Variables mcu1_name mcu2_name pullup_value : string.
Variable i2c_pins : list string.

Let step := pullup_step mcu1_name mcu2_name pullup_value i2c_pins.
Let loop := pullup_loop mcu1_name mcu2_name pullup_value i2c_pins.
Let log := pullup_log mcu1_name mcu2_name pullup_value i2c_pins.

Lemma step_creates (st : pullup_state) (pair : string * string) (s : string) :
  new_signal i2c_pins st pair = Some s ->
  i2c_signal_of i2c_pins pair = Some s /\
  pullup_count (step st pair) = S (pullup_count st) /\
  processed_i2c_pins (step st pair) = {[s]} ∪ processed_i2c_pins st /\
  ps_power_connections (step st pair) =
    ps_power_connections st
      ++ [([r_ref_of (S (pullup_count st)) +:+ ".2"], "VCC")] /\
  ps_components (step st pair) =
    dict_set (ps_components st) (r_ref_of (S (pullup_count st)))
      (pullup_resistor pullup_value).
Proof.
  unfold new_signal, flagged_signal, step, pullup_step.
  destruct pair as [p1 p2].
  destruct (i2c_signal_of i2c_pins (p1, p2)) as [sig|]; [|discriminate].
  destruct (PyStr.truthy sig); [|discriminate].
  destruct (decide (sig ∈ processed_i2c_pins st)) as [Hin|Hnotin].
  - rewrite (bool_decide_eq_true_2 _ Hin). discriminate.
  - rewrite (bool_decide_eq_false_2 _ Hnotin). intros [= ->].
    rewrite (bool_decide_eq_true_2 (s ∉ processed_i2c_pins st) Hnotin).
    simpl. repeat split; reflexivity.
Qed.

Lemma step_plain (st : pullup_state) (pair : string * string) :
  new_signal i2c_pins st pair = None ->
  pullup_count (step st pair) = pullup_count st /\
  processed_i2c_pins (step st pair) = processed_i2c_pins st /\
  ps_power_connections (step st pair) = ps_power_connections st /\
  ps_components (step st pair) = ps_components st.
Proof.
  unfold new_signal, flagged_signal, step, pullup_step.
  destruct pair as [p1 p2].
  destruct (i2c_signal_of i2c_pins (p1, p2)) as [sig|];
    [|repeat split; reflexivity].
  destruct (PyStr.truthy sig); [|repeat split; reflexivity].
  destruct (decide (sig ∈ processed_i2c_pins st)) as [Hin|Hnotin].
  - rewrite (bool_decide_eq_true_2 _ Hin). intros _.
    rewrite (bool_decide_eq_false_2 (sig ∉ processed_i2c_pins st))
      by (intros Hn; exact (Hn Hin)).
    repeat split; reflexivity.
  - rewrite (bool_decide_eq_false_2 _ Hnotin). discriminate.
Qed.

Lemma pullup_log_cons (st : pullup_state) (pair : string * string)
    (rest : list (string * string)) :
  log st (pair :: rest) =
  match new_signal i2c_pins st pair with
  | Some s => (s, r_ref_of (S (pullup_count st))) :: log (step st pair) rest
  | None => log (step st pair) rest
  end.
Proof.
  unfold log. cbn [pullup_log]. fold (step st pair). destruct (new_signal i2c_pins st pair) as [s|] eqn:E.
  - destruct (step_creates st pair s E) as (-> & -> & _).
    rewrite (proj2 (Nat.eqb_neq _ _)) by lia. reflexivity.
  - destruct (step_plain st pair E) as (-> & _).
    now rewrite Nat.eqb_refl.
Qed.

End Pullups.

Lemma dict_get_set {V} (d : list (string * V)) (k k' : string) (v : V) :
  dict_get (dict_set d k v) k' =
  if String.eqb k k' then Some v else dict_get d k'.
Proof.
  induction d as [|[k0 v0] d IH]; simpl.
  - reflexivity.
  - destruct (String.eqb_spec k0 k) as [->|Hne]; simpl.
    + destruct (String.eqb_spec k k'); reflexivity.
    + rewrite IH. destruct (String.eqb_spec k0 k') as [->|Hne'].
      * destruct (String.eqb_spec k k'); [congruence | reflexivity].
      * reflexivity.
Qed.

Lemma first_occurrences_fresh (seen : gset string) (l : list string)
    (x : string) :
  x ∈ first_occurrences seen l -> x ∉ seen.
Proof.
  revert seen. induction l as [|y l IH]; intros seen; simpl.
  - intros H. inversion H.
  - destruct (decide (y ∈ seen)) as [Hin|Hnotin].
    + rewrite (bool_decide_eq_true_2 _ Hin). apply IH.
    + rewrite (bool_decide_eq_false_2 _ Hnotin).
      intros [->|H]%elem_of_cons; [exact Hnotin|].
      apply IH in H. intros Hx. apply H.
      apply elem_of_union. now right.
Qed.

Lemma first_occurrences_NoDup (seen : gset string) (l : list string) :
  NoDup (first_occurrences seen l).
Proof.
  revert seen. induction l as [|y l IH]; intros seen; simpl.
  - constructor.
  - destruct (bool_decide (y ∈ seen)); [apply IH|].
    constructor; [|apply IH].
    intros H%first_occurrences_fresh. apply H.
    apply elem_of_union. left. now apply elem_of_singleton.
Qed.

Section PullupLoop.

Variables mcu1_name mcu2_name pullup_value : string.
Variable i2c_pins : list string.

Let step := pullup_step mcu1_name mcu2_name pullup_value i2c_pins.
Let loop := pullup_loop mcu1_name mcu2_name pullup_value i2c_pins.
Let log := pullup_log mcu1_name mcu2_name pullup_value i2c_pins.

Lemma pullup_loop_log (st : pullup_state)
    (connections : list (string * string)) :
  List.map fst (log st connections) =
    first_occurrences (processed_i2c_pins st)
      (flagged_signals i2c_pins connections) /\
  List.map snd (log st connections) =
    List.map r_ref_of
      (seq (S (pullup_count st)) (length (log st connections))) /\
  pullup_count (loop st connections) =
    pullup_count st + length (log st connections) /\
  ps_power_connections (loop st connections) =
    ps_power_connections st ++
    List.map (fun r => ([r +:+ ".2"], "VCC"))
      (List.map snd (log st connections)).
Proof.
  revert st. induction connections as [|conn rest IH]; intros st.
  - simpl. rewrite Nat.add_0_r, app_nil_r. repeat split; reflexivity.
  - unfold log, loop in *. rewrite pullup_log_cons.
    unfold pullup_loop in *. cbn [fold_left flagged_signals].
    fold (step st conn).
    destruct (IH (step st conn)) as (IH1 & IH2 & IH3 & IH4).
    destruct (new_signal i2c_pins st conn) as [s|] eqn:E.
    + destruct (step_creates mcu1_name mcu2_name pullup_value i2c_pins st conn s E) as (Hsig & Hc & Hp & Hw & _).
      fold step in Hc, Hp, Hw.
      assert (Hf : flagged_signal i2c_pins conn = Some s /\
                   s ∉ processed_i2c_pins st).
      { unfold new_signal in E.
        destruct (flagged_signal i2c_pins conn) as [s'|]; [|discriminate].
        destruct (decide (s' ∈ processed_i2c_pins st)) as [Hin|Hnotin].
        - rewrite (bool_decide_eq_true_2 _ Hin) in E. discriminate.
        - rewrite (bool_decide_eq_false_2 _ Hnotin) in E.
          injection E as ->. now split. }
      destruct Hf as [Hf Hfresh]. rewrite Hf.
      cbn [List.map fst snd length first_occurrences seq].
      rewrite (bool_decide_eq_false_2 _ Hfresh).
      rewrite Hc, Hp, Hw in *. repeat split.
      * now rewrite IH1.
      * now rewrite <- IH2.
      * rewrite IH3. lia.
      * rewrite IH4. now rewrite <- app_assoc.
    + destruct (step_plain mcu1_name mcu2_name pullup_value i2c_pins st conn E) as (Hc & Hp & Hw & _).
      fold step in Hc, Hp, Hw.
      rewrite Hc, Hp, Hw in *. repeat split; try assumption.
      rewrite IH1. unfold new_signal in E.
      destruct (flagged_signal i2c_pins conn) as [s'|]; [|reflexivity].
      cbn [first_occurrences].
      destruct (bool_decide (s' ∈ processed_i2c_pins st));
        [reflexivity | discriminate].
Qed.

Lemma pullup_loop_keeps_resistor (st : pullup_state)
    (connections : list (string * string)) (r : string) :
  dict_get (ps_components st) r = Some (pullup_resistor pullup_value) ->
  dict_get (ps_components (loop st connections)) r =
  Some (pullup_resistor pullup_value).
Proof.
  revert st. induction connections as [|conn rest IH]; intros st H.
  - exact H.
  - unfold loop, pullup_loop in *. cbn [fold_left]. apply IH.
    fold (step st conn).
    destruct (new_signal i2c_pins st conn) as [s|] eqn:E.
    + destruct (step_creates mcu1_name mcu2_name pullup_value i2c_pins st conn s E) as (_ & _ & _ & _ & Hd).
      fold step in Hd. rewrite Hd, dict_get_set.
      now destruct (String.eqb _ r).
    + destruct (step_plain mcu1_name mcu2_name pullup_value i2c_pins st conn E) as (_ & _ & _ & Hd).
      fold step in Hd. now rewrite Hd.
Qed.

Lemma pullup_loop_components (st : pullup_state)
    (connections : list (string * string)) (r : string) :
  r ∈ List.map snd (log st connections) ->
  dict_get (ps_components (loop st connections)) r =
  Some (pullup_resistor pullup_value).
Proof.
  revert st. induction connections as [|conn rest IH]; intros st.
  - intros H. inversion H.
  - unfold log, loop in *. rewrite pullup_log_cons.
    unfold pullup_loop in *. cbn [fold_left]. fold (step st conn).
    destruct (new_signal i2c_pins st conn) as [s|] eqn:E; [|apply IH].
    cbn [List.map snd]. intros [->|H]%elem_of_cons; [|now apply IH].
    apply pullup_loop_keeps_resistor.
    destruct (step_creates mcu1_name mcu2_name pullup_value i2c_pins st conn s E) as (_ & _ & _ & _ & Hd).
    fold step in Hd. rewrite Hd, dict_get_set.
    now rewrite String.eqb_refl.
Qed.

Lemma pullup_loop_dict (st : pullup_state)
    (connections : list (string * string)) :
  ps_components (loop st connections) =
  with_pullups pullup_value (ps_components st)
    (List.map snd (log st connections)).
Proof.
  revert st. induction connections as [|conn rest IH]; intros st.
  - reflexivity.
  - unfold log, loop in *. rewrite pullup_log_cons.
    unfold pullup_loop in *. cbn [fold_left]. fold (step st conn).
    rewrite IH.
    destruct (new_signal i2c_pins st conn) as [s|] eqn:E.
    + destruct (step_creates mcu1_name mcu2_name pullup_value i2c_pins st
                  conn s E) as (_ & _ & _ & _ & Hd).
      fold step in Hd. rewrite Hd. reflexivity.
    + destruct (step_plain mcu1_name mcu2_name pullup_value i2c_pins st conn
                  E) as (_ & _ & _ & Hd).
      fold step in Hd. now rewrite Hd.
Qed.

End PullupLoop.

Lemma dict_set_length {V} (d : list (string * V)) (k : string) (v : V) :
  length (dict_set d k v) <= S (length d).
Proof.
  induction d as [|[k0 v0] d IH]; simpl; [lia|].
  destruct (String.eqb k0 k); simpl; lia.
Qed.

Lemma with_pullups_length (pullup_value : string) (components : components_t)
    (refs : list string) :
  length (with_pullups pullup_value components refs) <=
  length components + length refs.
Proof.
  unfold with_pullups. revert components.
  induction refs as [|r refs IH]; intros components; simpl; [lia|].
  pose proof (IH (dict_set components r (pullup_resistor pullup_value))).
  pose proof (dict_set_length components r (pullup_resistor pullup_value)).
  lia.
Qed.

Lemma elem_of_dict_set {V} (d : list (string * V)) (k : string) (v : V)
    (item : string * V) :
  item ∈ dict_set d k v -> item ∈ d \/ item = (k, v).
Proof.
  induction d as [|[k0 v0] d IH]; simpl.
  - intros Hin%list_elem_of_singleton. now right.
  - destruct (String.eqb_spec k0 k) as [->|Hne].
    + intros [->|Hin]%elem_of_cons; [now right | left; now right].
    + intros [->|Hin]%elem_of_cons; [left; now left|].
      destruct (IH Hin) as [H|H]; [left; now right | now right].
Qed.

Lemma with_pullups_no_positions (pullup_value : string)
    (components : components_t) (refs : list string) :
  (forall ref spec, (ref, spec) ∈ components -> position spec = None) ->
  forall ref spec, (ref, spec) ∈ with_pullups pullup_value components refs ->
    position spec = None.
Proof.
  unfold with_pullups. revert components.
  induction refs as [|r refs IH]; intros components H; [exact H|].
  simpl. apply IH. intros ref spec [Hin|[= -> ->]]%elem_of_dict_set.
  - exact (H ref spec Hin).
  - reflexivity.
Qed.

Lemma pullup_log_length (mcu1_name mcu2_name pullup_value : string)
    (i2c_pins : list string) (st : pullup_state)
    (connections : list (string * string)) :
  length (pullup_log mcu1_name mcu2_name pullup_value i2c_pins st connections)
  <= length connections.
Proof.
  revert st. induction connections as [|conn rest IH]; intros st; [simpl; lia|].
  cbn [pullup_log]. rewrite length_app.
  specialize (IH (pullup_step mcu1_name mcu2_name pullup_value i2c_pins st
                    conn)).
  destruct (Nat.eqb _ _); simpl in *; lia.
Qed.

(** C7: while [draw_mcu_connection] walks the connection pairs, at most one
    pull-up resistor is created per flagged signal name, however often the
    name occurs; the resistors are R1, R2, ... in the order in which their
    signals first occur.  The final component dict is the given one with
    exactly these resistors stored, each a "Device:R", so it grows by at
    most one entry per distinct flagged signal; each resistor contributes
    one VCC group. *)
Theorem pullup_once_per_signal (mcu1_name mcu2_name pullup_value : string)
    (i2c_pins : list string) (components : components_t)
    (connections : list (string * string)) :
  let st0 := mk_pullup_state components [] [] 0 ∅ in
  let created :=
    pullup_log mcu1_name mcu2_name pullup_value i2c_pins st0 connections in
  let st :=
    pullup_loop mcu1_name mcu2_name pullup_value i2c_pins st0 connections in
  NoDup (List.map fst created) /\
  List.map fst created =
    first_occurrences ∅ (flagged_signals i2c_pins connections) /\
  List.map snd created = List.map r_ref_of (seq 1 (length created)) /\
  pullup_count st = length created /\
  ps_power_connections st =
    List.map (fun r => ([r +:+ ".2"], "VCC")) (List.map snd created) /\
  ps_components st =
    with_pullups pullup_value components (List.map snd created) /\
  length (ps_components st) <= length components + length created /\
  forall r : string,
    r ∈ List.map snd created ->
    dict_get (ps_components st) r = Some (pullup_resistor pullup_value).
Proof.
  intros st0 created st.
  destruct (pullup_loop_log mcu1_name mcu2_name pullup_value i2c_pins st0
              connections) as (H1 & H2 & H3 & H4).
  pose proof (pullup_loop_dict mcu1_name mcu2_name pullup_value i2c_pins st0
                connections) as H5.
  fold created in H1, H2, H3, H4, H5. fold st in H3, H4, H5.
  change (ps_components st0) with components in H5.
  repeat split; try assumption.
  - rewrite H1. apply first_occurrences_NoDup.
  - rewrite H5.
    pose proof (with_pullups_length pullup_value components
                  (List.map snd created)) as Hl.
    now rewrite length_map in Hl.
  - intros r Hr.
    now apply (pullup_loop_components mcu1_name mcu2_name pullup_value
                 i2c_pins st0 connections r).
Qed.

Lemma pullup_once_per_signal_witness :
  dict_get
    (ps_components
       (pullup_loop "U1" "U2" "4.7k" ["SDA"; "SCL"]
          (mk_pullup_state [] [] [] 0 ∅)
          [("SDA", "SDA"); ("SDA", "D4"); ("SCL", "SCL"); ("D7", "SDA")]))
    "R2" = Some (pullup_resistor "4.7k").
Proof.
  apply (proj2 (proj2 (proj2 (proj2 (proj2 (proj2 (proj2
           (pullup_once_per_signal "U1" "U2" "4.7k" ["SDA"; "SCL"] []
              [("SDA", "SDA"); ("SDA", "D4"); ("SCL", "SCL"); ("D7", "SDA")]
           )))))))).
  vm_compute. repeat constructor.
Defined.

Example pullup_log_repeated_signal :
  pullup_log "U1" "U2" "4.7k" ["SDA"; "SCL"] (mk_pullup_state [] [] [] 0 ∅)
    [("SDA", "SDA"); ("SDA", "D4"); ("SCL", "SCL"); ("D7", "SDA")] =
  [("SDA", "R1"); ("SCL", "R2")].
Proof. vm_compute. reflexivity. Qed.

(** [draw_mcu_connection] hands the outcome of the loop to
    [create_schematic]. *)
Lemma draw_mcu_connection_runs_loop (W : world) (mcu1_name mcu1_lib_id : string)
    (mcu1_pins : gmap string string) (mcu2_name mcu2_lib_id : string)
    (mcu2_pins : gmap string string) (connections : list (string * string))
    (filename : string) (title : option string)
    (i2c_pins : option (list string)) (pullup_value : string)
    (render_svg : bool) (output_dir : option string) (tr : trace) :
  exists components : components_t,
    keys components = keys (dict_set [(mcu1_name, part "")] mcu2_name (part "")) /\
    (forall ref spec, (ref, spec) ∈ components -> position spec = None) /\
    length components <= 2 /\
    let st :=
      pullup_loop mcu1_name mcu2_name pullup_value (get_or i2c_pins [])
        (mk_pullup_state components [] [] 0 ∅) connections in
    draw_mcu_connection W mcu1_name mcu1_lib_id mcu1_pins mcu2_name
      mcu2_lib_id mcu2_pins connections filename title i2c_pins pullup_value
      render_svg output_dir tr =
    create_schematic W (ps_components st) (full_connections st) filename title
      (match ps_power_connections st with
       | [] => None
       | groups => Some groups
       end)
      render_svg true output_dir tr.
Proof.
  unfold draw_mcu_connection.
  destruct (index_last_split ":" mcu1_lib_id) as [v1 ->].
  destruct (index_last_split ":" mcu2_lib_id) as [v2 ->].
  eexists. split; [|split; [|split; [|reflexivity]]].
  - simpl. now destruct (String.eqb mcu1_name mcu2_name).
  - intros ref spec Hin. simpl in Hin.
    destruct (String.eqb mcu1_name mcu2_name);
      repeat (apply elem_of_cons in Hin as [Hin|Hin];
              [now injection Hin as -> ->|]);
      inversion Hin.
  - simpl. destruct (String.eqb mcu1_name mcu2_name); simpl; lia.
Qed.

(** ** What the builder tolerates *)

Section ExtendsFacts.

Context {A B : Type}.

Lemma extends_ret (a : A) : extends (ret a).
Proof. intros tr. exists []. simpl. now rewrite app_nil_r. Qed.

Lemma extends_raise (e : exn) : extends (@raise A e).
Proof. intros tr. exists []. simpl. now rewrite app_nil_r. Qed.

Lemma extends_lift (r : result A) : extends (lift r).
Proof. intros tr. exists []. simpl. now rewrite app_nil_r. Qed.

Lemma extends_bind (m : M A) (k : A -> M B) :
  extends m -> (forall a, extends (k a)) -> extends (bind m k).
Proof.
  intros Hm Hk tr. unfold bind. destruct (Hm tr) as [evs Hevs].
  destruct (m tr) as [[a|e] tr']; simpl in *; subst tr'.
  - destruct (Hk a (tr ++ evs)) as [evs' ->]. exists (evs ++ evs').
    now rewrite app_assoc.
  - now exists evs.
Qed.

Lemma extends_try_except (m : M A) (h : exn -> M A) :
  extends m -> (forall e, extends (h e)) -> extends (try_except m h).
Proof.
  intros Hm Hh tr. unfold try_except. destruct (Hm tr) as [evs Hevs].
  destruct (m tr) as [[a|e] tr']; simpl in *; subst tr'.
  - now exists evs.
  - destruct (Hh e (tr ++ evs)) as [evs' ->]. exists (evs ++ evs').
    now rewrite app_assoc.
Qed.

End ExtendsFacts.

Lemma extends_for_each {A} (l : list A) (body : A -> M unit) :
  (forall x, x ∈ l -> extends (body x)) -> extends (for_each l body).
Proof.
  induction l as [|x l IH]; intros Hb; [exact (extends_ret tt)|].
  simpl. apply extends_bind.
  - apply Hb. now left.
  - intros _. apply IH. intros y Hy. apply Hb. now right.
Qed.

Lemma extends_print (line : string) : extends (print line).
Proof. intros tr. now exists [EvPrint line]. Qed.

Lemma extends_call (W : world) (ev : event) : extends (call W ev).
Proof. intros tr. now exists [ev]. Qed.

Lemma extends_probe (W : world) (ev : event) : extends (probe W ev).
Proof. intros tr. now exists [ev]. Qed.

Lemma extends_get_component_pin_position (W : world) (ref pin : string) :
  extends (get_component_pin_position W ref pin).
Proof. intros tr. now exists [EvGetComponentPinPosition ref pin]. Qed.

Lemma extends_subprocess_run (W : world) (args : list string) :
  extends (subprocess_run W args).
Proof. intros tr. now exists [EvSubprocessRun args]. Qed.

Ltac extends_step :=
  lazymatch goal with
  | |- extends (_render_svg _ _) => unfold _render_svg
  | |- extends (_generate_connection_md _ _ _ _ _ _) =>
      unfold _generate_connection_md
  | |- extends (bind _ _) => apply extends_bind; [|intros ?]
  | |- extends (ret _) => apply extends_ret
  | |- extends (raise _) => apply extends_raise
  | |- extends (lift _) => apply extends_lift
  | |- extends (try_except _ _) => apply extends_try_except; [|intros ?]
  | |- extends (for_each _ _) => apply extends_for_each; intros ? ?
  | |- extends (print _) => apply extends_print
  | |- extends (call _ _) => apply extends_call
  | |- extends (probe _ _) => apply extends_probe
  | |- extends (get_component_pin_position _ _ _) =>
      apply extends_get_component_pin_position
  | |- extends (subprocess_run _ _) => apply extends_subprocess_run
  | |- extends (if ?b then _ else _) => destruct b
  | |- extends (match ?x with _ => _ end) => destruct x
  end.

Ltac succeeds_step :=
  lazymatch goal with
  | |- succeeds (bind _ _) => apply succeeds_bind; [|intros ?]
  | |- succeeds (ret _) => apply succeeds_ret
  | |- succeeds (try_except _ _) => apply succeeds_try_except; intros ?
  | |- succeeds (for_each _ _) => apply succeeds_for_each; intros ? ?
  | |- succeeds (print _) => apply succeeds_print
  | |- succeeds (probe _ _) => apply succeeds_probe
  | |- succeeds (if ?b then _ else _) => destruct b
  | |- succeeds (match ?x with _ => _ end) => destruct x
  end.

Lemma render_svg_succeeds (W : world) (kicad_sch_path : string) :
  succeeds (_render_svg W kicad_sch_path).
Proof. unfold _render_svg. repeat succeeds_step. Qed.

Lemma generate_connection_md_succeeds (W : world) (kicad_sch_path : string)
    (title : option string) (components : components_t)
    (connections : list (string * string))
    (power_connections : option (list (list string * string))) :
  succeeds (_generate_connection_md W kicad_sch_path title components
              connections power_connections).
Proof. unfold _generate_connection_md. repeat succeeds_step. Qed.

(** *** Positions that can be snapped *)

Lemma of_nat_lt (i j : nat) : i < j -> (of_nat i + 1 <= of_nat j)%Q.
Proof.
  intros H. unfold of_nat. change 1%Q with (inject_Z 1).
  rewrite <- inject_Z_plus, <- Zle_Qle. lia.
Qed.

Lemma of_nat_nonneg (i : nat) : (0 <= of_nat i)%Q.
Proof. unfold of_nat. change 0%Q with (inject_Z 0). rewrite <- Zle_Qle. lia. Qed.

Lemma of_nat_le (i j : nat) : i <= j -> (of_nat i <= of_nat j)%Q.
Proof. intros H. unfold of_nat. rewrite <- Zle_Qle. lia. Qed.

Lemma of_nat_ne (i j : nat) :
  i <> j -> (of_nat i + 1 <= of_nat j)%Q \/ (of_nat j + 1 <= of_nat i)%Q.
Proof.
  intros H. destruct (Nat.lt_ge_cases i j) as [Hlt|Hge].
  - left. now apply of_nat_lt.
  - right. apply of_nat_lt. lia.
Qed.

Lemma half_spacing (x : Q) : (x * 40 / 2 == x * 20)%Q.
Proof. field. Qed.

Lemma place_entry (pos : nat -> Q * Q) (refs : list string) (i : nat)
    (positions : positions_t) (ref : string) (p : Q * Q) :
  place pos i refs positions !! ref = Some p ->
  (exists j, j < length refs /\ p = pos (i + j)) \/ positions !! ref = Some p.
Proof.
  revert i positions. induction refs as [|r refs IH]; intros i positions H.
  - now right.
  - simpl in H. apply IH in H as [(j & Hj & ->)|H].
    + left. exists (S j). split; [simpl; lia|]. f_equal. lia.
    + destruct (decide (r = ref)) as [->|Hne].
      * rewrite lookup_insert_eq in H. injection H as <-. left. exists 0.
        split; [simpl; lia|]. now rewrite Nat.add_0_r.
      * rewrite lookup_insert_ne in H by assumption. now right.
Qed.

Lemma refs_of_length (c : category) (components : components_t) :
  length (refs_of c components) <= length components.
Proof. unfold refs_of, keys. rewrite length_map. apply filter_length_le. Qed.

(** Every slot of a layout of at most [N] components lies in the square
    from 0 to [170 + 80 * N]. *)
Lemma slot_position_bounds (n : nat) (c : category) (i N : nat) :
  n <= N -> i <= N ->
  (0 <= fst (slot_position n c i) <= 170 + 80 * of_nat N)%Q /\
  (0 <= snd (slot_position n c i) <= 170 + 80 * of_nat N)%Q.
Proof.
  intros Hn Hi.
  pose proof (of_nat_nonneg n) as N0. pose proof (of_nat_le n N Hn) as N1.
  pose proof (of_nat_nonneg i) as I0. pose proof (of_nat_le i N Hi) as I1.
  pose proof (of_nat_nonneg (i mod 4)) as C0.
  assert (C1 : (of_nat (i mod 4) <= 3)%Q).
  { change 3%Q with (of_nat 3). apply of_nat_le.
    pose proof (Nat.mod_upper_bound i 4). lia. }
  pose proof (of_nat_nonneg (i / 4)) as R0.
  assert (R1 : (of_nat (i / 4) <= of_nat N)%Q).
  { apply of_nat_le. pose proof (Nat.Div0.div_le_upper_bound i 4 i).
    assert (i / 4 <= i) by (apply Nat.Div0.div_le_upper_bound; lia). lia. }
  destruct c;
    cbn [slot_position mcu_position passive_position other_position fst snd];
    unfold passive_x, other_x, passive_x, y_offset, COMPONENT_SPACING_X,
      COMPONENT_SPACING_Y;
    rewrite ?half_spacing;
    set (a := of_nat n) in *; set (b := of_nat i) in *;
    set (c := of_nat (i mod 4)) in *; set (d := of_nat (i / 4)) in *;
    set (e := of_nat N) in *; clearbody a b c d e; split; lra.
Qed.

Lemma layout_entry_bounds (components : components_t) (ref : string)
    (p : Q * Q) :
  _auto_layout_components components !! ref = Some p ->
  (0 <= fst p <= 170 + 80 * of_nat (length components))%Q /\
  (0 <= snd p <= 170 + 80 * of_nat (length components))%Q.
Proof.
  unfold _auto_layout_components. rewrite categorize_refs.
  cbn [mcus passives others].
  pose proof (refs_of_length Controller components) as Lc.
  pose proof (refs_of_length Passive components) as Lp.
  pose proof (refs_of_length Other components) as Lo.
  intros H.
  apply place_entry in H as [(j & Hj & ->)|H];
    [apply (slot_position_bounds _ Other); simpl; lia|].
  apply place_entry in H as [(j & Hj & ->)|H];
    [apply (slot_position_bounds _ Passive); simpl; lia|].
  apply place_entry in H as [(j & Hj & ->)|H];
    [apply (slot_position_bounds 0 Controller); simpl; lia|].
  now rewrite lookup_empty in H.
Qed.

Lemma in_range_finite64 (x : float) : in_range x -> finite64 x.
Proof.
  intros [Hf Hr]. split; [exact Hf|].
  pose proof (pow2_lt 40 1024 ltac:(lia)). lra.
Qed.

(** A sheet coordinate up to 2^39 enters binary64 within 2^-14 of itself. *)
Lemma of_Q_coordinate (q : Q) :
  (0 <= q <= 2 ^ 39)%Q ->
  in_range (of_Q q) /\ (Qabs (F2Q (of_Q q) - q) <= 1 # 16384)%Q.
Proof.
  intros Hq. change (2 ^ 39)%Q with 549755813888%Q in Hq.
  assert (Ha : (Qabs q < 2 ^ (39 + 1))%Q).
  { change (2 ^ (39 + 1))%Q with 1099511627776%Q. apply Qabs_lt; lra. }
  destruct (of_Q_near q 39 ltac:(lia) Ha) as [Hf He].
  change (2 ^ (39 - 53))%Q with (1 # 16384)%Q in He.
  split; [|exact He]. split; [exact Hf|].
  apply Qabs_le_inv in He. change (2 ^ 40)%Q with 1099511627776%Q.
  apply Qabs_le; lra.
Qed.

Lemma modest_layout_bound {A} (l : list A) :
  modest_size l -> (170 + 80 * of_nat (length l) <= 2 ^ 39)%Q.
Proof.
  unfold modest_size. intros H.
  assert (H' : (of_nat (length l) <= inject_Z (2 ^ 32))%Q)
    by (unfold of_nat; rewrite <- Zle_Qle; lia).
  change (inject_Z (2 ^ 32)) with 4294967296%Q in H'.
  change (2 ^ 39)%Q with 549755813888%Q. lra.
Qed.

(** The position selected for a component of a dict of modest size whose
    explicit positions are finite is a pair of finite floats. *)
Lemma selected_finite (components : components_t) (auto_layout : bool)
    (ref : string) (spec : component_spec) :
  finite_positions components ->
  (auto_layout = true -> modest_size components) ->
  (ref, spec) ∈ components ->
  let pos := select_position (positions_of auto_layout components) ref spec in
  finite64 (fst pos) /\ finite64 (snd pos).
Proof.
  intros Hfin Hsize Hin. unfold select_position.
  destruct (position spec) as [p|] eqn:Ep; [exact (Hfin ref spec p Hin Ep)|].
  destruct (positions_of auto_layout components !! ref) as [p|] eqn:El.
  - unfold positions_of in El.
    destruct auto_layout; [|now rewrite lookup_empty in El].
    destruct (layout_entry_bounds components ref p El) as [Hx Hy].
    pose proof (modest_layout_bound components (Hsize eq_refl)) as Hb.
    cbn [fst snd]. split; apply in_range_finite64, of_Q_coordinate; lra.
  - cbn [fst snd]. split; (split; [reflexivity | vm_compute; reflexivity]).
Qed.

Lemma selected_snappable (components : components_t) (auto_layout : bool)
    (item : string * component_spec) :
  finite_positions components ->
  (auto_layout = true -> modest_size components) ->
  item ∈ components ->
  snappable (positions_of auto_layout components) item.
Proof.
  intros Hfin Hsize Hin. destruct item as [ref spec].
  destruct (selected_finite components auto_layout ref spec Hfin Hsize Hin)
    as [Hx Hy].
  split; now apply snap_never_raises.
Qed.

Lemma add_component_succeeds (W : world) (positions : positions_t)
    (item : string * component_spec) :
  snappable positions item -> succeeds (add_component W positions item).
Proof.
  intros [Hx Hy]. unfold add_component. destruct item as [ref spec].
  apply succeeds_bind_lift; [exact Hx | intros ? _].
  apply succeeds_bind_lift; [exact Hy | intros ? _].
  repeat succeeds_step.
Qed.

Lemma add_connection_succeeds (W : world) (pin_maps : pin_maps_t)
    (conn : string * string) :
  succeeds (add_connection W pin_maps conn).
Proof.
  unfold add_connection. destruct conn as [src dst].
  destruct (parse_pair src dst pin_maps) as [[[sr sp] [dr dp]]|e];
    repeat succeeds_step.
Qed.

Lemma py_index_lt {A} (l : list A) (i : nat) :
  i < length l -> is_ok (py_index l i) = true.
Proof.
  intros H. unfold py_index.
  destruct (lookup_lt_is_Some_2 l i H) as [a ->]. reflexivity.
Qed.

Lemma add_power_net_succeeds (W : world) (pin_list : list string)
    (net_name : string) (pin_maps : pin_maps_t) :
  match pin_list with
  | [] => True
  | first :: _ => is_ok (_parse_pin_ref first pin_maps) = true
  end ->
  succeeds (_add_power_net W pin_list net_name pin_maps).
Proof.
  unfold _add_power_net. destruct pin_list as [|first rest].
  - intros _. apply succeeds_ret.
  - intros Hfirst. apply succeeds_bind_lift; [exact Hfirst | intros [ref pin] _].
    apply succeeds_bind; [unfold label_attempt; repeat succeeds_step | intros _].
    apply succeeds_for_each. intros i Hi.
    apply list_elem_of_In, in_seq in Hi. cbn [length] in *.
    apply succeeds_bind_lift; [apply py_index_lt; cbn [length]; lia | intros src _].
    apply succeeds_bind_lift; [apply py_index_lt; cbn [length]; lia | intros dst _].
    unfold join_attempt. repeat succeeds_step.
Qed.

Lemma succeeds_run {A} (m : M A) (tr : trace) :
  succeeds m -> exists a tr', m tr = (Ok a, tr').
Proof.
  intros H. specialize (H tr). destruct (m tr) as [[a|e] tr']; [eauto|].
  discriminate.
Qed.

Lemma bind_run {A B} (m : M A) (k : A -> M B) (tr tr' : trace) (a : A) :
  m tr = (Ok a, tr') -> bind m k tr = k a tr'.
Proof. intros H. unfold bind. now rewrite H. Qed.

Lemma call_essential_succeeds (W : world) (ev : event) :
  dependable W -> essential ev -> succeeds (call W ev).
Proof. intros [_ H] Hev tr. unfold call. simpl. now rewrite H. Qed.

Lemma ensure_ksa_succeeds (W : world) : dependable W -> succeeds (_ensure_ksa W).
Proof. intros [H _]. unfold _ensure_ksa. rewrite H. apply succeeds_ret. Qed.

Lemma get_output_path_succeeds (W : world) (filename : string)
    (output_dir : option string) :
  dependable W -> succeeds (_get_output_path W filename output_dir).
Proof.
  intros H. unfold _get_output_path.
  repeat (first [ apply call_essential_succeeds; [exact H | exact I]
                | succeeds_step ]).
Qed.

Lemma power_loop_succeeds (W : world) (pin_maps : pin_maps_t)
    (power_connections : option (list (list string * string))) :
  first_pins_parse pin_maps (default [] power_connections) ->
  succeeds
    match power_connections with
    | Some ((_ :: _) as groups) =>
        for_each groups (fun group : list string * string =>
          _add_power_net W (fst group) (snd group) pin_maps)
    | _ => ret tt
    end.
Proof.
  intros H. destruct power_connections as [[|g groups]|];
    try apply succeeds_ret.
  apply succeeds_for_each. intros group Hin.
  apply add_power_net_succeeds. exact (H group Hin).
Qed.

(** Apart from the first pin of a power group and from an explicit position
    that is not finite, [create_schematic] lives up to its propagation
    policy: in a dependable environment it returns a path, and the schematic
    was saved under that path, whatever the components, connections, later
    power pins, renderer and report do. *)
Lemma create_schematic_tolerant (W : world) (components : components_t)
    (connections : list (string * string)) (filename : string)
    (title : option string)
    (power_connections : option (list (list string * string)))
    (render_svg auto_layout : bool) (output_dir : option string) :
  dependable W ->
  finite_positions components -> modest_size components ->
  first_pins_parse (build_pin_maps components)
    (default [] power_connections) ->
  exists (path : string) (tr : trace),
    create_schematic W components connections filename title
      power_connections render_svg auto_layout output_dir [] = (Ok path, tr) /\
    EvSave path ∈ tr.
Proof.
  intros HW Hfin Hsize Hpins. unfold create_schematic. cbv zeta.
  destruct (succeeds_run _ [] (ensure_ksa_succeeds W HW)) as ([] & t1 & E1).
  rewrite (bind_run _ _ _ _ _ E1).
  destruct (succeeds_run _ t1
              (get_output_path_succeeds W filename output_dir HW))
    as (path & t2 & E2).
  rewrite (bind_run _ _ _ _ _ E2).
  destruct (succeeds_run _ t2
              (call_essential_succeeds W
                 (EvCreateSchematic (str_or title "Schematic")) HW I))
    as ([] & t3 & E3).
  rewrite (bind_run _ _ _ _ _ E3).
  destruct (succeeds_run
              (for_each components
                 (add_component W
                    (if auto_layout then _auto_layout_components components
                     else ∅))) t3
              (succeeds_for_each _ _
                 (fun x Hx =>
                    add_component_succeeds W _ x
                      (selected_snappable components auto_layout x Hfin
                         (fun _ => Hsize) Hx))))
    as ([] & t4 & E4).
  rewrite (bind_run _ _ _ _ _ E4).
  destruct (succeeds_run
              (for_each connections
                 (add_connection W (build_pin_maps components))) t4
              (succeeds_for_each _ _
                 (fun x _ => add_connection_succeeds W _ x)))
    as ([] & t5 & E5).
  rewrite (bind_run _ _ _ _ _ E5).
  destruct (succeeds_run _ t5
              (power_loop_succeeds W (build_pin_maps components)
                 power_connections Hpins))
    as ([] & t6 & E6).
  rewrite (bind_run _ _ _ _ _ E6).
  assert (E7 : call W (EvSave path) t6 = (Ok tt, t6 ++ [EvSave path])).
  { unfold call. now rewrite (proj2 HW t6 (EvSave path) I). }
  rewrite (bind_run _ _ _ _ _ E7).
  exists path.
  match goal with
  | |- exists tr, ?m ?t = _ /\ _ =>
      assert (Hs : succeeds m);
      [|assert (He : extends m);
        [|destruct (succeeds_run m t Hs) as (a & tr & E);
          destruct (He t) as [evs Hevs]]]
  end.
  - repeat first [ apply render_svg_succeeds
                 | apply generate_connection_md_succeeds
                 | succeeds_step ].
  - repeat extends_step.
  - assert (Ha : a = path).
    { revert E. clear. unfold bind, print, ret.
      repeat match goal with
             | |- context [match ?x with _ => _ end] =>
                 destruct x; simpl; try congruence
             end. }
    subst a. exists tr. split; [exact E|].
    rewrite E in Hevs. simpl in Hevs. subst tr.
    apply elem_of_app. left. apply elem_of_app. right. now left.
Qed.

Example hostile_world_still_saves :
  let run := create_schematic Posix.hostile divider
               [("R1.2", "R2.1"); ("R1", "R2.1")] "divider.kicad_sch" None
               (Some [(["R1.1"; "R2"], "VCC")]) true true None [] in
  fst run = Ok "KiCad/divider.kicad_sch" /\
  EvSave "KiCad/divider.kicad_sch" ∈ snd run /\
  EvPrint "Warning: Could not add component R1 (Device:R): refused" ∈ snd run /\
  EvPrint "Warning: kicad-cli not found. Install KiCad 9+ for SVG rendering."
    ∈ snd run.
Proof. vm_compute. repeat split; repeat constructor. Qed.

(** ** Attempts made for one power group *)

Lemma adjacent_length {A} (l : list A) : length (adjacent l) = length l - 1.
Proof.
  induction l as [|x [|y l] IH]; [reflexivity..|].
  cbn [adjacent length] in *. lia.
Qed.

Lemma bind_ext {A B} (m : M A) (k1 k2 : A -> M B) (tr : trace) :
  (forall a tr', k1 a tr' = k2 a tr') -> bind m k1 tr = bind m k2 tr.
Proof.
  intros H. unfold bind. destruct (m tr) as [[a|e] tr']; [apply H|].
  reflexivity.
Qed.

Lemma index_body {A} (whole : list string) (i : nat) (x y : string)
    (body : string -> string -> M A) (tr : trace) :
  py_index whole i = Ok x -> py_index whole (i + 1) = Ok y ->
  bind (lift (py_index whole i)) (fun src =>
  bind (lift (py_index whole (i + 1))) (fun dst => body src dst)) tr =
  body x y tr.
Proof.
  intros Hx Hy. unfold bind, lift. rewrite Hx. cbv beta iota. rewrite Hy.
  now destruct (body x y tr) as [[a|e] tr'].
Qed.

(** The index loop [for i in range(len(l) - 1)] visits the adjacent pairs. *)
Lemma index_loop_adjacent (body : string -> string -> M unit)
    (whole pre l : list string) (tr : trace) :
  whole = pre ++ l ->
  for_each (seq (length pre) (length l - 1))
    (fun i =>
       bind (lift (py_index whole i)) (fun src =>
       bind (lift (py_index whole (i + 1))) (fun dst => body src dst))) tr =
  for_each (adjacent l) (fun p => body (fst p) (snd p)) tr.
Proof.
  revert pre tr. induction l as [|x [|y l] IH]; intros pre tr Hw;
    [reflexivity..|].
  replace (length (x :: y :: l) - 1) with (S (length l)) by (simpl; lia).
  cbn [seq for_each adjacent fst snd].
  assert (Hx : py_index whole (length pre) = Ok x).
  { unfold py_index. subst whole. now rewrite list_lookup_middle. }
  assert (Hy : py_index whole (length pre + 1) = Ok y).
  { unfold py_index. subst whole.
    replace (pre ++ x :: y :: l) with ((pre ++ [x]) ++ y :: l)
      by now rewrite <- app_assoc.
    rewrite (list_lookup_middle (pre ++ [x]) l y (length pre + 1));
      [reflexivity|].
    rewrite length_app. simpl. lia. }
  unfold bind at 1. rewrite (index_body whole (length pre) x y body tr Hx Hy).
  fold (bind (body x y)
          (fun _ : unit =>
             for_each (seq (S (length pre)) (length l))
               (fun i =>
                  bind (lift (py_index whole i)) (fun src =>
                  bind (lift (py_index whole (i + 1)))
                    (fun dst => body src dst)))) tr).
  apply bind_ext. intros _ tr'.
  specialize (IH (pre ++ [x]) tr').
  rewrite length_app, Nat.add_1_r in IH. cbn [length] in IH.
  replace (S (length l) - 1) with (length l) in IH by lia.
  apply IH. subst whole. now rewrite <- app_assoc.
Qed.

Lemma label_attempt_events (W : world) (net_name ref pin : string)
    (tr : trace) :
  exists evs,
    label_attempt W net_name ref pin tr = (Ok tt, tr ++ evs) /\
    label_events ref pin net_name evs.
Proof.
  unfold label_attempt, try_except, bind, get_component_pin_position, call,
    print.
  destruct (reply_position W tr ref pin) as [pos|e]; cbv beta iota.
  - destruct (reply_unit W _ _) as [[]|e]; cbv beta iota.
    + eexists. split; [now rewrite <- app_assoc | apply label_placed].
    + eexists. split; [now rewrite <- !app_assoc | apply label_refused].
  - eexists. split; [now rewrite <- app_assoc | apply label_no_position].
Qed.

Lemma join_attempt_events (W : world) (pin_maps : pin_maps_t)
    (src dst : string) (tr : trace) :
  exists evs,
    join_attempt W pin_maps src dst tr = (Ok tt, tr ++ evs) /\
    join_events pin_maps src dst evs.
Proof.
  unfold join_attempt, try_except, bind, lift, call, print.
  destruct (parse_pair src dst pin_maps) as [[[sr sp] [dr dp]]|e] eqn:E;
    cbv beta iota.
  - destruct (reply_unit W _ _) as [[]|e]; cbv beta iota.
    + eexists. split; [reflexivity | now apply join_wired].
    + eexists. split; [now rewrite <- app_assoc | now apply join_refused].
  - eexists. split; [reflexivity | now apply (join_unparsed _ _ _ e)].
Qed.

Lemma join_loop_events (W : world) (pin_maps : pin_maps_t)
    (pairs : list (string * string)) (tr : trace) :
  exists joins : list (list event),
    for_each pairs (fun p => join_attempt W pin_maps (fst p) (snd p)) tr =
      (Ok tt, tr ++ concat joins) /\
    Forall2 (fun p evs => join_events pin_maps (fst p) (snd p) evs)
      pairs joins.
Proof.
  revert tr. induction pairs as [|[src dst] pairs IH]; intros tr.
  - exists []. simpl. rewrite app_nil_r. split; [reflexivity | constructor].
  - cbn [for_each fst snd].
    destruct (join_attempt_events W pin_maps src dst tr) as (evs & E & Hevs).
    rewrite (bind_run _ _ _ _ _ E).
    destruct (IH (tr ++ evs)) as (joins & E' & Hjoins).
    exists (evs :: joins). cbn [concat]. rewrite E', app_assoc.
    split; [reflexivity | now constructor].
Qed.

(** Where the first pin reference parses, C6 holds of the code: the group
    gets exactly one label placement attempt and then one join attempt per
    adjacent pair, in list order, [len(pin_list) - 1] in all; the function
    returns normally. *)
Lemma add_power_net_attempts (W : world) (first : string) (rest : list string)
    (net_name : string) (pin_maps : pin_maps_t) (tr : trace)
    (ref pin : string) :
  _parse_pin_ref first pin_maps = Ok (ref, pin) ->
  exists (label : list event) (joins : list (list event)),
    _add_power_net W (first :: rest) net_name pin_maps tr =
      (Ok tt, tr ++ label ++ concat joins) /\
    label_events ref pin net_name label /\
    Forall2 (fun p evs => join_events pin_maps (fst p) (snd p) evs)
      (adjacent (first :: rest)) joins /\
    length joins = length (first :: rest) - 1.
Proof.
  intros Hfirst. unfold _add_power_net.
  unfold bind at 1, lift at 1. rewrite Hfirst. cbv beta iota.
  destruct (label_attempt_events W net_name ref pin tr) as (label & E & Hl).
  rewrite (bind_run _ _ _ _ _ E).
  pose proof (index_loop_adjacent (join_attempt W pin_maps) (first :: rest) []
                (first :: rest) (tr ++ label) eq_refl) as Hloop.
  destruct (join_loop_events W pin_maps (adjacent (first :: rest))
              (tr ++ label)) as (joins & E' & Hj).
  exists label, joins. rewrite <- Hloop in E'.
  split; [|split; [exact Hl | split; [exact Hj|]]].
  - rewrite app_assoc. exact E'.
  - rewrite <- (Forall2_length _ _ _ Hj). apply adjacent_length.
Qed.

Lemma add_power_net_empty (W : world) (net_name : string)
    (pin_maps : pin_maps_t) (tr : trace) :
  _add_power_net W [] net_name pin_maps tr = (Ok tt, tr).
Proof. reflexivity. Qed.

Example power_net_three_pins :
  _add_power_net Posix.quiet ["U1.3V3"; "U2.3V3"; "R1.2"] "VCC" ∅ [] =
  (Ok tt,
   [EvGetComponentPinPosition "U1" "3V3"; EvAddLabel "VCC" (of_Q 2.54%Q, of_Q 0%Q);
    EvAddWireBetweenPins "U1" "3V3" "U2" "3V3";
    EvAddWireBetweenPins "U2" "3V3" "R1" "2"]).
Proof. vm_compute. reflexivity. Qed.

(** * Further properties of the helper *)

(** ** Rounding and snapping *)

(** X1: on the 2.54 mm grid [_snap_to_grid] returns for every finite value,
    and it moves a coordinate of magnitude at most 2^40 by at most 1.272 mm:
    half a grid unit and the rounding of binary64.  It raises
    [ZeroDivisionError] on a zero grid whatever the value is, [ValueError]
    on NaN and [OverflowError] on an infinity. *)
Theorem snap_to_grid_nearest (v : float) :
  (forall s : bool, _snap_to_grid v (S754_zero s) = Raise ZeroDivisionError) /\
  (finite64 v -> is_ok (_snap_to_grid v GRID_SPACING) = true) /\
  (in_range v ->
   exists s : float,
     _snap_to_grid v GRID_SPACING = Ok s /\ is_finite s = true /\
     (Qabs (F2Q s - F2Q v) <= 1272 # 1000)%Q) /\
  (v = S754_nan ->
   _snap_to_grid v GRID_SPACING =
   Raise (ValueError "cannot convert float NaN to integer")) /\
  (forall s : bool, v = S754_infinity s ->
   _snap_to_grid v GRID_SPACING =
   Raise (OverflowError "cannot convert float infinity to integer")).
Proof.
  split; [|split; [|split; [|split]]].
  - intros s. reflexivity.
  - apply snap_never_raises.
  - intros Hv. destruct (snap_idempotent v Hv) as (s & E & _ & Hs & Hd).
    exists s. now repeat split.
  - intros ->. reflexivity.
  - intros s ->. rewrite grid_spacing_value. reflexivity.
Qed.

Lemma snap_to_grid_nearest_witness :
  exists s : float,
    _snap_to_grid (of_Q 16.51%Q) GRID_SPACING = Ok s /\ is_finite s = true /\
    (Qabs (F2Q s - F2Q (of_Q 16.51%Q)) <= 1272 # 1000)%Q.
Proof.
  apply (proj1 (proj2 (proj2 (snap_to_grid_nearest (of_Q 16.51%Q))))).
  split; [reflexivity | vm_compute; discriminate].
Defined.

(** The values Python computes, ties and inexact products included. *)
Example snap_to_grid_examples :
  _snap_to_grid (of_Q 16.51%Q) GRID_SPACING = Ok (of_Q 17.78%Q) /\
  _snap_to_grid (of_Q 250%Q) GRID_SPACING = Ok (of_Q 248.92000000000002%Q) /\
  of_Q 248.92000000000002%Q <> of_Q 248.92%Q /\
  _snap_to_grid (of_Q 1.27%Q) GRID_SPACING = Ok (S754_zero false) /\
  _snap_to_grid (of_Q 3.81%Q) GRID_SPACING = Ok (of_Q 5.08%Q) /\
  _snap_to_grid (of_Q (-100)%Q) GRID_SPACING = Ok (of_Q (-99.06)%Q) /\
  _snap_to_grid (of_Q 1e-320%Q) GRID_SPACING = Ok (S754_zero false) /\
  _snap_to_grid (of_Q 1e300%Q) (of_Q 1e-10%Q) =
    Raise (OverflowError "cannot convert float infinity to integer").
Proof. vm_compute. repeat split; discriminate. Qed.

(** ** Auto-layout: no two components on one spot *)

(** Distinct slots lie at least 10 mm apart in one coordinate. *)
Lemma slots_apart (n : nat) (c1 c2 : category) (i1 i2 : nat) :
  (c1 = Controller -> i1 < n) -> (c2 = Controller -> i2 < n) ->
  (c1, i1) <> (c2, i2) ->
  apart 10 (slot_position n c1 i1) (slot_position n c2 i2).
Proof.
  intros H1 H2 Hne. unfold apart.
  pose proof (of_nat_nonneg n) as Hn.
  pose proof (of_nat_nonneg i1) as Hi1. pose proof (of_nat_nonneg i2) as Hi2.
  assert (Hcol : forall i, (0 <= of_nat (i mod 4) <= 3)%Q).
  { intros i. split; [apply of_nat_nonneg|].
    change 3%Q with (of_nat 3). apply of_nat_le.
    pose proof (Nat.mod_upper_bound i 4). lia. }
  pose proof (Hcol i1) as Hc1. pose proof (Hcol i2) as Hc2.
  destruct c1, c2;
    cbn [slot_position mcu_position passive_position other_position fst snd];
    unfold other_x, passive_x, y_offset, COMPONENT_SPACING_X,
      COMPONENT_SPACING_Y; rewrite ?half_spacing.
  - assert (Hi : i1 <> i2) by congruence.
    destruct (of_nat_ne i1 i2 Hi); [left | right; left]; lra.
  - specialize (H1 eq_refl). apply of_nat_lt in H1. left.
    lra.
  - specialize (H1 eq_refl). apply of_nat_lt in H1. left. lra.
  - specialize (H2 eq_refl). apply of_nat_lt in H2. right. left.
    lra.
  - assert (Hi : i1 <> i2) by congruence.
    destruct (Nat.eq_dec (i1 mod 4) (i2 mod 4)) as [Em|Em].
    + assert (Hd : (i1 / 4)%nat <> (i2 / 4)%nat).
      { intros Ed. apply Hi.
        rewrite (Nat.div_mod_eq i1 4), (Nat.div_mod_eq i2 4). lia. }
      destruct (of_nat_ne _ _ Hd); [right; right; left | right; right; right];
        lra.
    + destruct (of_nat_ne _ _ Em); [left | right; left]; lra.
  - left.
    lra.
  - specialize (H2 eq_refl). apply of_nat_lt in H2. right. left. lra.
  - right. left.
    lra.
  - assert (Hi : i1 <> i2) by congruence.
    destruct (of_nat_ne i1 i2 Hi);
      [right; right; left | right; right; right]; lra.
Qed.

(** A sheet coordinate up to 2^39 is snapped to a finite value at most
    1.273 mm away. *)
Lemma snap_coordinate (q : Q) :
  (0 <= q <= 2 ^ 39)%Q ->
  exists s : float,
    _snap_to_grid (of_Q q) GRID_SPACING = Ok s /\ is_finite s = true /\
    (Qabs (F2Q s - q) <= 1273 # 1000)%Q.
Proof.
  intros Hq. destruct (of_Q_coordinate q Hq) as [Hr Hc].
  destruct (snap_idempotent (of_Q q) Hr) as (s & E & _ & Hs & Hd).
  exists s. split; [exact E|]. split; [exact Hs|].
  apply Qabs_le_inv in Hc, Hd.
  set (x := F2Q (of_Q q)) in *. clearbody x. apply Qabs_le; lra.
Qed.

Lemma snap_laid_out_near (components : components_t) (ref : string)
    (p : Q * Q) :
  modest_size components ->
  _auto_layout_components components !! ref = Some p ->
  exists s : float * float,
    snap_laid_out p = Ok s /\
    (Qabs (fst (point_of s) - fst p) <= 1273 # 1000)%Q /\
    (Qabs (snd (point_of s) - snd p) <= 1273 # 1000)%Q.
Proof.
  intros Hsize Hp.
  destruct (layout_entry_bounds components ref p Hp) as [Hx Hy].
  pose proof (modest_layout_bound components Hsize) as Hb.
  destruct (snap_coordinate (fst p) ltac:(lra)) as (x & Ex & _ & Hxd).
  destruct (snap_coordinate (snd p) ltac:(lra)) as (y & Ey & _ & Hyd).
  exists (x, y). unfold snap_laid_out. rewrite Ex, Ey.
  split; [reflexivity|]. split; assumption.
Qed.

Lemma placed_at_bound (components : components_t) (ref : string) (i : nat) :
  placed_at components ref Controller i ->
  i < length (mcus (categorize components)).
Proof. intros [H _]. exact (lookup_lt_Some _ _ _ H). Qed.

(** X2: two different components of one dict of fewer than 2^32 entries get
    layout positions at least 10 mm apart in one coordinate; both positions
    snap to the 2.54 mm grid without an exception, and the snapped points
    are still at least 7 mm apart in one coordinate, so they are different
    grid points. *)
Theorem layout_positions_distinct (components : components_t)
    (ref1 ref2 : string) (spec1 spec2 : component_spec) :
  NoDup (keys components) -> modest_size components ->
  (ref1, spec1) ∈ components -> (ref2, spec2) ∈ components ->
  ref1 <> ref2 ->
  exists p1 p2 : Q * Q,
    _auto_layout_components components !! ref1 = Some p1 /\
    _auto_layout_components components !! ref2 = Some p2 /\
    apart 10 p1 p2 /\
    exists s1 s2 : float * float,
      snap_laid_out p1 = Ok s1 /\ snap_laid_out p2 = Ok s2 /\
      apart 7 (point_of s1) (point_of s2) /\ s1 <> s2.
Proof.
  intros Hnd Hsize H1 H2 Hne.
  destruct (placed_in_category components ref1 spec1 _ Hnd H1 eq_refl)
    as [[i1 Hp1] _].
  destruct (placed_in_category components ref2 spec2 _ Hnd H2 eq_refl)
    as [[i2 Hp2] _].
  set (c1 := classify (get_or (lib_id spec1) "")) in *.
  set (c2 := classify (get_or (lib_id spec2) "")) in *.
  set (n := length (mcus (categorize components))) in *.
  assert (Hslots : (c1, i1) <> (c2, i2)).
  { intros [= Ec Ei]. apply Hne.
    destruct Hp1 as [L1 _], Hp2 as [L2 _]. rewrite Ec, Ei in L1. congruence. }
  assert (Hgap : apart 10 (slot_position n c1 i1) (slot_position n c2 i2)).
  { apply slots_apart; [| |exact Hslots].
    - intros E. rewrite E in Hp1. exact (placed_at_bound _ _ _ Hp1).
    - intros E. rewrite E in Hp2. exact (placed_at_bound _ _ _ Hp2). }
  exists (slot_position n c1 i1), (slot_position n c2 i2).
  split; [exact (proj2 Hp1)|]. split; [exact (proj2 Hp2)|].
  split; [exact Hgap|].
  destruct (snap_laid_out_near components ref1 _ Hsize (proj2 Hp1))
    as (s1 & E1 & Hx1 & Hy1).
  destruct (snap_laid_out_near components ref2 _ Hsize (proj2 Hp2))
    as (s2 & E2 & Hx2 & Hy2).
  exists s1, s2. split; [exact E1|]. split; [exact E2|].
  apply Qabs_le_inv in Hx1, Hy1, Hx2, Hy2.
  assert (Hfar : apart 7 (point_of s1) (point_of s2)).
  { unfold apart in *. subst n.
    set (a1 := fst (point_of s1)) in *. set (b1 := snd (point_of s1)) in *.
    set (a2 := fst (point_of s2)) in *. set (b2 := snd (point_of s2)) in *.
    set (u1 := fst (slot_position _ c1 i1)) in *.
    set (v1 := snd (slot_position _ c1 i1)) in *.
    set (u2 := fst (slot_position _ c2 i2)) in *.
    set (v2 := snd (slot_position _ c2 i2)) in *.
    clearbody a1 b1 a2 b2 u1 v1 u2 v2.
    destruct Hgap as [G|[G|[G|G]]];
      [left | right; left | right; right; left | right; right; right]; lra. }
  split; [exact Hfar|].
  intros ->. unfold apart in Hfar. destruct Hfar as [G|[G|[G|G]]]; lra.
Qed.

Lemma layout_positions_distinct_witness :
  exists p1 p2 : Q * Q,
    _auto_layout_components layout_example !! "R1" = Some p1 /\
    _auto_layout_components layout_example !! "D1" = Some p2 /\
    apart 10 p1 p2 /\
    exists s1 s2 : float * float,
      snap_laid_out p1 = Ok s1 /\ snap_laid_out p2 = Ok s2 /\
      apart 7 (point_of s1) (point_of s2) /\ s1 <> s2.
Proof.
  apply (layout_positions_distinct layout_example "R1" "D1"
           (resistor "4.7k") (part "Device:LED") layout_example_NoDup).
  - vm_compute. reflexivity.
  - repeat constructor.
  - repeat constructor.
  - discriminate.
Defined.

(** ** Pin maps built from the component specs *)

Lemma pin_maps_fold_notin (components : components_t)
    (pin_maps : gmap string (gmap string string)) (ref : string) :
  ref ∉ keys components ->
  fold_left (fun (pm : gmap string (gmap string string))
                 (item : string * component_spec) =>
               <[fst item := get_or (pins (snd item)) ∅]> pm)
    components pin_maps !! ref = pin_maps !! ref.
Proof.
  revert pin_maps. induction components as [|[r s] l IH]; intros pm H.
  - reflexivity.
  - cbn [keys List.map fst] in H. apply not_elem_of_cons in H as [Hne Hl].
    cbn [fold_left fst snd]. rewrite (IH _ Hl).
    now rewrite lookup_insert_ne.
Qed.

Lemma pin_maps_fold_in (components : components_t)
    (pin_maps : gmap string (gmap string string)) (ref : string)
    (spec : component_spec) :
  NoDup (keys components) -> (ref, spec) ∈ components ->
  fold_left (fun (pm : gmap string (gmap string string))
                 (item : string * component_spec) =>
               <[fst item := get_or (pins (snd item)) ∅]> pm)
    components pin_maps !! ref = Some (get_or (pins spec) ∅).
Proof.
  revert pin_maps. induction components as [|[r s] l IH]; intros pm Hnd Hin.
  - inversion Hin.
  - cbn [keys List.map fst] in Hnd. apply NoDup_cons in Hnd as [Hr Hnd].
    cbn [fold_left fst snd]. apply elem_of_cons in Hin as [E|Hin].
    + injection E as -> ->. rewrite (pin_maps_fold_notin l _ r Hr).
      now rewrite lookup_insert_eq.
    + now apply IH.
Qed.

(** X3: with the pin maps [create_schematic] builds from its components,
    a reference ["ref.name"] to a supplied component resolves through that
    component's own [pins] (to [name] itself when the component has no
    [pins] or no entry for [name]), and a reference to a component that was
    not supplied is not an error: it resolves to [name] unchanged. *)
Theorem pin_resolution_per_component (components : components_t)
    (ref name : string) :
  NoDup (keys components) ->
  PyStr.count "." ref = 0 -> PyStr.count "." name = 0 ->
  (forall spec : component_spec,
     (ref, spec) ∈ components ->
     _parse_pin_ref (ref +:+ "." +:+ name) (build_pin_maps components) =
     Ok (ref, default name (get_or (pins spec) ∅ !! name))) /\
  (ref ∉ keys components ->
   _parse_pin_ref (ref +:+ "." +:+ name) (build_pin_maps components) =
   Ok (ref, name)).
Proof.
  intros Hnd Hr Hn. split.
  - intros spec Hin.
    rewrite (parse_pin_ref_well_formed ref name _ Hr Hn).
    unfold resolved_pin, build_pin_maps.
    now rewrite (pin_maps_fold_in components ∅ ref spec Hnd Hin).
  - intros Hnotin.
    rewrite (parse_pin_ref_well_formed ref name _ Hr Hn).
    unfold resolved_pin, build_pin_maps.
    now rewrite (pin_maps_fold_notin components ∅ ref Hnotin).
Qed.

Lemma pin_resolution_per_component_witness :
  _parse_pin_ref "U1.SDA" (build_pin_maps two_mcus) = Ok ("U1", "18") /\
  _parse_pin_ref "U2.SDA" (build_pin_maps two_mcus) = Ok ("U2", "4") /\
  _parse_pin_ref "J1.3" (build_pin_maps two_mcus) = Ok ("J1", "3").
Proof.
  assert (Hnd : NoDup (keys two_mcus))
    by (apply (bool_decide_unpack _); vm_compute; exact I).
  assert (H1 : ("U1", mk_spec (Some "MCU_Module:Teensy4.1") None
                        (Some {[ "SDA" := "18" ]}) None None) ∈ two_mcus)
    by repeat constructor.
  assert (H2 : ("U2", mk_spec (Some "MCU_Module:RP2040-Zero") None
                        (Some {[ "SDA" := "4" ]}) None None) ∈ two_mcus)
    by repeat constructor.
  assert (H3 : "J1" ∉ keys two_mcus)
    by (apply (bool_decide_unpack _); vm_compute; exact I).
  split; [|split].
  - exact (proj1 (pin_resolution_per_component two_mcus "U1" "SDA" Hnd
                    eq_refl eq_refl) _ H1).
  - exact (proj1 (pin_resolution_per_component two_mcus "U2" "SDA" Hnd
                    eq_refl eq_refl) _ H2).
  - exact (proj2 (pin_resolution_per_component two_mcus "J1" "3" Hnd
                    eq_refl eq_refl) H3).
Defined.

(** ** Signal classifier: case, precedence and shadowed table entries *)

Lemma upper_ascii_idem (c : ascii) :
  PyStr.upper_ascii (PyStr.upper_ascii c) = PyStr.upper_ascii c.
Proof. destruct c as [[] [] [] [] [] [] [] []]; reflexivity. Qed.

Lemma upper_ascii_dot (c : ascii) :
  Ascii.eqb (PyStr.upper_ascii c) "." = Ascii.eqb c ".".
Proof. destruct c as [[] [] [] [] [] [] [] []]; reflexivity. Qed.

Lemma upper_idem (s : string) : PyStr.upper (PyStr.upper s) = PyStr.upper s.
Proof.
  induction s as [|c s IH]; simpl; [reflexivity|].
  now rewrite upper_ascii_idem, IH.
Qed.

Lemma prefix_dot (c : ascii) (s : string) :
  String.prefix "." (String c s) = Ascii.eqb c ".".
Proof.
  change (String.prefix "." (String c s))
    with (match ascii_dec "." c with
          | left _ => String.prefix "" s
          | right _ => false
          end).
  destruct (ascii_dec "." c) as [<-|Hne].
  - now destruct s.
  - symmetry. apply Ascii.eqb_neq. congruence.
Qed.

Lemma contains_dot_upper (s : string) :
  PyStr.contains "." (PyStr.upper s) = PyStr.contains "." s.
Proof.
  induction s as [|c s IH]; [reflexivity|].
  cbn [PyStr.upper PyStr.contains]. rewrite !prefix_dot, upper_ascii_dot.
  now rewrite IH.
Qed.

Lemma split_aux_upper (s : string) :
  PyStr.split_aux "." (PyStr.upper s) =
  (PyStr.upper (fst (PyStr.split_aux "." s)),
   List.map PyStr.upper (snd (PyStr.split_aux "." s))).
Proof.
  induction s as [|c s IH]; [reflexivity|].
  cbn [PyStr.upper PyStr.split_aux]. rewrite IH, upper_ascii_dot.
  destruct (PyStr.split_aux "." s) as [h t].
  now destruct (Ascii.eqb c ".").
Qed.

Lemma index_last_map {A B} (f : A -> B) (l : list A) :
  PyStr.index_last (List.map f l) =
  (x <-r PyStr.index_last l; Ok (f x)).
Proof.
  unfold PyStr.index_last.
  assert (H : forall (d : option A),
            List.last (List.map Some (List.map f l)) (option_map f d) =
            option_map f (List.last (List.map Some l) d)).
  { induction l as [|a [|b l] IH]; intros d; [reflexivity..|].
    exact (IH d). }
  specialize (H None). cbn [option_map] in H. rewrite H.
  now destruct (List.last (List.map Some l) None).
Qed.

Lemma trailing_pin_upper (x : string) :
  trailing_pin (PyStr.upper x) (PyStr.upper (PyStr.upper x)) =
  trailing_pin x (PyStr.upper x).
Proof.
  unfold trailing_pin. rewrite contains_dot_upper, upper_idem.
  destruct (PyStr.contains "." x); [|reflexivity].
  unfold PyStr.split. rewrite split_aux_upper.
  destruct (PyStr.split_aux "." x) as [h t]. cbn [fst snd].
  change (PyStr.upper h :: List.map PyStr.upper t)
    with (List.map PyStr.upper (h :: t)).
  rewrite index_last_map.
  destruct (PyStr.index_last (h :: t)) as [p|e]; [|reflexivity].
  cbn [rbind]. now rewrite upper_idem.
Qed.

Lemma infer_signal_type_upper (src dst : string) :
  _infer_signal_type (PyStr.upper src) (PyStr.upper dst) =
  _infer_signal_type src dst.
Proof.
  unfold _infer_signal_type.
  now rewrite !trailing_pin_upper, !upper_idem.
Qed.

(** X4: the classifier is case-insensitive: two pairs of references that
    agree once upper-cased get the same label. *)
Theorem infer_signal_type_case_insensitive (src dst src' dst' : string) :
  PyStr.upper src = PyStr.upper src' ->
  PyStr.upper dst = PyStr.upper dst' ->
  _infer_signal_type src dst = _infer_signal_type src' dst'.
Proof.
  intros Hs Hd.
  rewrite <- (infer_signal_type_upper src dst), Hs, Hd.
  apply infer_signal_type_upper.
Qed.

Lemma infer_signal_type_case_insensitive_witness :
  _infer_signal_type "u1.Sda" "U2.sda" = _infer_signal_type "U1.SDA" "u2.SDA".
Proof.
  apply (infer_signal_type_case_insensitive "u1.Sda" "U2.sda" "U1.SDA" "u2.SDA");
    reflexivity.
Defined.

Lemma scan_patterns_hit (table : list (string * string))
    (combined label : string) :
  scan_patterns table combined = label -> label <> "" ->
  exists keyword, In (keyword, label) table /\
                  PyStr.contains keyword combined = true.
Proof.
  induction table as [|[k l] table IH]; simpl; [congruence|].
  destruct (PyStr.contains k combined) eqn:E.
  - intros -> _. exists k. split; [now left | exact E].
  - intros H Hne. destruct (IH H Hne) as (k' & Hin & Hc).
    exists k'. split; [now right | exact Hc].
Qed.

Lemma can_entries_hold_can (keyword label : string) :
  In (keyword, label) SIGNAL_PATTERNS -> In label can_labels ->
  PyStr.contains "CAN" keyword = true.
Proof.
  intros Hin Hl.
  assert (H : forallb (fun entry : string * string =>
                implb (existsb (String.eqb (snd entry)) can_labels)
                      (PyStr.contains "CAN" (fst entry)))
                SIGNAL_PATTERNS = true) by reflexivity.
  rewrite forallb_forall in H. specialize (H _ Hin). cbn [fst snd] in H.
  assert (E : existsb (String.eqb label) can_labels = true).
  { apply existsb_exists. exists label. split; [exact Hl|].
    apply String.eqb_refl. }
  now rewrite E in H.
Qed.

Lemma can_branch_labels (src dst label : string) :
  PyStr.contains "CAN" (PyStr.upper src +:+ PyStr.upper dst) = true ->
  _infer_signal_type src dst = Ok label -> In label can_labels.
Proof.
  unfold _infer_signal_type. intros ->.
  repeat (match goal with
          | |- context [if ?b then _ else _] => destruct b
          end);
    intros [= <-]; simpl; tauto.
Qed.

(** X5: a pair is given one of the CAN labels exactly when its upper-cased
    references contain "CAN"; so a CAN_TX/CAN_RX pair is never taken for a
    UART, and the CAN entries of the keyword table are never what decides. *)
Theorem infer_signal_type_can_exact (src dst label : string) :
  _infer_signal_type src dst = Ok label ->
  (In label can_labels <->
   PyStr.contains "CAN" (PyStr.upper src +:+ PyStr.upper dst) = true).
Proof.
  unfold _infer_signal_type.
  destruct (PyStr.contains "CAN" _) eqn:Hcan.
  - intros H. split; [reflexivity|]. intros _. revert H.
    repeat (match goal with
            | |- context [if ?b then _ else _] => destruct b
            end);
      intros [= <-]; simpl; tauto.
  - destruct (trailing_pin_total src (PyStr.upper src)) as [sp ->].
    destruct (trailing_pin_total dst (PyStr.upper dst)) as [dp ->].
    cbn [rbind]. intros H. split; [|discriminate]. intros Hl. exfalso.
    revert H.
    destruct (_ || _); [intros [= <-]; simpl in Hl; intuition discriminate|].
    destruct (_ || _); [intros [= <-]; simpl in Hl; intuition discriminate|].
    remember (scan_patterns SIGNAL_PATTERNS
                (PyStr.upper src +:+ PyStr.upper dst)) as scanned eqn:H.
    intros [= ->]. symmetry in H.
    destruct (scan_patterns_hit _ _ _ H) as (k & Hin & Hk).
    { intros ->. simpl in Hl. intuition discriminate. }
    pose proof (contains_trans _ _ _ (can_entries_hold_can k label Hin Hl) Hk)
      as Hc.
    congruence.
Qed.

Lemma infer_signal_type_can_exact_witness :
  In "CAN TX" can_labels <->
  PyStr.contains "CAN" (PyStr.upper "U1.CAN_TX" +:+ PyStr.upper "U2.CAN_RX")
  = true.
Proof.
  apply (infer_signal_type_can_exact "U1.CAN_TX" "U2.CAN_RX" "CAN TX").
  reflexivity.
Defined.

(** X6: the table entry for "SCLK" is shadowed by the earlier entry "SCL":
    a pair whose upper-cased references contain "SCLK" is never labelled
    "SPI Clock".  Its label is decided by the first rule that applies: a
    CAN label when the references contain "CAN", else "RS-485" when a
    trailing pin name is a transceiver pin, else "UART" for a TX/RX cross,
    else "I2C Data" when they contain "SDA", and "I2C Clock" in every
    remaining case. *)
Theorem infer_signal_type_sclk_shadowed (src dst label : string) :
  PyStr.contains "SCLK" (combined_of src dst) = true ->
  _infer_signal_type src dst = Ok label ->
  label <> "SPI Clock" /\
  (PyStr.contains "CAN" (combined_of src dst) = true ->
   In label can_labels) /\
  (PyStr.contains "CAN" (combined_of src dst) = false ->
   (rs485_rule src dst = true -> label = "RS-485") /\
   (rs485_rule src dst = false ->
    (uart_rule src dst = true -> label = "UART") /\
    (uart_rule src dst = false ->
     (PyStr.contains "SDA" (combined_of src dst) = true ->
      label = "I2C Data") /\
     (PyStr.contains "SDA" (combined_of src dst) = false ->
      label = "I2C Clock")))).
Proof.
  unfold combined_of. intros Hsclk.
  assert (Hscl : PyStr.contains "SCL"
                   (PyStr.upper src +:+ PyStr.upper dst) = true).
  { apply contains_trans with (b := "SCLK"); [reflexivity | exact Hsclk]. }
  intros H.
  destruct (PyStr.contains "CAN" (PyStr.upper src +:+ PyStr.upper dst))
    eqn:Hcan.
  - pose proof (can_branch_labels src dst label Hcan H) as Hl.
    split; [|split; [intros _; exact Hl | discriminate]].
    intros ->. simpl in Hl. intuition discriminate.
  - revert H. unfold _infer_signal_type, rs485_rule, uart_rule. rewrite Hcan.
    destruct (trailing_pin_total src (PyStr.upper src)) as [sp ->].
    destruct (trailing_pin_total dst (PyStr.upper dst)) as [dp ->].
    cbn [rbind].
    destruct (_ || _).
    { intros [= <-]. split; [discriminate|]. split; [discriminate|].
      intros _. split; [reflexivity | discriminate]. }
    destruct (_ || _).
    { intros [= <-]. split; [discriminate|]. split; [discriminate|].
      intros _. split; [discriminate|]. intros _.
      split; [reflexivity | discriminate]. }
    unfold SIGNAL_PATTERNS. cbn [scan_patterns].
    destruct (PyStr.contains "SDA" _).
    { intros [= <-]. split; [discriminate|]. split; [discriminate|].
      intros _. split; [discriminate|]. intros _. split; [discriminate|].
      intros _. split; [reflexivity | discriminate]. }
    rewrite Hscl. intros [= <-]. split; [discriminate|].
    split; [discriminate|]. intros _. split; [discriminate|]. intros _.
    split; [discriminate|]. intros _. split; [discriminate | reflexivity].
Qed.

Lemma infer_signal_type_sclk_shadowed_witness :
  _infer_signal_type "U1.SCLK" "U2.SCLK" = Ok "I2C Clock" /\
  "I2C Clock" = "I2C Clock".
Proof.
  split; [reflexivity|].
  destruct (infer_signal_type_sclk_shadowed "U1.SCLK" "U2.SCLK" "I2C Clock"
              eq_refl eq_refl) as (_ & _ & H).
  destruct (H eq_refl) as [_ H1]. destruct (H1 eq_refl) as [_ H2].
  destruct (H2 eq_refl) as [_ H3]. exact (H3 eq_refl).
Defined.

(** ** Output path *)

Lemma existsb_is_makedirs_app (p : string) (tr evs : trace) :
  existsb (is_makedirs p) tr = true ->
  existsb (is_makedirs p) (tr ++ evs) = true.
Proof. intros H. rewrite existsb_app, H. reflexivity. Qed.

Lemma fresh_disk_faithful : faithful_fs fresh_disk.
Proof.
  split; [reflexivity|]. split.
  - intros tr p H. exact H.
  - intros tr evs p H. simpl in *. now apply existsb_is_makedirs_app.
Qed.

(** X7: on a file system that behaves, resolving the same output name twice
    gives the same path both times; the first call creates the directory at
    most once, and only after finding it absent; the second call creates
    nothing. *)
Theorem get_output_path_twice (W : world) (filename : string)
    (output_dir : option string) (tr : trace) :
  faithful_fs W ->
  exists (path : string) (evs1 evs2 : list event),
    _get_output_path W filename output_dir tr = (Ok path, tr ++ evs1) /\
    _get_output_path W filename output_dir (tr ++ evs1) =
      (Ok path, (tr ++ evs1) ++ evs2) /\
    Forall no_makedirs evs2 /\
    (evs1 = [] \/
     evs1 = [EvPathExists (os_path_dirname W path)] \/
     (reply_bool W tr (EvPathExists (os_path_dirname W path)) = false /\
      evs1 = [EvPathExists (os_path_dirname W path);
              EvMakedirs (os_path_dirname W path);
              EvPrint ("Created directory: " +:+ os_path_dirname W path)])).
Proof.
  intros (Hmk & Hrem & Hmono). unfold _get_output_path.
  set (path := if PyStr.truthy (os_path_dirname W filename) then filename
               else os_path_join W (str_or output_dir DEFAULT_OUTPUT_DIR)
                      filename).
  set (dir := os_path_dirname W path).
  exists path. destruct (PyStr.truthy dir).
  - unfold bind, probe, call, print, ret.
    destruct (reply_bool W tr (EvPathExists dir)) eqn:E.
    + exists [EvPathExists dir], [EvPathExists dir].
      rewrite (Hmono tr [EvPathExists dir] dir E).
      repeat split; [repeat constructor | tauto].
    + rewrite Hmk.
      exists [EvPathExists dir; EvMakedirs dir;
              EvPrint ("Created directory: " +:+ dir)], [EvPathExists dir].
      rewrite <- !app_assoc. cbn [app].
      rewrite (Hrem (tr ++ [EvPathExists dir; EvMakedirs dir;
                            EvPrint ("Created directory: " +:+ dir)]) dir).
      * repeat split; [repeat constructor | tauto].
      * rewrite existsb_app. cbn [existsb is_makedirs].
        rewrite String.eqb_refl. now rewrite !orb_true_r.
  - exists [], []. unfold bind, ret. rewrite !app_nil_r.
    repeat split; [constructor | tauto].
Qed.

Lemma get_output_path_twice_witness :
  exists (path : string) (evs1 evs2 : list event),
    _get_output_path fresh_disk "divider.kicad_sch" None [] =
      (Ok path, [] ++ evs1) /\
    _get_output_path fresh_disk "divider.kicad_sch" None ([] ++ evs1) =
      (Ok path, ([] ++ evs1) ++ evs2) /\
    Forall no_makedirs evs2 /\
    (evs1 = [] \/
     evs1 = [EvPathExists (os_path_dirname fresh_disk path)] \/
     (reply_bool fresh_disk [] (EvPathExists (os_path_dirname fresh_disk path))
      = false /\
      evs1 = [EvPathExists (os_path_dirname fresh_disk path);
              EvMakedirs (os_path_dirname fresh_disk path);
              EvPrint ("Created directory: " +:+
                       os_path_dirname fresh_disk path)])).
Proof.
  exact (get_output_path_twice fresh_disk "divider.kicad_sch" None []
           fresh_disk_faithful).
Defined.

Example get_output_path_fresh :
  _get_output_path fresh_disk "divider.kicad_sch" None [] =
  (Ok "KiCad/divider.kicad_sch",
   [EvPathExists "KiCad"; EvMakedirs "KiCad";
    EvPrint "Created directory: KiCad"]) /\
  _get_output_path fresh_disk "out/divider.kicad_sch" (Some "ignored") [] =
  (Ok "out/divider.kicad_sch",
   [EvPathExists "out"; EvMakedirs "out"; EvPrint "Created directory: out"]).
Proof. split; vm_compute; reflexivity. Qed.

(** ** Fatal conditions of a build *)

(** X12: without the schematic library both entry points raise
    [ImportError] at once: nothing is printed, probed, created or called. *)
Theorem missing_library_fails_first (W : world) (components : components_t)
    (connections : list (string * string)) (filename : string)
    (title : option string)
    (power_connections : option (list (list string * string)))
    (render_svg auto_layout : bool) (output_dir : option string)
    (mcu1_name mcu1_lib_id : string) (mcu1_pins : gmap string string)
    (mcu2_name mcu2_lib_id : string) (mcu2_pins : gmap string string)
    (pairs : list (string * string)) (i2c_pins : option (list string))
    (pullup_value : string) (tr : trace) :
  ksa_installed W = false ->
  create_schematic W components connections filename title power_connections
    render_svg auto_layout output_dir tr =
  (Raise (ImportError
     "kicad-sch-api is required. Install with: pip install kicad-sch-api"),
   tr) /\
  draw_mcu_connection W mcu1_name mcu1_lib_id mcu1_pins mcu2_name mcu2_lib_id
    mcu2_pins pairs filename title i2c_pins pullup_value render_svg
    output_dir tr =
  (Raise (ImportError
     "kicad-sch-api is required. Install with: pip install kicad-sch-api"),
   tr).
Proof.
  intros H.
  assert (Hc : forall comps conns power layout,
    create_schematic W comps conns filename title power render_svg layout
      output_dir tr =
    (Raise (ImportError
       "kicad-sch-api is required. Install with: pip install kicad-sch-api"),
     tr)).
  { intros. unfold create_schematic, bind at 1, _ensure_ksa.
    now rewrite H. }
  split; [apply Hc|].
  unfold draw_mcu_connection.
  destruct (index_last_split ":" mcu1_lib_id) as [v1 E1].
  destruct (index_last_split ":" mcu2_lib_id) as [v2 E2].
  unfold bind at 1, lift at 1. rewrite E1.
  unfold bind at 1, lift at 1. rewrite E2.
  apply Hc.
Qed.

Lemma missing_library_fails_first_witness :
  create_schematic no_library divider [("R1.2", "R2.1")] "divider.kicad_sch"
    None None true true None [] =
  (Raise (ImportError
     "kicad-sch-api is required. Install with: pip install kicad-sch-api"),
   []) /\
  draw_mcu_connection no_library "U1" "MCU_Module:Teensy4.1" ∅ "U2"
    "MCU_Module:RP2040-Zero" ∅ [("SDA", "SDA")] "divider.kicad_sch" None
    (Some ["SDA"]) "4.7k" true None [] =
  (Raise (ImportError
     "kicad-sch-api is required. Install with: pip install kicad-sch-api"),
   []).
Proof.
  apply (missing_library_fails_first no_library divider [("R1.2", "R2.1")]
           "divider.kicad_sch" None None true true None
           "U1" "MCU_Module:Teensy4.1" ∅ "U2" "MCU_Module:RP2040-Zero" ∅
           [("SDA", "SDA")] (Some ["SDA"]) "4.7k" []).
  reflexivity.
Defined.

(** X13: when saving the schematic fails, [create_schematic] ends in an
    exception; the renderer is not run, the report is not written, and
    none of the lines "Saved: ...", "Rendered: ..." and "Documentation: ..."
    is printed. *)
Theorem save_failure_is_fatal (W : world) (components : components_t)
    (connections : list (string * string)) (filename : string)
    (title : option string)
    (power_connections : option (list (list string * string)))
    (render_svg auto_layout : bool) (output_dir : option string) :
  (forall tr f, is_ok (reply_unit W tr (EvSave f)) = false) ->
  is_ok (fst (create_schematic W components connections filename title
                power_connections render_svg auto_layout output_dir []))
  = false /\
  Forall nothing_after_save
    (snd (create_schematic W components connections filename title
            power_connections render_svg auto_layout output_dir [])).
Proof.
  intros Hsave. unfold create_schematic. cbv zeta.
  assert (Hcall : forall f, always_raises (call W (EvSave f))).
  { intros f tr. unfold call. simpl. apply Hsave. }
  split.
  - do 6 (apply always_raises_bind; intros ?).
    apply always_raises_bind_l, Hcall.
  - match goal with
    | |- Forall _ (snd (?m [])) =>
        enough (Hk : keeps nothing_after_save m) by (apply Hk; constructor)
    end.
    do 6 (apply keeps_bind;
          [repeat keeps_open; first [exact I | reflexivity] | intros ?]).
    apply keeps_bind_raises; [|apply Hcall].
    apply keeps_call. exact I.
Qed.

Lemma save_failure_is_fatal_witness :
  is_ok (fst (create_schematic read_only divider [("R1.2", "R2.1")]
                "divider.kicad_sch" None None true true None []))
  = false /\
  Forall nothing_after_save
    (snd (create_schematic read_only divider [("R1.2", "R2.1")]
            "divider.kicad_sch" None None true true None [])).
Proof.
  apply (save_failure_is_fatal read_only divider [("R1.2", "R2.1")]
           "divider.kicad_sch" None None true true None).
  reflexivity.
Defined.

(** ** Renderer and report *)

(** X8: [_render_svg] never raises.  When the renderer cannot be run, or
    exits with a non-zero status, it prints one line and returns [None]
    without touching the file system; when the renderer exits with status 0
    and no nested output is found, it returns the expected SVG path, whether
    or not a file is there. *)
Theorem render_svg_outcomes (W : world) (kicad_sch_path : string)
    (tr : trace) :
  let output_dir := str_or (Some (os_path_dirname W kicad_sch_path)) "." in
  let base_name :=
    PyStr.replace (os_path_basename W kicad_sch_path) ".kicad_sch" "" in
  let svg_path := os_path_join W output_dir (base_name +:+ ".svg") in
  let args := ["kicad-cli"; "sch"; "export"; "svg"; "-o"; output_dir;
               kicad_sch_path] in
  is_ok (fst (_render_svg W kicad_sch_path tr)) = true /\
  (forall e, reply_run W tr args = Raise e ->
     _render_svg W kicad_sch_path tr =
     (Ok None, tr ++ [EvSubprocessRun args; EvPrint (render_warning e)])) /\
  (forall completed, reply_run W tr args = Ok completed ->
     returncode completed <> 0%Z ->
     _render_svg W kicad_sch_path tr =
     (Ok None, tr ++ [EvSubprocessRun args;
                      EvPrint ("kicad-cli error: " +:+ stderr completed)])) /\
  (forall completed, reply_run W tr args = Ok completed ->
     returncode completed = 0%Z ->
     reply_bool W (tr ++ [EvSubprocessRun args])
       (EvPathExists (os_path_join W svg_path (base_name +:+ ".svg")))
     = false ->
     fst (_render_svg W kicad_sch_path tr) = Ok (Some svg_path)).
Proof.
  intros output_dir base_name svg_path args.
  split; [apply render_svg_succeeds|].
  unfold _render_svg. fold output_dir base_name svg_path args.
  split; [|split].
  - intros e Hr. unfold try_except, bind at 1, subprocess_run. rewrite Hr.
    unfold bind, print, ret.
    destruct e; cbv beta iota; now rewrite <- app_assoc.
  - intros completed Hr Hrc.
    unfold try_except, bind at 1, subprocess_run. rewrite Hr.
    rewrite (proj2 (Z.eqb_neq _ _) Hrc).
    unfold bind, print, ret. now rewrite <- app_assoc.
  - intros completed Hr Hrc Hnested.
    unfold try_except, bind at 1, subprocess_run. rewrite Hr, Hrc.
    cbn [Z.eqb].
    unfold bind, probe, ret. rewrite Hnested.
    now repeat match goal with
               | |- context [if ?b then _ else _] => destruct b
               end.
Qed.

Lemma render_svg_outcomes_witness :
  _render_svg Posix.hostile "KiCad/divider.kicad_sch" [] =
  (Ok None,
   [EvSubprocessRun ["kicad-cli"; "sch"; "export"; "svg"; "-o"; "KiCad";
                     "KiCad/divider.kicad_sch"];
    EvPrint "Warning: kicad-cli not found. Install KiCad 9+ for SVG rendering."])
  /\
  fst (_render_svg Posix.quiet "KiCad/divider.kicad_sch" []) =
  Ok (Some "KiCad/divider.svg").
Proof.
  split.
  - exact (proj1 (proj2 (render_svg_outcomes Posix.hostile
                           "KiCad/divider.kicad_sch" []))
             FileNotFoundError eq_refl).
  - exact (proj2 (proj2 (proj2 (render_svg_outcomes Posix.quiet
                                  "KiCad/divider.kicad_sch" [])))
             (mk_completed 0 "") eq_refl eq_refl eq_refl).
Defined.

Lemma rmap_total {A B} (f : A -> result B) (l : list A) :
  (forall x, exists y, f x = Ok y) ->
  exists ys, rmap f l = Ok ys /\ length ys = length l.
Proof.
  intros Hf. induction l as [|x l (ys & E & Hlen)].
  - exists []. now split.
  - destruct (Hf x) as [y Hy]. exists (y :: ys). cbn [rmap].
    rewrite Hy. cbn [rbind]. rewrite E. cbn [rbind length].
    split; [reflexivity | now rewrite Hlen].
Qed.

Lemma part_name_total (lib : string) : exists t, part_name lib = Ok t.
Proof.
  unfold part_name. destruct (PyStr.contains ":" lib); [|eauto].
  apply index_last_split.
Qed.

(** Building the report cannot fail, and the report has one row per
    component and per connection. *)
Lemma md_lines_total (W : world) (kicad_sch_path : string)
    (title : option string) (components : components_t)
    (connections : list (string * string))
    (power_connections : option (list (list string * string))) :
  exists lines,
    md_lines W kicad_sch_path title components connections power_connections
    = Ok lines /\
    length lines =
      13 + length components + length connections
      + match power_connections with
        | Some ((_ :: _) as groups) => 4 + length groups
        | _ => 0
        end
      + (if (2 <=? length
               (List.filter (fun item : string * component_spec =>
                  existsb (fun x =>
                             PyStr.contains x (get_or (lib_id (snd item)) ""))
                    md_mcu_markers) components))%nat
         then 2 else 0).
Proof.
  unfold md_lines.
  match goal with
  | |- context [rbind (rmap ?f components) _] =>
      destruct (rmap_total f components) as (rows & -> & Hrows)
  end.
  { intros [ref spec].
    destruct (part_name_total (get_or (lib_id spec) "Unknown")) as [t ->].
    cbn [rbind]. eauto. }
  cbn [rbind].
  match goal with
  | |- context [rbind (rmap ?f connections) _] =>
      destruct (rmap_total f connections) as (crows & -> & Hcrows)
  end.
  { intros [src dst].
    destruct (infer_signal_type_total src dst) as [label ->].
    cbn [rbind]. eauto. }
  cbn [rbind]. eexists. split; [reflexivity|].
  rewrite !length_app, Hrows, Hcrows. cbn [length].
  destruct power_connections as [[|g groups]|];
    destruct (2 <=? _)%nat; cbn [length app];
    rewrite ?length_app, ?length_map; cbn [length]; lia.
Qed.

(** X9: [_generate_connection_md] never raises and writes at most one file:
    it builds the report (one row per component and per connection), tries
    to write it next to the schematic, and returns the report path when the
    write works, [None] after one warning when it does not. *)
Theorem generate_connection_md_outcomes (W : world) (kicad_sch_path : string)
    (title : option string) (components : components_t)
    (connections : list (string * string))
    (power_connections : option (list (list string * string)))
    (tr : trace) :
  let md_path := PyStr.replace kicad_sch_path ".kicad_sch" ".md" in
  exists lines : list string,
    md_lines W kicad_sch_path title components connections power_connections
    = Ok lines /\
    length components + length connections + 13 <= length lines /\
    match reply_unit W tr (EvWriteFile md_path (PyStr.join nl lines)) with
    | Ok _ =>
        _generate_connection_md W kicad_sch_path title components connections
          power_connections tr =
        (Ok (Some md_path),
         tr ++ [EvWriteFile md_path (PyStr.join nl lines)])
    | Raise e =>
        _generate_connection_md W kicad_sch_path title components connections
          power_connections tr =
        (Ok None,
         tr ++ [EvWriteFile md_path (PyStr.join nl lines);
                EvPrint ("Warning: Could not generate markdown: " +:+
                         exn_str e)])
    end.
Proof.
  intros md_path.
  destruct (md_lines_total W kicad_sch_path title components connections
              power_connections) as (lines & E & Hlen).
  exists lines. split; [exact E|]. split; [lia|].
  unfold _generate_connection_md. fold md_path.
  unfold try_except, bind, lift, call, print, ret. rewrite E.
  destruct (reply_unit W tr _) as [[]|e]; [reflexivity|].
  now rewrite <- app_assoc.
Qed.

(** ** A whole build *)

Ltac extends_open :=
  lazymatch goal with
  | |- extends (_ensure_ksa _) => unfold _ensure_ksa
  | |- extends (_get_output_path _ _ _) => unfold _get_output_path
  | |- extends (_add_power_net _ _ _ _) => unfold _add_power_net
  | |- extends (label_attempt _ _ _ _) => unfold label_attempt
  | |- extends (join_attempt _ _ _ _) => unfold join_attempt
  | |- extends (add_component _ _ _) => unfold add_component
  | |- extends (add_connection _ _ _) => unfold add_connection
  | |- _ => extends_step
  end.

Lemma runs_of {A} (m : M A) : succeeds m -> extends m -> runs m.
Proof.
  intros Hs He tr. destruct (succeeds_run m tr Hs) as (a & tr' & E).
  destruct (He tr) as [evs Hevs]. rewrite E in Hevs. simpl in Hevs.
  subst tr'. eauto.
Qed.

Lemma is_ok_inv {A} (r : result A) : is_ok r = true -> exists a, r = Ok a.
Proof. destruct r as [a|e]; [eauto | discriminate]. Qed.

Lemma Ok_inj {A} (a b : A) : Ok a = Ok b -> a = b.
Proof. intros [= H]. exact H. Qed.

Lemma add_component_event (W : world) (positions : positions_t)
    (ref : string) (spec : component_spec) (tr : trace) :
  snappable positions (ref, spec) ->
  exists (pos : float * float) (evs : list event),
    add_component W positions (ref, spec) tr =
    (Ok tt,
     tr ++ EvComponentsAdd (get_or (lib_id spec) "Device:R") ref
             (get_or (value spec) "") pos
             (if PyStr.truthy (get_or (footprint spec) "")
              then Some (get_or (footprint spec) "") else None) :: evs) /\
    snapped_to positions ref spec pos.
Proof.
  intros [Hx Hy]. cbn [fst snd] in Hx, Hy.
  apply is_ok_inv in Hx as [x Ex]. apply is_ok_inv in Hy as [y Ey].
  exists (x, y). unfold add_component.
  unfold bind at 1, lift at 1. rewrite Ex.
  unfold bind at 1, lift at 1. rewrite Ey.
  unfold try_except, call, print.
  destruct (reply_unit W tr _) as [[]|e].
  - exists []. split; [reflexivity | split; assumption].
  - eexists [_]. split; [rewrite <- app_assoc; reflexivity | split; assumption].
Qed.

Lemma component_loop_events (W : world) (positions : positions_t)
    (components : components_t) (tr : trace) :
  (forall item, item ∈ components -> snappable positions item) ->
  exists evs : list event,
    for_each components (add_component W positions) tr = (Ok tt, tr ++ evs) /\
    forall ref spec, (ref, spec) ∈ components ->
      exists pos : float * float,
        snapped_to positions ref spec pos /\
        EvComponentsAdd (get_or (lib_id spec) "Device:R") ref
          (get_or (value spec) "") pos
          (if PyStr.truthy (get_or (footprint spec) "")
           then Some (get_or (footprint spec) "") else None) ∈ evs.
Proof.
  revert tr. induction components as [|[r s] l IH]; intros tr Hsnap.
  - exists []. rewrite app_nil_r. split; [reflexivity|].
    intros ref spec H. inversion H.
  - destruct (add_component_event W positions r s tr
                (Hsnap (r, s) ltac:(now left)))
      as (pos & e1 & E & Hpos).
    cbn [for_each]. rewrite (bind_run _ _ _ _ _ E).
    destruct (IH (tr ++ EvComponentsAdd (get_or (lib_id s) "Device:R") r
                          (get_or (value s) "") pos
                          (if PyStr.truthy (get_or (footprint s) "")
                           then Some (get_or (footprint s) "") else None)
                        :: e1)
                (fun item Hin => Hsnap item ltac:(now right)))
      as (e2 & E2 & Hall).
    eexists. rewrite E2, <- app_assoc. split; [reflexivity|].
    intros ref spec [[= -> ->]|Hin]%elem_of_cons.
    + exists pos. split; [exact Hpos|].
      apply elem_of_app. left. now left.
    + destruct (Hall ref spec Hin) as (p & Hp & Hev). exists p.
      split; [exact Hp|]. apply elem_of_app. now right.
Qed.

Lemma add_connection_event (W : world)
    (pin_maps : gmap string (gmap string string)) (src dst : string)
    (tr : trace) :
  exists evs : list event,
    add_connection W pin_maps (src, dst) tr = (Ok tt, tr ++ evs) /\
    forall sr sp dr dp,
      parse_pair src dst pin_maps = Ok ((sr, sp), (dr, dp)) ->
      EvAutoRoutePins sr sp dr dp ∈ evs.
Proof.
  unfold add_connection.
  destruct (parse_pair src dst pin_maps) as [[[sr sp] [dr dp]]|e].
  - unfold try_except, call, print.
    destruct (reply_unit W tr _) as [[]|e1].
    + eexists. split; [reflexivity|]. intros ? ? ? ? [= <- <- <- <-].
      now left.
    + destruct (reply_unit W _ _) as [[]|e2].
      * eexists. split; [now rewrite <- app_assoc|].
        intros ? ? ? ? [= <- <- <- <-]. now left.
      * eexists. split; [now rewrite <- !app_assoc|].
        intros ? ? ? ? [= <- <- <- <-]. now left.
  - eexists. split; [reflexivity|]. discriminate.
Qed.

Lemma connection_loop_events (W : world)
    (pin_maps : gmap string (gmap string string))
    (connections : list (string * string)) (tr : trace) :
  exists evs : list event,
    for_each connections (add_connection W pin_maps) tr = (Ok tt, tr ++ evs) /\
    forall src dst sr sp dr dp,
      (src, dst) ∈ connections ->
      parse_pair src dst pin_maps = Ok ((sr, sp), (dr, dp)) ->
      EvAutoRoutePins sr sp dr dp ∈ evs.
Proof.
  revert tr. induction connections as [|[s d] l IH]; intros tr.
  - exists []. rewrite app_nil_r. split; [reflexivity|].
    intros ? ? ? ? ? ? H. inversion H.
  - destruct (add_connection_event W pin_maps s d tr) as (e1 & E & H1).
    cbn [for_each]. rewrite (bind_run _ _ _ _ _ E).
    destruct (IH (tr ++ e1)) as (e2 & E2 & Hall).
    exists (e1 ++ e2). rewrite E2, <- app_assoc. split; [reflexivity|].
    intros src dst sr sp dr dp [[= -> ->]|Hin]%elem_of_cons Hp.
    + apply elem_of_app. left. now apply H1.
    + apply elem_of_app. right. now apply (Hall src dst).
Qed.

Lemma power_loop_runs (W : world)
    (pin_maps : gmap string (gmap string string))
    (power_connections : option (list (list string * string))) :
  first_pins_parse pin_maps (default [] power_connections) ->
  runs
    match power_connections with
    | Some ((_ :: _) as groups) =>
        for_each groups (fun group : list string * string =>
          _add_power_net W (fst group) (snd group) pin_maps)
    | _ => ret tt
    end.
Proof.
  intros H. apply runs_of; [now apply power_loop_succeeds|].
  destruct power_connections as [[|g groups]|]; repeat extends_open.
Qed.

(** X11: in an environment where the library is installed and the directory,
    the schematic object and the save work, for a dict of fewer than 2^32
    components whose explicit positions are finite floats and power groups
    that each start with a parsable reference, [create_schematic] returns
    the resolved path whatever else fails; on the way it has tried to add
    every component (with its defaults, at the snap of its own position, a
    grid point in both coordinates), tried to route every connection whose
    two references parse, and saved the schematic. *)
Theorem create_schematic_completes (W : world) (components : components_t)
    (connections : list (string * string)) (filename : string)
    (title : option string)
    (power_connections : option (list (list string * string)))
    (render_svg auto_layout : bool) (output_dir : option string)
    (tr : trace) :
  dependable W ->
  finite_positions components -> modest_size components ->
  first_pins_parse (build_pin_maps components)
    (default [] power_connections) ->
  exists (path : string) (evs : list event),
    create_schematic W components connections filename title
      power_connections render_svg auto_layout output_dir tr
    = (Ok path, tr ++ evs) /\
    EvSave path ∈ evs /\
    (forall ref spec, (ref, spec) ∈ components ->
       exists pos : float * float,
         snapped_to (positions_of auto_layout components) ref spec pos /\
         on_grid (fst pos) /\ on_grid (snd pos) /\
         EvComponentsAdd (get_or (lib_id spec) "Device:R") ref
           (get_or (value spec) "") pos
           (if PyStr.truthy (get_or (footprint spec) "")
            then Some (get_or (footprint spec) "") else None) ∈ evs) /\
    (forall src dst sr sp dr dp,
       (src, dst) ∈ connections ->
       parse_pair src dst (build_pin_maps components)
       = Ok ((sr, sp), (dr, dp)) ->
       EvAutoRoutePins sr sp dr dp ∈ evs).
Proof.
  intros HW Hfin Hsize Hpins. unfold create_schematic. cbv zeta.
  destruct (runs_of _ (ensure_ksa_succeeds W HW)
              ltac:(repeat extends_open) tr) as ([] & e1 & E1).
  rewrite (bind_run _ _ _ _ _ E1).
  destruct (runs_of _ (get_output_path_succeeds W filename output_dir HW)
              ltac:(repeat extends_open) (tr ++ e1)) as (path & e2 & E2).
  rewrite (bind_run _ _ _ _ _ E2).
  destruct (runs_of _ (call_essential_succeeds W
                         (EvCreateSchematic (str_or title "Schematic")) HW I)
              (extends_call W _) ((tr ++ e1) ++ e2)) as ([] & e3 & E3).
  rewrite (bind_run _ _ _ _ _ E3).
  destruct (component_loop_events W (positions_of auto_layout components)
              components (((tr ++ e1) ++ e2) ++ e3)
              (fun item Hin =>
                 selected_snappable components auto_layout item Hfin
                   (fun _ => Hsize) Hin))
    as (e4 & E4 & Hadd).
  unfold positions_of in E4 at 1. rewrite (bind_run _ _ _ _ _ E4).
  destruct (connection_loop_events W (build_pin_maps components) connections
              ((((tr ++ e1) ++ e2) ++ e3) ++ e4)) as (e5 & E5 & Hroute).
  rewrite (bind_run _ _ _ _ _ E5).
  destruct (power_loop_runs W (build_pin_maps components) power_connections
              Hpins (((((tr ++ e1) ++ e2) ++ e3) ++ e4) ++ e5))
    as ([] & e6 & E6).
  rewrite (bind_run _ _ _ _ _ E6).
  set (t6 := (((((tr ++ e1) ++ e2) ++ e3) ++ e4) ++ e5) ++ e6) in *.
  assert (E7 : call W (EvSave path) t6 = (Ok tt, t6 ++ [EvSave path])).
  { unfold call. now rewrite (proj2 HW t6 (EvSave path) I). }
  rewrite (bind_run _ _ _ _ _ E7).
  match goal with
  | |- exists p evs, ?m ?t = _ /\ _ =>
      assert (Hs : succeeds m);
      [|assert (He : extends m);
        [|destruct (runs_of m Hs He t) as (a & e8 & E)]]
  end.
  - repeat first [ apply render_svg_succeeds
                 | apply generate_connection_md_succeeds
                 | succeeds_step ].
  - repeat extends_step.
  - assert (Ha : a = path).
    { revert E. clear. unfold bind, print, ret.
      repeat match goal with
             | |- context [match ?x with _ => _ end] =>
                 destruct x; simpl; try congruence
             end. }
    subst a.
    exists path, (e1 ++ e2 ++ e3 ++ e4 ++ e5 ++ e6 ++ [EvSave path] ++ e8).
    split; [|split; [|split]].
    + rewrite E. unfold t6. now rewrite <- !app_assoc.
    + rewrite !elem_of_app. do 6 right. left. now left.
    + intros ref spec Hin.
      destruct (Hadd ref spec Hin) as (pos & Hsnap & Hpos).
      exists pos. split; [exact Hsnap|].
      split; [exact (snap_on_grid _ _ (proj1 Hsnap))|].
      split; [exact (snap_on_grid _ _ (proj2 Hsnap))|].
      rewrite !elem_of_app. tauto.
    + intros src dst sr sp dr dp Hin Hp.
      pose proof (Hroute src dst sr sp dr dp Hin Hp).
      rewrite !elem_of_app. tauto.
Qed.

Lemma hostile_dependable : dependable Posix.hostile.
Proof. split; [reflexivity|]. now intros tr []. Qed.

Lemma no_positions_finite (components : components_t) :
  (forall ref spec, (ref, spec) ∈ components -> position spec = None) ->
  finite_positions components.
Proof. intros H ref spec p Hin Hp. rewrite (H ref spec Hin) in Hp. discriminate. Qed.

Lemma divider_no_positions (ref : string) (spec : component_spec) :
  (ref, spec) ∈ divider -> position spec = None.
Proof.
  intros Hin.
  repeat (apply elem_of_cons in Hin as [Hin|Hin];
          [now injection Hin as -> ->|]).
  inversion Hin.
Qed.

Lemma create_schematic_completes_witness :
  exists (path : string) (evs : list event),
    create_schematic Posix.hostile divider [("R1.2", "R2.1"); ("R1", "R2.1")]
      "divider.kicad_sch" None (Some [(["R1.1"; "R2"], "VCC")]) true true
      None []
    = (Ok path, [] ++ evs) /\
    EvSave path ∈ evs /\
    (forall ref spec, (ref, spec) ∈ divider ->
       exists pos : float * float,
         snapped_to (positions_of true divider) ref spec pos /\
         on_grid (fst pos) /\ on_grid (snd pos) /\
         EvComponentsAdd (get_or (lib_id spec) "Device:R") ref
           (get_or (value spec) "") pos
           (if PyStr.truthy (get_or (footprint spec) "")
            then Some (get_or (footprint spec) "") else None) ∈ evs) /\
    (forall src dst sr sp dr dp,
       (src, dst) ∈ [("R1.2", "R2.1"); ("R1", "R2.1")] ->
       parse_pair src dst (build_pin_maps divider)
       = Ok ((sr, sp), (dr, dp)) ->
       EvAutoRoutePins sr sp dr dp ∈ evs).
Proof.
  apply (create_schematic_completes Posix.hostile divider
           [("R1.2", "R2.1"); ("R1", "R2.1")] "divider.kicad_sch" None
           (Some [(["R1.1"; "R2"], "VCC")]) true true None []
           hostile_dependable (no_positions_finite divider divider_no_positions)).
  - vm_compute. reflexivity.
  - intros group [->|H]%elem_of_cons; [reflexivity | inversion H].
Defined.

(** ** The MCU-pair builder: connections and power groups *)

Lemma pullup_step_connections (mcu1_name mcu2_name pullup_value : string)
    (i2c_pins : list string) (st : pullup_state) (pair : string * string) :
  let st' := pullup_step mcu1_name mcu2_name pullup_value i2c_pins st pair in
  exists extra : list (string * string),
    full_connections st' =
      full_connections st ++ direct_connection mcu1_name mcu2_name pair :: extra /\
    length extra + pullup_count st = pullup_count st' /\
    Forall (starts_at mcu1_name) extra.
Proof.
  unfold pullup_step, direct_connection. destruct pair as [p1 p2].
  cbn [fst snd].
  destruct (i2c_signal_of i2c_pins (p1, p2)) as [sig|].
  - destruct (PyStr.truthy sig && bool_decide (sig ∉ processed_i2c_pins st)).
    + eexists [_]. cbn [full_connections pullup_count length].
      split; [reflexivity|]. split; [reflexivity|].
      constructor; [now exists p1 | constructor].
    + exists []. cbn [full_connections pullup_count length].
      split; [reflexivity|]. split; [reflexivity | constructor].
  - exists []. cbn [full_connections pullup_count length].
    split; [reflexivity|]. split; [reflexivity | constructor].
Qed.

Lemma pullup_loop_connections (mcu1_name mcu2_name pullup_value : string)
    (i2c_pins : list string) (st : pullup_state)
    (connections : list (string * string)) :
  let st' :=
    pullup_loop mcu1_name mcu2_name pullup_value i2c_pins st connections in
  exists added : list (string * string),
    full_connections st' = full_connections st ++ added /\
    List.map (direct_connection mcu1_name mcu2_name) connections
      `sublist_of` added /\
    length added + pullup_count st = length connections + pullup_count st' /\
    Forall (starts_at mcu1_name) added.
Proof.
  revert st. induction connections as [|conn rest IH]; intros st.
  - exists []. cbn. rewrite app_nil_r.
    repeat split; [constructor | constructor].
  - unfold pullup_loop in *. cbn [fold_left List.map].
    destruct (pullup_step_connections mcu1_name mcu2_name pullup_value
                i2c_pins st conn) as (extra & E & Hc & Hs).
    destruct (IH (pullup_step mcu1_name mcu2_name pullup_value i2c_pins
                    st conn)) as (added & E' & Hsub & Hlen & Hall).
    exists (direct_connection mcu1_name mcu2_name conn :: extra ++ added).
    rewrite E', E, <- app_assoc. cbn [app].
    split; [reflexivity|]. split; [|split].
    + apply sublist_skip. now apply sublist_inserts_l.
    + cbn [length]. rewrite length_app. lia.
    + constructor.
      * exists (fst conn). reflexivity.
      * apply Forall_app. now split.
Qed.

(** X14: the MCU-pair builder hands every requested pin pair on as a direct
    connection, in the given order; besides these it adds exactly one
    connection per pull-up resistor, and every connection it makes starts at
    a pin of the first controller. *)
Theorem draw_connections_kept (mcu1_name mcu2_name pullup_value : string)
    (i2c_pins : list string) (components : components_t)
    (connections : list (string * string)) :
  let st :=
    pullup_loop mcu1_name mcu2_name pullup_value i2c_pins
      (mk_pullup_state components [] [] 0 ∅) connections in
  List.map (direct_connection mcu1_name mcu2_name) connections
    `sublist_of` full_connections st /\
  length (full_connections st) = length connections + pullup_count st /\
  Forall (starts_at mcu1_name) (full_connections st).
Proof.
  intros st.
  destruct (pullup_loop_connections mcu1_name mcu2_name pullup_value i2c_pins
              (mk_pullup_state components [] [] 0 ∅) connections)
    as (added & E & Hsub & Hlen & Hall).
  fold st in E, Hlen. cbn [full_connections pullup_count app] in E, Hlen.
  rewrite E. split; [exact Hsub|]. split; [lia | exact Hall].
Qed.

Example draw_connections_example :
  full_connections
    (pullup_loop "U1" "U2" "4.7k" ["SDA"]
       (mk_pullup_state [] [] [] 0 ∅) [("TX1", "RX"); ("D18", "SDA")]) =
  [("U1.TX1", "U2.RX"); ("U1.D18", "U2.SDA"); ("U1.D18", "R1.1")].
Proof. vm_compute. reflexivity. Qed.

Lemma pretty_N_char_no_dot (x : N) : Ascii.eqb (pretty_N_char x) "." = false.
Proof. unfold pretty_N_char. repeat case_match; reflexivity. Qed.

Lemma pretty_N_go_no_dot (x : N) (s : string) :
  PyStr.count "." (pretty_N_go x s) = PyStr.count "." s.
Proof.
  revert s. induction (N.lt_wf_0 x) as [x _ IH]; intros s.
  destruct (N.eq_dec x 0%N) as [->|Hx].
  - now rewrite pretty_N_go_0.
  - rewrite pretty_N_go_step by lia. rewrite IH by (apply N.div_lt; lia).
    cbn [PyStr.count]. now rewrite pretty_N_char_no_dot.
Qed.

Lemma r_ref_no_dot (k : nat) : PyStr.count "." (r_ref_of k) = 0.
Proof.
  unfold r_ref_of. rewrite count_app.
  change (PyStr.count "." "R") with 0. cbn [Nat.add].
  change (pretty k) with (pretty_N (N.of_nat k)). unfold pretty_N.
  destruct (decide (N.of_nat k = 0%N)); [reflexivity|].
  now rewrite pretty_N_go_no_dot.
Qed.

Lemma pullup_groups_parse (mcu1_name mcu2_name pullup_value : string)
    (i2c_pins : list string) (components : components_t)
    (connections : list (string * string))
    (pin_maps : gmap string (gmap string string)) :
  let st :=
    pullup_loop mcu1_name mcu2_name pullup_value i2c_pins
      (mk_pullup_state components [] [] 0 ∅) connections in
  first_pins_parse pin_maps
    (default [] match ps_power_connections st with
                | [] => None
                | groups => Some groups
                end).
Proof.
  intros st.
  destruct (pullup_loop_log mcu1_name mcu2_name pullup_value i2c_pins
              (mk_pullup_state components [] [] 0 ∅) connections)
    as (_ & Hrefs & _ & Hpower).
  fold st in Hpower. cbn [ps_power_connections app] in Hpower.
  rewrite Hrefs in Hpower.
  assert (Hall : forall group, group ∈ ps_power_connections st ->
            exists k, group = ([r_ref_of k +:+ ".2"], "VCC")).
  { intros group. rewrite Hpower.
    intros Hin%list_elem_of_In%in_map_iff. destruct Hin as (r & <- & Hr).
    apply in_map_iff in Hr as (k & <- & _). now exists k. }
  intros group Hin.
  assert (Hin' : group ∈ ps_power_connections st).
  { destruct (ps_power_connections st); [inversion Hin | exact Hin]. }
  destruct (Hall group Hin') as [k ->]. cbn [fst].
  change (r_ref_of k +:+ ".2") with (r_ref_of k +:+ "." +:+ "2").
  now rewrite (parse_pin_ref_well_formed (r_ref_of k) "2" pin_maps
                 (r_ref_no_dot k) eq_refl).
Qed.

(** X15: the power groups the MCU-pair builder generates always start with
    a parsable reference ("R<k>.2") and it passes no explicit position, so
    in an environment where the library is installed and the directory, the
    schematic object and the save work, [draw_mcu_connection] returns a path
    under which the schematic was saved, whatever names and pin pairs it is
    given, for any list of fewer than 2^32 - 2 pin pairs. *)
Theorem draw_mcu_connection_completes (W : world)
    (mcu1_name mcu1_lib_id : string) (mcu1_pins : gmap string string)
    (mcu2_name mcu2_lib_id : string) (mcu2_pins : gmap string string)
    (connections : list (string * string)) (filename : string)
    (title : option string) (i2c_pins : option (list string))
    (pullup_value : string) (render_svg : bool) (output_dir : option string) :
  dependable W ->
  (Z.of_nat (length connections) < 2 ^ 32 - 2)%Z ->
  exists (path : string) (tr : trace),
    draw_mcu_connection W mcu1_name mcu1_lib_id mcu1_pins mcu2_name
      mcu2_lib_id mcu2_pins connections filename title i2c_pins pullup_value
      render_svg output_dir [] = (Ok path, tr) /\
    EvSave path ∈ tr.
Proof.
  intros HW Hlen.
  destruct (draw_mcu_connection_runs_loop W mcu1_name mcu1_lib_id mcu1_pins
              mcu2_name mcu2_lib_id mcu2_pins connections filename title
              i2c_pins pullup_value render_svg output_dir [])
    as (components & _ & Hnone & Hsize & ->).
  pose proof (pullup_loop_dict mcu1_name mcu2_name pullup_value
                (get_or i2c_pins []) (mk_pullup_state components [] [] 0 ∅)
                connections) as Hdict.
  cbn [ps_components] in Hdict.
  apply create_schematic_tolerant; [exact HW | | |apply pullup_groups_parse].
  - rewrite Hdict. apply no_positions_finite.
    now apply with_pullups_no_positions.
  - unfold modest_size. rewrite Hdict.
    pose proof (with_pullups_length pullup_value components
                  (List.map snd
                     (pullup_log mcu1_name mcu2_name pullup_value
                        (get_or i2c_pins [])
                        (mk_pullup_state components [] [] 0 ∅) connections)))
      as H1.
    rewrite length_map in H1.
    pose proof (pullup_log_length mcu1_name mcu2_name pullup_value
                  (get_or i2c_pins []) (mk_pullup_state components [] [] 0 ∅)
                  connections) as H2.
    lia.
Qed.

Lemma draw_mcu_connection_completes_witness :
  exists (path : string) (tr : trace),
    draw_mcu_connection Posix.hostile "U.1" "MCU_Module:Teensy4.1" ∅ "U2"
      "MCU_Module:RP2040-Zero" ∅ [("SDA", "SDA"); ("SCL", "S.CL")]
      "pair.kicad_sch" None (Some ["SDA"; "SCL"]) "4.7k" true None []
    = (Ok path, tr) /\
    EvSave path ∈ tr.
Proof.
  apply (draw_mcu_connection_completes Posix.hostile "U.1"
           "MCU_Module:Teensy4.1" ∅ "U2" "MCU_Module:RP2040-Zero" ∅
           [("SDA", "SDA"); ("SCL", "S.CL")] "pair.kicad_sch" None
           (Some ["SDA"; "SCL"]) "4.7k" true None);
    [|vm_compute; reflexivity].
  split; [reflexivity|]. now intros tr [].
Defined.

(** ** Positions without a layout, components without a library *)

Lemma snap_default :
  _snap_to_grid (of_Q 100%Q) GRID_SPACING = Ok (of_Q 99.06%Q).
Proof. vm_compute. reflexivity. Qed.

(** X16: with [auto_layout] switched off, all components without an
    explicit position land on one and the same spot, the default
    (100.0, 100.0) snapped to (99.06, 99.06), whatever else the dict holds:
    no such component is ever added anywhere else, and once the schematic
    object exists and the explicit positions are finite, each of them is
    added there. *)
Theorem no_layout_stacks_components (W : world) (components : components_t)
    (connections : list (string * string)) (filename : string)
    (title : option string)
    (power_connections : option (list (list string * string)))
    (render_svg : bool) (output_dir : option string) :
  NoDup (keys components) ->
  let run := create_schematic W components connections filename title
               power_connections render_svg false output_dir [] in
  Forall (stacked components) (snd run) /\
  (dependable W -> finite_positions components ->
   forall ref spec, (ref, spec) ∈ components -> position spec = None ->
     EvComponentsAdd (get_or (lib_id spec) "Device:R") ref
       (get_or (value spec) "") default_spot
       (if PyStr.truthy (get_or (footprint spec) "")
        then Some (get_or (footprint spec) "") else None) ∈ snd run).
Proof.
  intros Hnd run. subst run. split.
  - match goal with
    | |- Forall _ (snd (?m [])) =>
        enough (Hk : keeps (stacked components) m) by (apply Hk; constructor)
    end.
    unfold create_schematic. cbv zeta.
    do 3 (apply keeps_bind; [repeat keeps_open; exact I | intros ?]).
    apply keeps_bind; [|intros ?; repeat keeps_open; exact I].
    apply keeps_for_each. intros [ref spec] Hin. unfold add_component.
    repeat keeps_open; try exact I.
    cbn [stacked]. intros spec' Hin' Hnone.
    assert (E : spec' = spec) by exact (keys_spec_unique _ _ _ _ Hnd Hin' Hin).
    subst spec'.
    match goal with
    | H1 : _snap_to_grid _ _ = Ok _, H2 : _snap_to_grid _ _ = Ok _ |- _ =>
        unfold select_position in H1, H2;
        rewrite Hnone, lookup_empty in H1, H2; cbn [fst snd] in H1, H2;
        rewrite snap_default in H1, H2;
        apply Ok_inj in H1; apply Ok_inj in H2; subst
    end.
    reflexivity.
  - intros HW Hfin ref spec Hin Hnone.
    unfold create_schematic. cbv zeta.
    destruct (succeeds_run _ [] (ensure_ksa_succeeds W HW)) as ([] & t1 & E1).
    rewrite (bind_run _ _ _ _ _ E1).
    destruct (succeeds_run _ t1
                (get_output_path_succeeds W filename output_dir HW))
      as (path & t2 & E2).
    rewrite (bind_run _ _ _ _ _ E2).
    destruct (succeeds_run _ t2
                (call_essential_succeeds W
                   (EvCreateSchematic (str_or title "Schematic")) HW I))
      as ([] & t3 & E3).
    rewrite (bind_run _ _ _ _ _ E3).
    destruct (component_loop_events W (positions_of false components)
                components t3
                (fun item Hitem =>
                   selected_snappable components false item Hfin
                     ltac:(discriminate) Hitem))
      as (e4 & E4 & Hadd).
    unfold positions_of in E4 at 1. rewrite (bind_run _ _ _ _ _ E4).
    destruct (Hadd ref spec Hin) as (pos & [Hx Hy] & Hev).
    unfold positions_of, select_position in Hx, Hy.
    rewrite Hnone, lookup_empty in Hx, Hy. cbn [fst snd] in Hx, Hy.
    rewrite snap_default in Hx, Hy.
    assert (Epos : pos = default_spot).
    { destruct pos as [x y]. cbn [fst snd] in Hx, Hy.
      apply Ok_inj in Hx, Hy. subst. reflexivity. }
    subst pos.
    match goal with
    | |- _ ∈ snd (?m ?t) =>
        assert (He : extends m) by (repeat extends_open);
        destruct (He t) as [evs ->]
    end.
    apply elem_of_app. left. apply elem_of_app. now right.
Qed.

Lemma no_layout_stacks_components_witness :
  EvComponentsAdd "Device:R" "R2" "10k" default_spot None ∈
  snd (create_schematic Posix.hostile
         [("R1", mk_spec (Some "Device:R") (Some "10k") None None
                   (Some (of_Q 12.7%Q, of_Q 25.4%Q)));
          ("R2", resistor "10k")]
         [("R1.2", "R2.1")] "divider.kicad_sch" None None false false None []).
Proof.
  set (components :=
         [("R1", mk_spec (Some "Device:R") (Some "10k") None None
                   (Some (of_Q 12.7%Q, of_Q 25.4%Q)));
          ("R2", resistor "10k")]).
  assert (Hnd : NoDup (keys components))
    by (apply (bool_decide_unpack _); vm_compute; exact I).
  assert (HW : dependable Posix.hostile)
    by (split; [reflexivity | now intros tr []]).
  assert (Hfin : finite_positions components).
  { intros ref spec p Hin Hp.
    apply elem_of_cons in Hin as [Hin|Hin].
    - injection Hin as -> ->. injection Hp as <-.
      split; (split; [reflexivity | vm_compute; reflexivity]).
    - apply list_elem_of_singleton in Hin. injection Hin as -> ->.
      discriminate Hp. }
  assert (Hin : ("R2", resistor "10k") ∈ components) by (right; left).
  exact (proj2 (no_layout_stacks_components Posix.hostile components
                  [("R1.2", "R2.1")] "divider.kicad_sch" None None false None
                  Hnd)
           HW Hfin "R2" (resistor "10k") Hin eq_refl).
Defined.

Lemma snap_nonfinite (x : float) :
  is_finite x = false -> is_ok (_snap_to_grid x GRID_SPACING) = false.
Proof.
  rewrite grid_spacing_value.
  destruct x as [s|s| |s m e]; try discriminate; reflexivity.
Qed.

Lemma always_raises_for_each {A} (l : list A) (body : A -> M unit) (x : A) :
  x ∈ l -> always_raises (body x) -> always_raises (for_each l body).
Proof.
  intros Hin Hx. induction l as [|y l IH]; [inversion Hin|].
  cbn [for_each]. apply elem_of_cons in Hin as [<-|Hin].
  - now apply always_raises_bind_l.
  - apply always_raises_bind. intros _. now apply IH.
Qed.

(** X19: one component whose explicit position has a coordinate that is NaN
    or an infinity aborts the whole build: the snap of that coordinate
    stands outside the [try] of the component loop, so [create_schematic]
    ends in an exception in every environment and the schematic is never
    saved. *)
Theorem nonfinite_position_is_fatal (W : world) (components : components_t)
    (connections : list (string * string)) (filename : string)
    (title : option string)
    (power_connections : option (list (list string * string)))
    (render_svg auto_layout : bool) (output_dir : option string)
    (ref : string) (spec : component_spec) (x y : float) :
  (ref, spec) ∈ components -> position spec = Some (x, y) ->
  is_finite x = false \/ is_finite y = false ->
  is_ok (fst (create_schematic W components connections filename title
                power_connections render_svg auto_layout output_dir []))
  = false /\
  Forall not_saved
    (snd (create_schematic W components connections filename title
            power_connections render_svg auto_layout output_dir [])).
Proof.
  intros Hin Hpos Hbad. unfold create_schematic. cbv zeta.
  assert (Hitem : forall positions,
            always_raises (add_component W positions (ref, spec))).
  { intros positions tr. unfold add_component, select_position.
    rewrite Hpos. cbn [fst snd]. unfold bind at 1, lift at 1.
    destruct (_snap_to_grid x GRID_SPACING) as [sx|e] eqn:Ex;
      [|reflexivity].
    unfold bind at 1, lift at 1.
    destruct (_snap_to_grid y GRID_SPACING) as [sy|e] eqn:Ey;
      [|reflexivity].
    destruct Hbad as [Hx|Hy].
    - apply snap_nonfinite in Hx. rewrite Ex in Hx. inversion Hx.
    - apply snap_nonfinite in Hy. rewrite Ey in Hy. inversion Hy. }
  assert (Hloop : forall positions,
            always_raises (for_each components (add_component W positions))).
  { intros positions.
    exact (always_raises_for_each _ _ _ Hin (Hitem positions)). }
  split.
  - do 3 (apply always_raises_bind; intros ?).
    apply always_raises_bind_l, Hloop.
  - match goal with
    | |- Forall _ (snd (?m [])) =>
        enough (Hk : keeps not_saved m) by (apply Hk; constructor)
    end.
    do 3 (apply keeps_bind; [repeat keeps_open; exact I | intros ?]).
    apply keeps_bind_raises; [|apply Hloop].
    repeat keeps_open; exact I.
Qed.

Lemma nonfinite_position_is_fatal_witness :
  is_ok (fst (create_schematic Posix.quiet
                [("R1", resistor "10k");
                 ("R2", resistor_at "10k" (S754_infinity false, of_Q 0%Q))]
                [("R1.2", "R2.1")] "divider.kicad_sch" None None false true
                None []))
  = false /\
  Forall not_saved
    (snd (create_schematic Posix.quiet
            [("R1", resistor "10k");
             ("R2", resistor_at "10k" (S754_infinity false, of_Q 0%Q))]
            [("R1.2", "R2.1")] "divider.kicad_sch" None None false true
            None [])).
Proof.
  apply (nonfinite_position_is_fatal Posix.quiet
           [("R1", resistor "10k");
            ("R2", resistor_at "10k" (S754_infinity false, of_Q 0%Q))]
           [("R1.2", "R2.1")] "divider.kicad_sch" None None false true None
           "R2" (resistor_at "10k" (S754_infinity false, of_Q 0%Q))
           (S754_infinity false) (of_Q 0%Q)).
  - right. left.
  - reflexivity.
  - left. reflexivity.
Defined.

(** The same run, evaluated: the first resistor is placed, the second one
    raises before the library is asked to add it. *)
Example nonfinite_position_run :
  create_schematic Posix.quiet
    [("R1", resistor "10k");
     ("R2", resistor_at "10k" (S754_infinity false, of_Q 0%Q))]
    [("R1.2", "R2.1")] "divider.kicad_sch" None None false true None [] =
  (Raise (OverflowError "cannot convert float infinity to integer"),
   [EvPathExists "KiCad"; EvMakedirs "KiCad";
    EvPrint "Created directory: KiCad"; EvCreateSchematic "Schematic";
    EvComponentsAdd "Device:R" "R1" "10k" (of_Q 88.90%Q, of_Q 50.80%Q) None]).
Proof. vm_compute. reflexivity. Qed.

(** X18: a component spec without [lib_id] is laid out as "other" (the
    layout reads the missing identifier as the empty string) and yet is
    added to the schematic as a "Device:R" (the builder's default); this
    for a dict of fewer than 2^32 components with finite explicit
    positions. *)
Theorem missing_lib_id_mismatch (W : world) (components : components_t)
    (ref : string) (spec : component_spec) (tr : trace) :
  NoDup (keys components) -> (ref, spec) ∈ components ->
  finite_positions components -> modest_size components ->
  lib_id spec = None ->
  in_other_column components ref /\
  ~ in_passive_grid components ref /\
  exists (pos : float * float) (fp : option string) (evs : list event),
    add_component W (_auto_layout_components components) (ref, spec) tr =
    (Ok tt,
     tr ++ EvComponentsAdd "Device:R" ref (get_or (value spec) "") pos fp
          :: evs).
Proof.
  intros Hnd Hin Hfin Hsize Hlib.
  assert (Hc : classify (get_or (lib_id spec) "") = Other)
    by now rewrite Hlib.
  destruct (placed_in_category components ref spec Other Hnd Hin Hc)
    as [Hex Huniq].
  split; [exact Hex|]. split.
  - intros [i Hi]. now apply Huniq in Hi.
  - destruct (add_component_event W (_auto_layout_components components)
                ref spec tr
                (selected_snappable components true (ref, spec) Hfin
                   (fun _ => Hsize) Hin))
      as (pos & evs & E & _).
    rewrite Hlib in E. cbn [get_or] in E. eauto.
Qed.

Lemma missing_lib_id_mismatch_witness :
  in_other_column [("X1", mk_spec None (Some "10k") None None None)] "X1" /\
  ~ in_passive_grid [("X1", mk_spec None (Some "10k") None None None)] "X1" /\
  exists (pos : float * float) (fp : option string) (evs : list event),
    add_component Posix.quiet
      (_auto_layout_components
         [("X1", mk_spec None (Some "10k") None None None)])
      ("X1", mk_spec None (Some "10k") None None None) [] =
    (Ok tt, [] ++ EvComponentsAdd "Device:R" "X1" "10k" pos fp :: evs).
Proof.
  apply (missing_lib_id_mismatch Posix.quiet
           [("X1", mk_spec None (Some "10k") None None None)] "X1"
           (mk_spec None (Some "10k") None None None) []).
  - apply (bool_decide_unpack _). vm_compute. exact I.
  - repeat constructor.
  - apply no_positions_finite. intros ref spec Hin.
    apply list_elem_of_singleton in Hin. now injection Hin as -> ->.
  - vm_compute. reflexivity.
  - reflexivity.
Defined.

(** ** Pull-ups: how many, and for which names *)

Lemma flagged_signal_spec (i2c_pins : list string) (pair : string * string)
    (s : string) :
  flagged_signal i2c_pins pair = Some s -> s ∈ i2c_pins /\ s <> "".
Proof.
  unfold flagged_signal, i2c_signal_of. destruct pair as [p1 p2].
  destruct (decide (p1 ∈ i2c_pins)) as [H1|H1].
  - rewrite (bool_decide_eq_true_2 _ H1).
    destruct p1; [discriminate|]. intros [= <-]. now split.
  - rewrite (bool_decide_eq_false_2 _ H1).
    destruct (decide (p2 ∈ i2c_pins)) as [H2|H2].
    + rewrite (bool_decide_eq_true_2 _ H2).
      destruct p2; [discriminate|]. intros [= <-]. now split.
    + rewrite (bool_decide_eq_false_2 _ H2). discriminate.
Qed.

Lemma flagged_signals_spec (i2c_pins : list string)
    (connections : list (string * string)) :
  Forall (fun s => s ∈ i2c_pins /\ s <> "")
    (flagged_signals i2c_pins connections) /\
  length (flagged_signals i2c_pins connections) <= length connections.
Proof.
  induction connections as [|conn rest [IH1 IH2]];
    [split; [constructor | reflexivity]|].
  cbn [flagged_signals length].
  destruct (flagged_signal i2c_pins conn) as [s|] eqn:E.
  - split; [|cbn [length]; lia].
    constructor; [exact (flagged_signal_spec _ _ _ E) | exact IH1].
  - split; [exact IH1 | lia].
Qed.

Lemma first_occurrences_sublist (seen : gset string) (l : list string) :
  first_occurrences seen l `sublist_of` l.
Proof.
  revert seen. induction l as [|x l IH]; intros seen; [constructor|].
  cbn [first_occurrences]. destruct (bool_decide (x ∈ seen)).
  - apply sublist_cons, IH.
  - apply sublist_skip, IH.
Qed.

Lemma pullup_loop_unflagged (mcu1_name mcu2_name pullup_value : string)
    (i2c_pins : list string) (st : pullup_state)
    (connections : list (string * string)) :
  (forall p1 p2, (p1, p2) ∈ connections ->
     (p1 ∉ i2c_pins) /\ (p2 ∉ i2c_pins)) ->
  pullup_loop mcu1_name mcu2_name pullup_value i2c_pins st connections =
  mk_pullup_state (ps_components st)
    (full_connections st ++
     List.map (fun pair => (mcu1_name +:+ "." +:+ fst pair,
                            mcu2_name +:+ "." +:+ snd pair)) connections)
    (ps_power_connections st) (pullup_count st) (processed_i2c_pins st).
Proof.
  revert st. induction connections as [|[p1 p2] rest IH]; intros st Hnone.
  - cbn. rewrite app_nil_r. now destruct st.
  - unfold pullup_loop in *. cbn [fold_left List.map fst snd].
    destruct (Hnone p1 p2 ltac:(now left)) as [H1 H2].
    rewrite IH by (intros q1 q2 Hq; apply Hnone; now right).
    unfold pullup_step, i2c_signal_of.
    rewrite (bool_decide_eq_false_2 _ H1), (bool_decide_eq_false_2 _ H2).
    cbn [ps_components full_connections ps_power_connections
           pullup_count processed_i2c_pins].
    now rewrite <- app_assoc.
Qed.

(** X17: the MCU-pair builder creates a pull-up only for a non-empty pin
    name that is listed in [i2c_pins]; it never creates more pull-ups than
    there are pin pairs or listed names; the component dict it passes on is
    the one it started from with exactly the resistors R1..Rn stored, n the
    number of pull-ups, so it grows by at most n entries; and when no pair
    carries a listed name it creates none and passes no power groups on. *)
Theorem pullups_bounded (mcu1_name mcu2_name pullup_value : string)
    (i2c_pins : list string) (components : components_t)
    (connections : list (string * string)) :
  let st0 := mk_pullup_state components [] [] 0 ∅ in
  let created :=
    pullup_log mcu1_name mcu2_name pullup_value i2c_pins st0 connections in
  let st :=
    pullup_loop mcu1_name mcu2_name pullup_value i2c_pins st0 connections in
  Forall (fun entry => fst entry ∈ i2c_pins /\ fst entry <> "") created /\
  pullup_count st <= length connections /\
  pullup_count st <= length i2c_pins /\
  ps_components st =
    with_pullups pullup_value components
      (List.map r_ref_of (seq 1 (pullup_count st))) /\
  length (ps_components st) <= length components + pullup_count st /\
  ((forall p1 p2, (p1, p2) ∈ connections ->
      (p1 ∉ i2c_pins) /\ (p2 ∉ i2c_pins)) ->
   ps_components st = components /\
   ps_power_connections st = [] /\
   full_connections st =
     List.map (fun pair => (mcu1_name +:+ "." +:+ fst pair,
                            mcu2_name +:+ "." +:+ snd pair)) connections).
Proof.
  intros st0 created st.
  destruct (pullup_loop_log mcu1_name mcu2_name pullup_value i2c_pins st0
              connections) as (Hsig & Hrefs & Hcount & _).
  pose proof (pullup_loop_dict mcu1_name mcu2_name pullup_value i2c_pins st0
                connections) as Hdict.
  unfold st0 in Hsig, Hrefs at 2, Hcount at 2, Hdict at 2.
  cbn [pullup_count processed_i2c_pins ps_components Nat.add]
    in Hsig, Hrefs, Hcount, Hdict.
  fold st0 in Hsig, Hrefs, Hcount, Hdict.
  fold created in Hsig, Hrefs, Hcount, Hdict. fold st in Hcount, Hdict.
  rewrite Hrefs, <- Hcount in Hdict.
  destruct (flagged_signals_spec i2c_pins connections) as [Hall Hlen].
  pose proof (first_occurrences_sublist ∅
                (flagged_signals i2c_pins connections)) as Hsub.
  rewrite <- Hsig in Hsub.
  assert (Hfst : Forall (fun s => s ∈ i2c_pins /\ s <> "")
                   (List.map fst created)).
  { rewrite Forall_forall in Hall |- *. intros s Hs. apply Hall.
    exact (elem_of_sublist _ _ s Hs Hsub). }
  assert (Hlog : length created = length (List.map fst created))
    by now rewrite length_map.
  split; [|split; [|split; [|split; [|split]]]].
  - now apply Forall_map in Hfst.
  - rewrite Hcount, Hlog. pose proof (sublist_length _ _ Hsub). lia.
  - rewrite Hcount, Hlog.
    assert (Hnd : NoDup (List.map fst created))
      by (rewrite Hsig; apply first_occurrences_NoDup).
    apply submseteq_length, NoDup_submseteq; [exact Hnd|].
    intros s Hs. rewrite Forall_forall in Hfst. exact (proj1 (Hfst s Hs)).
  - exact Hdict.
  - rewrite Hdict.
    pose proof (with_pullups_length pullup_value components
                  (List.map r_ref_of (seq 1 (pullup_count st)))) as Hl.
    now rewrite length_map, length_seq in Hl.
  - intros Hnone. unfold st, st0.
    rewrite (pullup_loop_unflagged mcu1_name mcu2_name pullup_value i2c_pins
               (mk_pullup_state components [] [] 0 ∅) connections Hnone).
    now repeat split.
Qed.

Lemma pullups_bounded_witness :
  full_connections
    (pullup_loop "U1" "U2" "4.7k" ["SDA"; "SCL"]
       (mk_pullup_state [] [] [] 0 ∅) [("TX", "RX"); ("GND", "GND")]) =
  [("U1.TX", "U2.RX"); ("U1.GND", "U2.GND")].
Proof.
  destruct (pullups_bounded "U1" "U2" "4.7k" ["SDA"; "SCL"] []
              [("TX", "RX"); ("GND", "GND")]) as (_ & _ & _ & _ & _ & H).
  apply H. intros p1 p2 Hin.
  repeat (apply elem_of_cons in Hin as [Hin|Hin];
          [injection Hin as -> ->;
           split; apply (bool_decide_unpack _); exact I|]).
  now apply elem_of_nil in Hin.
Defined.

(** ** Power groups *)

(** X10: a power group whose first entry is written ["ref.pin"], with no
    further dot, is always worked through to the end, whatever the
    schematic library answers: one label placement attempt at that pin,
    then one join attempt per adjacent pair of the list, in list order,
    one fewer than there are entries; failures of the library and of later
    entries are reported and skipped. *)
Theorem power_net_worked_through (W : world) (ref pin : string)
    (rest : list string) (net_name : string) (pin_maps : pin_maps_t)
    (tr : trace) :
  PyStr.count "." ref = 0 -> PyStr.count "." pin = 0 ->
  let first := ref +:+ "." +:+ pin in
  exists (label : list event) (joins : list (list event)),
    _add_power_net W (first :: rest) net_name pin_maps tr =
      (Ok tt, tr ++ label ++ concat joins) /\
    label_events ref (resolved_pin pin_maps ref pin) net_name label /\
    Forall2 (fun p evs => join_events pin_maps (fst p) (snd p) evs)
      (adjacent (first :: rest)) joins /\
    length joins = length rest.
Proof.
  intros Href Hpin first.
  pose proof (parse_pin_ref_well_formed ref pin pin_maps Href Hpin) as Hfirst.
  fold first in Hfirst. unfold _add_power_net.
  unfold bind at 1, lift at 1. rewrite Hfirst. cbv beta iota.
  destruct (label_attempt_events W net_name ref
              (resolved_pin pin_maps ref pin) tr) as (label & E & Hl).
  rewrite (bind_run _ _ _ _ _ E).
  pose proof (index_loop_adjacent (join_attempt W pin_maps) (first :: rest) []
                (first :: rest) (tr ++ label) eq_refl) as Hloop.
  destruct (join_loop_events W pin_maps (adjacent (first :: rest))
              (tr ++ label)) as (joins & E' & Hj).
  exists label, joins. rewrite <- Hloop in E'.
  split; [|split; [exact Hl | split; [exact Hj|]]].
  - rewrite app_assoc. exact E'.
  - rewrite <- (Forall2_length _ _ _ Hj).
    pose proof (adjacent_length (first :: rest)) as Hlen.
    cbn [length] in Hlen. lia.
Qed.

Lemma power_net_worked_through_witness :
  exists (label : list event) (joins : list (list event)),
    _add_power_net Posix.hostile ["U1.3V3"; "U2.3V3"; "R1"] "VCC" ∅ [] =
      (Ok tt, [] ++ label ++ concat joins) /\
    label_events "U1" (resolved_pin ∅ "U1" "3V3") "VCC" label /\
    Forall2 (fun p evs => join_events ∅ (fst p) (snd p) evs)
      (adjacent ["U1.3V3"; "U2.3V3"; "R1"]) joins /\
    length joins = length ["U2.3V3"; "R1"].
Proof.
  apply (power_net_worked_through Posix.hostile "U1" "3V3" ["U2.3V3"; "R1"]
           "VCC" ∅ []); reflexivity.
Defined.
